(** * chk_demension.py: arrow detection, leader assembly, text matching
      and boundary-line detection

    A shallow embedding of the geometric core of [src/chk_demension.py]
    and the properties its specification states about it, followed by the
    rest of the file that computes (entity classes, layer and type tables,
    extraction, report figures, the steps of [main]) with further
    properties of the code.

    Modelling conventions.
    - Python floats are real numbers ([R]); rounding and NaN are not
      represented, and overflow only where an operation raises on it (the
      power [v ** 2], see [py_pow2]).  [math.sqrt] is [sqrt], [math.acos]
      is [acos], [math.degrees r] is [r * (180 / PI)], [abs] is [Rabs],
      the two-argument [min]/[max] are [Rmin]/[Rmax].
    - Comparisons of floats are the booleans [Rltb], [Rleb], [Reqb].
    - [Line], [TextEntity] and [ArrowLeader] define neither [__eq__] nor
      [__hash__]: Python compares and hashes them by object identity.  A
      [Line] therefore carries its identity in the field [obj]; texts and
      leaders live in lists (the store) and are referred to by position.
    - Indices into [lines], [line_lengths] and [meeting_lines] always come
      from [enumerate] over [lines]; the subscript [l[i]] is the total
      lookup [l !!! i], whose default is never reached
      ([meeting_pass_elem]).
    - The identifiers ARW001, A001, ... are kept as their numbers.
    - [print] calls and the progress counters that only feed them are
      left out.
    - A DXF entity is seen through the attributes that the code reads from
      it; these are the variables of the sections [Entities] and
      [Extraction].  Loading the file and writing the report are not
      modelled. *)

From Stdlib Require Import Reals Lra Lia String Ascii ZArith.
From stdpp Require Import base list gmap strings pretty.

Open Scope R_scope.

(** ** Float comparisons *)

Definition Rltb (a b : R) : bool := if Rlt_dec a b then true else false.
Definition Rleb (a b : R) : bool := if Rle_dec a b then true else false.
Definition Reqb (a b : R) : bool := if Req_dec_T a b then true else false.

(** [math.degrees] *)
Definition degrees (r : R) : R := r * (180 / PI).

#[global] Instance R_inhabited : Inhabited R := populate 0.

(** ** Data classes *)

Record Point := mkPoint { x : R; y : R }.

Record Line := mkLine {
  obj : nat;                    (* object identity *)
  start_point : Point;
  end_point : Point;
  handle : option string;
  layer : option string;
  color : option Z;
  lineweight : option Z;
  linetype : option string;
  line_id : option string       (* the attribute [id] *)
}.

(** [Line(start, end)] with every keyword argument at its default [None];
    [o] is the identity of the new object. *)
Definition Line_init (o : nat) (s e : Point) : Line :=
  mkLine o s e None None None None None None.

#[global] Instance Line_inhabited : Inhabited Line :=
  populate (Line_init 0 (mkPoint 0 0) (mkPoint 0 0)).

(** The literals ['start'], ['end'] and ['both'] that the code compares
    [Arrow.direction] and the endpoint tags against. *)
Inductive Direction := DStart | DEnd | DBoth.

#[global] Instance Direction_eq_dec : EqDecision Direction.
Proof. solve_decision. Defined.

Record Arrow := mkArrow {
  shaft : Line;
  left_barb : Line;
  right_barb : Line;
  tip_point : Point;
  direction : Direction;
  arrow_id : option nat         (* [n] stands for the string ARW00n *)
}.

(** Styling attributes of a text (colour, style, height, ...) are carried
    for the report only and are not part of the model. *)
Record TextEntity := mkText {
  text_handle : string;
  content : string;
  position : Point;
  text_layer : string;
  entity_type : string;
  matched_arrows : list nat     (* leaders, by position in the leader list *)
}.

Record ArrowLeader := mkLeader {
  arrow : Arrow;
  leader_position : Point;
  line_chain : list Line;
  matched_text : option nat;    (* a text, by position in the text list *)
  matched_boundaries : list Line;
  leader_id : option nat        (* [n] stands for the string A00n *)
}.

(** ** Configuration *)

Record ArrowDetectionConfig := mkArrowCfg {
  tip_point_tolerance : R;
  barb_length_diff_max : R;
  arrow_angle_max : R;
  barb_angle_diff_max : R
}.

Record LeaderArrowMatchingConfig := mkTextCfg { max_distance : R }.

Record LeaderBoundaryMatchingConfig := mkBoundaryCfg {
  max_distance_to_arrow : R;
  perpendicular_angle_min : R;
  perpendicular_angle_max : R
}.

Record Config := mkConfig {
  ARROW_DETECTION : ArrowDetectionConfig;
  LEADER_ARROW_MATCHING : LeaderArrowMatchingConfig;
  LEADER_BOUNDARY_MATCHING : LeaderBoundaryMatchingConfig
}.

Definition CONFIG : Config :=
  mkConfig (mkArrowCfg (1/10) (2/10) 75 (5/10))
           (mkTextCfg 10)
           (mkBoundaryCfg 5 (895/10) (905/10)).

(** ** Utility functions *)

(** [length(line)] *)
Definition line_length (line : Line) : R :=
  let dx := x (end_point line) - x (start_point line) in
  let dy := y (end_point line) - y (start_point line) in
  sqrt (dx * dx + dy * dy).

Definition distance (point1 point2 : Point) : R :=
  let dx := x point2 - x point1 in
  let dy := y point2 - y point1 in
  sqrt (dx * dx + dy * dy).

Definition direction_vector (line : Line) : R * R :=
  (x (end_point line) - x (start_point line),
   y (end_point line) - y (start_point line)).

Definition dot_product (v1 v2 : R * R) : R :=
  fst v1 * fst v2 + snd v1 * snd v2.

(** The clamp [max(-1.0, min(1.0, c))]. *)
Definition clamp (c : R) : R := Rmax (-1) (Rmin 1 c).

Definition angle_between (line1 line2 : Line) : R :=
  let v1 := direction_vector line1 in
  let v2 := direction_vector line2 in
  let dot := dot_product v1 v2 in
  let mag1 := sqrt (fst v1 ^ 2 + snd v1 ^ 2) in
  let mag2 := sqrt (fst v2 ^ 2 + snd v2 ^ 2) in
  if Reqb mag1 0 || Reqb mag2 0 then 0
  else
    let cos_angle := dot / (mag1 * mag2) in
    let cos_angle := clamp cos_angle in
    let angle_rad := acos cos_angle in
    degrees angle_rad.

Definition are_lines_parallel (line1 line2 : Line) (angle_threshold : R) : bool :=
  let angle := angle_between line1 line2 in
  Rltb angle angle_threshold || Rltb (180 - angle_threshold) angle.

Definition get_leader_position (arrow_line : Line) (arrow_location : Direction) : Point :=
  match arrow_location with
  | DEnd => start_point arrow_line
  | DStart => end_point arrow_line
  | DBoth =>
      let mid_x := (x (start_point arrow_line) + x (end_point arrow_line)) / 2 in
      let mid_y := (y (start_point arrow_line) + y (end_point arrow_line)) / 2 in
      mkPoint mid_x mid_y
  end.

(** *** [angle_between] with the operations that can raise

    The same function with [**], [math.sqrt], [/] and [math.acos] as
    Python has them: [**] raises [OverflowError] when the result is out of
    the range of floats, [math.sqrt] and [math.acos] raise [ValueError]
    outside their domain, [/] raises [ZeroDivisionError] on a zero
    divisor. *)

Inductive PyError := ValueError | ZeroDivisionError | OverflowError.

Inductive result (A : Type) := Ok (a : A) | Raise (e : PyError).
Arguments Ok {A} a.
Arguments Raise {A} e.

#[global] Instance result_bind : MBind result := fun A B k m =>
  match m with Ok a => k a | Raise e => Raise e end.

(** The largest float, [sys.float_info.max]. *)
Definition float_max : R := IZR (2 ^ 1024 - 2 ^ 971)%Z.

(** [v ** 2]: the square of a finite float raises when it is beyond the
    largest float (no float has its square between the largest float and
    the point where rounding goes to infinity).  A difference of
    coordinates beyond the largest float is the float [inf], whose square
    is [inf] without an error. *)
Definition py_pow2 (v : R) : result R :=
  if Rleb (Rabs v) float_max && Rltb float_max (v ^ 2)
  then Raise OverflowError
  else Ok (v ^ 2).

Definition math_sqrt (v : R) : result R :=
  if Rltb v 0 then Raise ValueError else Ok (sqrt v).

Definition math_acos (v : R) : result R :=
  if Rleb (-1) v && Rleb v 1 then Ok (acos v) else Raise ValueError.

Definition py_div (a b : R) : result R :=
  if Reqb b 0 then Raise ZeroDivisionError else Ok (a / b).

Definition angle_between_checked (line1 line2 : Line) : result R :=
  let v1 := direction_vector line1 in
  let v2 := direction_vector line2 in
  let dot := dot_product v1 v2 in
  a1 ← py_pow2 (fst v1);
  b1 ← py_pow2 (snd v1);
  mag1 ← math_sqrt (a1 + b1);
  a2 ← py_pow2 (fst v2);
  b2 ← py_pow2 (snd v2);
  mag2 ← math_sqrt (a2 + b2);
  if Reqb mag1 0 || Reqb mag2 0 then Ok 0
  else
    cos_angle ← py_div dot (mag1 * mag2);
    let cos_angle := clamp cos_angle in
    angle_rad ← math_acos cos_angle;
    Ok (degrees angle_rad).

(** The squares of the two components of the direction vector are within
    the range of floats. *)
Definition squares_in_range (line : Line) : Prop :=
  fst (direction_vector line) ^ 2 <= float_max
  /\ snd (direction_vector line) ^ 2 <= float_max.

(** ** Arrow detection *)

(** [enumerate(l)]: the elements of [l] with their indices. *)
Definition enumerate {A} (l : list A) : list (nat * A) := imap pair l.

(** One entry of [meeting_lines]: the dictionary with the two keys
    ['start'] and ['end'], each a list of [(index, endpoint tag)]. *)
Record MeetingRec := mkMeeting {
  ml_start : list (nat * Direction);
  ml_end : list (nat * Direction)
}.

#[global] Instance MeetingRec_inhabited : Inhabited MeetingRec :=
  populate (mkMeeting [] []).

(** [min(l, key=lambda x: x[0])] on a list with first element [d0]: the
    first element with the least key. *)
Definition min_by_key (d0 : R * Direction * Direction)
    (rest : list (R * Direction * Direction)) : R * Direction * Direction :=
  fold_left (fun best c => if Rltb (fst (fst c)) (fst (fst best)) then c else best)
            rest d0.

(** The minimum over the list [distances] of the four endpoint pairs. The
    suffixes of the tags ['i_start'], ['i_end'], ['j_start'], ['j_end']
    are kept as [DStart] and [DEnd]. *)
Definition closest_endpoints (line_i line_j : Line) : R * Direction * Direction :=
  min_by_key (distance (start_point line_i) (start_point line_j), DStart, DStart)
    [ (distance (start_point line_i) (end_point line_j), DStart, DEnd);
      (distance (end_point line_i) (start_point line_j), DEnd, DStart);
      (distance (end_point line_i) (end_point line_j), DEnd, DEnd) ].

(** Body of the inner loop of the second pass, for the pair [(i, j)]. *)
Definition meeting_step (tip_tolerance : R) (line_lengths : list R)
    (i : nat) (line_i : Line) (ml : MeetingRec) (jl : nat * Line) : MeetingRec :=
  let '(j, line_j) := jl in
  if Nat.eqb i j then ml
  else
    let line_i_length := line_lengths !!! i in
    let line_j_length := line_lengths !!! j in
    if Rleb line_i_length line_j_length then ml
    else if are_lines_parallel line_i line_j 5 then ml
    else
      let '(min_dist, i_point, j_point) := closest_endpoints line_i line_j in
      if Rleb min_dist tip_tolerance then
        match i_point with
        | DStart => mkMeeting (ml_start ml ++ [(j, j_point)]) (ml_end ml)
        | _ => mkMeeting (ml_start ml) (ml_end ml ++ [(j, j_point)])
        end
      else ml.

(** Second pass: entry [i] of the result is [meeting_lines[i]] after the
    loops; iteration [i] of the outer loop appends to that entry only. *)
Definition meeting_pass (lines : list Line) (line_lengths : list R)
    (tip_tolerance : R) : list MeetingRec :=
  map (fun il : nat * Line =>
         fold_left (meeting_step tip_tolerance line_lengths (fst il) (snd il))
                   (enumerate lines) (mkMeeting [] []))
      (enumerate lines).

(** The tests of [check_symmetrical_lines] on one candidate pair; [false]
    stands for [continue]. *)
Definition barb_pair_ok (shaft_line : Line) (lines : list Line)
    (line_lengths : list R) (used_barbs : gset nat)
    (arrow_config : ArrowDetectionConfig) (line_j_idx line_k_idx : nat) : bool :=
  if bool_decide (line_j_idx ∈ used_barbs) || bool_decide (line_k_idx ∈ used_barbs)
  then false
  else
    let line_j := lines !!! line_j_idx in
    let line_k := lines !!! line_k_idx in
    let barb_j_length := line_lengths !!! line_j_idx in
    let barb_k_length := line_lengths !!! line_k_idx in
    let length_diff := Rabs (barb_j_length - barb_k_length) in
    if Rltb (barb_length_diff_max arrow_config) length_diff then false
    else
      let angle_j := angle_between shaft_line line_j in
      let angle_k := angle_between shaft_line line_k in
      if Rltb (arrow_angle_max arrow_config) angle_j
         || Rltb (arrow_angle_max arrow_config) angle_k then false
      else
        let angle_diff := Rabs (angle_j - angle_k) in
        if Rltb (barb_angle_diff_max arrow_config) angle_diff then false
        else true.

Section CheckSymmetricalLines.
Variables (shaft_line : Line) (lines : list Line) (line_lengths : list R)
          (used_barbs : gset nat) (arrow_config : ArrowDetectionConfig).

(** Inner loop: [idx2] runs over the entries after position [idx1]. *)
Fixpoint first_partner (line_j_idx : nat) (rest : list (nat * Direction))
    : option (nat * nat) :=
  match rest with
  | [] => None
  | (line_k_idx, _) :: rest' =>
      if barb_pair_ok shaft_line lines line_lengths used_barbs arrow_config
                      line_j_idx line_k_idx
      then Some (line_j_idx, line_k_idx)
      else first_partner line_j_idx rest'
  end.

(** Outer loop: [idx1] runs over the positions in ascending order. *)
Fixpoint first_pair (meeting_line_indices : list (nat * Direction))
    : option (nat * nat) :=
  match meeting_line_indices with
  | [] => None
  | (line_j_idx, _) :: rest =>
      match first_partner line_j_idx rest with
      | Some r => Some r
      | None => first_pair rest
      end
  end.

Definition check_symmetrical_lines (meeting_line_indices : list (nat * Direction))
    : option (nat * nat) :=
  if Nat.ltb (length meeting_line_indices) 2 then None
  else first_pair meeting_line_indices.
End CheckSymmetricalLines.

(** One endpoint of one candidate shaft in the third pass (the source
    writes this block twice, for the start point and for the end point).
    The state is the list [arrows] and the set [used_barbs]. *)
Definition check_endpoint (lines : list Line) (line_lengths : list R)
    (arrow_config : ArrowDetectionConfig) (line_i : Line)
    (meeting : list (nat * Direction)) (tip : Point) (dir : Direction)
    (st : list Arrow * gset nat) : list Arrow * gset nat :=
  let '(arrows, used_barbs) := st in
  if Nat.leb 2 (length meeting) then
    match check_symmetrical_lines line_i lines line_lengths used_barbs
                                  arrow_config meeting with
    | Some (barb1_idx, barb2_idx) =>
        (arrows ++ [mkArrow line_i (lines !!! barb1_idx) (lines !!! barb2_idx)
                            tip dir None],
         used_barbs ∪ {[barb1_idx]} ∪ {[barb2_idx]})
    | None => st
    end
  else st.

(** Body of the loop of the third pass. *)
Definition symmetry_step (lines : list Line) (line_lengths : list R)
    (meeting_lines : list MeetingRec) (arrow_config : ArrowDetectionConfig)
    (st : list Arrow * gset nat) (il : nat * Line) : list Arrow * gset nat :=
  let '(i, line_i) := il in
  let st := check_endpoint lines line_lengths arrow_config line_i
              (ml_start (meeting_lines !!! i)) (start_point line_i) DStart st in
  check_endpoint lines line_lengths arrow_config line_i
    (ml_end (meeting_lines !!! i)) (end_point line_i) DEnd st.

Definition symmetry_pass (lines : list Line) (line_lengths : list R)
    (meeting_lines : list MeetingRec) (arrow_config : ArrowDetectionConfig)
    : list Arrow * gset nat :=
  fold_left (symmetry_step lines line_lengths meeting_lines arrow_config)
            (enumerate lines) ([], ∅).

Definition set_arrow_id (n : nat) (a : Arrow) : Arrow :=
  mkArrow (shaft a) (left_barb a) (right_barb a) (tip_point a) (direction a)
          (Some (S n)).

Definition detect_arrows_in_drawing (lines : list Line) (config : Config) : list Arrow :=
  let arrow_config := ARROW_DETECTION config in
  let tip_tolerance := tip_point_tolerance arrow_config in
  let line_lengths := map line_length lines in
  let meeting_lines := meeting_pass lines line_lengths tip_tolerance in
  let arrows := fst (symmetry_pass lines line_lengths meeting_lines arrow_config) in
  imap set_arrow_id arrows.

(** ** Leader assembly *)

Definition set_leader_id (n : nat) (l : ArrowLeader) : ArrowLeader :=
  mkLeader (arrow l) (leader_position l) (line_chain l) (matched_text l)
           (matched_boundaries l) (Some (S n)).

Definition create_arrow_leaders (arrows : list Arrow) : list ArrowLeader :=
  let arrow_leaders :=
    map (fun arrow =>
           let leader_pos := get_leader_position (shaft arrow) (direction arrow) in
           mkLeader arrow leader_pos [shaft arrow] None [] None)
        arrows in
  imap set_leader_id arrow_leaders.

(** ** Text matching *)

(** [min_dist] starts at [float('inf')]. *)
Inductive efloat := Finite (r : R) | Infinity.

Definition lt_efloat (d : R) (m : efloat) : bool :=
  match m with Finite r => Rltb d r | Infinity => true end.

(** Body of the loop over [texts]; [closest_text] is kept as the position
    of the text in [texts]. *)
Definition closest_step (max_distance : R) (pos : Point)
    (st : efloat * option nat) (it : nat * TextEntity) : efloat * option nat :=
  let '(min_dist, closest_text) := st in
  let dist := distance pos (position (snd it)) in
  if Rltb dist max_distance && lt_efloat dist min_dist
  then (Finite dist, Some (fst it))
  else st.

Definition find_closest_text (max_distance : R) (pos : Point)
    (texts : list TextEntity) : option nat :=
  snd (fold_left (closest_step max_distance pos) (enumerate texts) (Infinity, None)).

Definition set_matched_text (t : nat) (l : ArrowLeader) : ArrowLeader :=
  mkLeader (arrow l) (leader_position l) (line_chain l) (Some t)
           (matched_boundaries l) (leader_id l).

Definition add_matched_arrow (n : nat) (t : TextEntity) : TextEntity :=
  mkText (text_handle t) (content t) (position t) (text_layer t) (entity_type t)
         (matched_arrows t ++ [n]).

(** The loop over [arrow_leaders]; [n] is the position of the current
    leader, [texts] the current state of the text objects. *)
Fixpoint match_loop (max_distance : R) (n : nat) (arrow_leaders : list ArrowLeader)
    (texts : list TextEntity) : list ArrowLeader * list TextEntity :=
  match arrow_leaders with
  | [] => ([], texts)
  | leader :: rest =>
      match find_closest_text max_distance (leader_position leader) texts with
      | Some t =>
          let '(rest', texts') :=
            match_loop max_distance (S n) rest (alter (add_matched_arrow n) t texts) in
          (set_matched_text t leader :: rest', texts')
      | None =>
          let '(rest', texts') := match_loop max_distance (S n) rest texts in
          (leader :: rest', texts')
      end
  end.

(** Returns the leaders and the texts as the call leaves them. *)
Definition match_texts_to_arrows (arrow_leaders : list ArrowLeader)
    (texts : list TextEntity) (config : Config)
    : list ArrowLeader * list TextEntity :=
  match_loop (max_distance (LEADER_ARROW_MATCHING config)) 0 arrow_leaders texts.

(** ** Boundary line detection *)

(** The set [arrow_lines] of the lines used by some arrow. *)
Definition arrow_lines_of (arrow_leaders : list ArrowLeader) : gset nat :=
  fold_left (fun s leader =>
               s ∪ {[obj (shaft (arrow leader))]}
                 ∪ {[obj (left_barb (arrow leader))]}
                 ∪ {[obj (right_barb (arrow leader))]})
            arrow_leaders ∅.

(** Body of the loop over [lines] for one leader; the state is the
    leader's [matched_boundaries] and the list [boundary_lines]. *)
Definition boundary_step (boundary_config : LeaderBoundaryMatchingConfig)
    (arrow_lines : gset nat) (arrow_tip : Point) (arrow_shaft : Line)
    (st : list Line * list Line) (line : Line) : list Line * list Line :=
  let '(matched, boundary_lines) := st in
  if bool_decide (obj line ∈ arrow_lines) then st
  else
    let dist_to_start := distance arrow_tip (start_point line) in
    let dist_to_end := distance arrow_tip (end_point line) in
    let min_dist_to_line := Rmin dist_to_start dist_to_end in
    if Rltb (max_distance_to_arrow boundary_config) min_dist_to_line then st
    else
      let angle := angle_between arrow_shaft line in
      if Rleb (perpendicular_angle_min boundary_config) angle
         && Rleb angle (perpendicular_angle_max boundary_config)
      then (matched ++ [line], boundary_lines ++ [line])
      else st.

Definition set_matched_boundaries (m : list Line) (l : ArrowLeader) : ArrowLeader :=
  mkLeader (arrow l) (leader_position l) (line_chain l) (matched_text l) m
           (leader_id l).

Fixpoint boundary_loop (boundary_config : LeaderBoundaryMatchingConfig)
    (arrow_lines : gset nat) (lines : list Line)
    (arrow_leaders : list ArrowLeader) (boundary_lines : list Line)
    : list ArrowLeader * list Line :=
  match arrow_leaders with
  | [] => ([], boundary_lines)
  | leader :: rest =>
      let '(matched, boundary_lines) :=
        fold_left (boundary_step boundary_config arrow_lines
                     (tip_point (arrow leader)) (shaft (arrow leader)))
                  lines (matched_boundaries leader, boundary_lines) in
      let '(rest', boundary_lines) :=
        boundary_loop boundary_config arrow_lines lines rest boundary_lines in
      (set_matched_boundaries matched leader :: rest', boundary_lines)
  end.

(** Returns the leaders as the call leaves them and the list
    [boundary_lines]. *)
Definition detect_boundary_lines (arrow_leaders : list ArrowLeader)
    (lines : list Line) (config : Config) : list ArrowLeader * list Line :=
  boundary_loop (LEADER_BOUNDARY_MATCHING config) (arrow_lines_of arrow_leaders)
                lines arrow_leaders [].

(** ** Notions used to state the properties *)

(** The endpoint of a line that a tag names. *)
Definition endpoint (tag : Direction) (line : Line) : Point :=
  match tag with DStart => start_point line | _ => end_point line end.

(** The list of [meeting_lines[i]] that a tag names. *)
Definition ml_get (tag : Direction) (ml : MeetingRec) : list (nat * Direction) :=
  match tag with DStart => ml_start ml | _ => ml_end ml end.

(** The condition under which the second pass records segment [j], with
    tag [j_point], at endpoint [i_point] of segment [i]. *)
Definition meeting_entry (tip_tolerance : R) (line_lengths : list R)
    (i : nat) (line_i : Line) (j : nat) (line_j : Line)
    (i_point j_point : Direction) : Prop :=
  i <> j
  /\ line_lengths !!! j < line_lengths !!! i
  /\ are_lines_parallel line_i line_j 5 = false
  /\ exists min_dist, closest_endpoints line_i line_j = (min_dist, i_point, j_point)
                      /\ min_dist <= tip_tolerance.

(** The positions in [lines] of the three segments of an arrow, and the
    endpoint of the shaft at which it was found. *)
Record ArrowIdx := mkArrowIdx {
  ai_shaft : nat;
  ai_left : nat;
  ai_right : nat;
  ai_dir : Direction
}.

Definition barb_indices (ts : list ArrowIdx) : list nat :=
  flat_map (fun t => [ai_left t; ai_right t]) ts.

(** Arrow [a] is built from the segments at the positions [t] of [lines],
    and these segments passed the tests of the second and third pass. *)
Definition arrow_found (lines : list Line) (arrow_config : ArrowDetectionConfig)
    (t : ArrowIdx) (a : Arrow) : Prop :=
  let line_lengths := map line_length lines in
  let tol := tip_point_tolerance arrow_config in
  lines !! ai_shaft t = Some (shaft a)
  /\ lines !! ai_left t = Some (left_barb a)
  /\ lines !! ai_right t = Some (right_barb a)
  /\ direction a = ai_dir t
  /\ (ai_dir t = DStart \/ ai_dir t = DEnd)
  /\ tip_point a = endpoint (ai_dir t) (shaft a)
  /\ ai_left t <> ai_right t
  /\ (exists j_point, meeting_entry tol line_lengths (ai_shaft t) (shaft a)
                        (ai_left t) (left_barb a) (ai_dir t) j_point)
  /\ (exists k_point, meeting_entry tol line_lengths (ai_shaft t) (shaft a)
                        (ai_right t) (right_barb a) (ai_dir t) k_point)
  /\ Rabs (line_length (left_barb a) - line_length (right_barb a))
     <= barb_length_diff_max arrow_config
  /\ angle_between (shaft a) (left_barb a) <= arrow_angle_max arrow_config
  /\ angle_between (shaft a) (right_barb a) <= arrow_angle_max arrow_config
  /\ Rabs (angle_between (shaft a) (left_barb a)
           - angle_between (shaft a) (right_barb a))
     <= barb_angle_diff_max arrow_config.

(** The state of the third pass: [arrows] are the arrows found at the
    positions [ts], and [used_barbs] holds exactly their barbs. *)
Definition detection_state (lines : list Line) (arrow_config : ArrowDetectionConfig)
    (ts : list ArrowIdx) (arrows : list Arrow) (used_barbs : gset nat) : Prop :=
  Forall2 (arrow_found lines arrow_config) ts arrows
  /\ (forall n, n ∈ used_barbs <-> n ∈ barb_indices ts)
  /\ NoDup (barb_indices ts)
  /\ NoDup (map (fun t => (ai_shaft t, ai_dir t)) ts).

(** The three tests of [detect_boundary_lines] on one candidate line,
    for a leader with the given tip and shaft. *)
Definition boundary_test (boundary_config : LeaderBoundaryMatchingConfig)
    (arrow_lines : gset nat) (arrow_tip : Point) (arrow_shaft : Line)
    (line : Line) : bool :=
  negb (bool_decide (obj line ∈ arrow_lines))
  && negb (Rltb (max_distance_to_arrow boundary_config)
                (Rmin (distance arrow_tip (start_point line))
                      (distance arrow_tip (end_point line))))
  && (Rleb (perpendicular_angle_min boundary_config)
           (angle_between arrow_shaft line)
      && Rleb (angle_between arrow_shaft line)
              (perpendicular_angle_max boundary_config)).

(** The lines that one leader gains in [detect_boundary_lines]. *)
Definition boundaries_of (boundary_config : LeaderBoundaryMatchingConfig)
    (arrow_lines : gset nat) (lines : list Line) (a : Arrow) : list Line :=
  List.filter (boundary_test boundary_config arrow_lines (tip_point a) (shaft a))
              lines.

(** What the loop over [texts] has established after the entries [seen]:
    nothing within the cutoff so far, or the first nearest text among
    those within the cutoff. *)
Definition closest_ok (max_distance : R) (pos : Point)
    (seen : list (nat * TextEntity)) (st : efloat * option nat) : Prop :=
  match snd st with
  | None =>
      fst st = Infinity
      /\ forall t' text', (t', text') ∈ seen ->
           max_distance <= distance pos (position text')
  | Some t =>
      exists text s1 s2,
        seen = s1 ++ (t, text) :: s2
        /\ fst st = Finite (distance pos (position text))
        /\ distance pos (position text) < max_distance
        /\ (forall t' text', (t', text') ∈ s1 ->
              distance pos (position text') < max_distance ->
              distance pos (position text) < distance pos (position text'))
        /\ (forall t' text', (t', text') ∈ s2 ->
              distance pos (position text') < max_distance ->
              distance pos (position text) <= distance pos (position text'))
  end.

(** ** Example drawings *)

(** The arrow of the specification: a shaft from (10,0) to (0,0) and two
    barbs from (0,0) to (-2,1) and to (-2,-1). *)
Definition spec_shaft : Line := Line_init 0 (mkPoint 10 0) (mkPoint 0 0).
Definition spec_barb1 : Line := Line_init 1 (mkPoint 0 0) (mkPoint (-2) 1).
Definition spec_barb2 : Line := Line_init 2 (mkPoint 0 0) (mkPoint (-2) (-1)).
Definition spec_lines : list Line := [spec_shaft; spec_barb1; spec_barb2].

(** A dimension line with an arrow head at both ends, one of whose barbs
    carries a smaller arrow head of its own. *)
Definition dim_shaft : Line := Line_init 0 (mkPoint 0 0) (mkPoint 10 0).
Definition dim_b1 : Line := Line_init 1 (mkPoint 0 0) (mkPoint 1 1).
Definition dim_b2 : Line := Line_init 2 (mkPoint 0 0) (mkPoint 1 (-1)).
Definition dim_b3 : Line := Line_init 3 (mkPoint 10 0) (mkPoint 11 1).
Definition dim_b4 : Line := Line_init 4 (mkPoint 10 0) (mkPoint 11 (-1)).
Definition dim_f1 : Line := Line_init 5 (mkPoint 1 1) (mkPoint (3 / 2) 1).
Definition dim_f2 : Line := Line_init 6 (mkPoint 1 1) (mkPoint 1 (3 / 2)).
Definition dim_lines : list Line :=
  [dim_shaft; dim_b1; dim_b2; dim_b3; dim_b4; dim_f1; dim_f2].

(** Every position in which a segment is used by a list of arrows. *)
Definition arrow_roles (arrows : list Arrow) : list nat :=
  flat_map (fun a => [obj (shaft a); obj (left_barb a); obj (right_barb a)]) arrows.

(** A text label at a given position, with no leader matched yet. *)
Definition label_at (p : Point) : TextEntity :=
  mkText "2F"%string "R5"%string p "0"%string "TEXT"%string [].

(** The arrow found in [spec_lines], and the leaders made from it and from
    the arrows found in [dim_lines]. *)
Definition spec_arrow : Arrow :=
  mkArrow spec_shaft spec_barb1 spec_barb2 (mkPoint 0 0) DEnd (Some 1%nat).

Definition spec_leaders : list ArrowLeader := create_arrow_leaders [spec_arrow].

Definition dim_leaders : list ArrowLeader :=
  create_arrow_leaders
    [mkArrow dim_shaft dim_b1 dim_b2 (mkPoint 0 0) DStart (Some 1%nat);
     mkArrow dim_shaft dim_b3 dim_b4 (mkPoint 10 0) DEnd (Some 2%nat);
     mkArrow dim_b1 dim_f1 dim_f2 (mkPoint 1 1) DEnd (Some 3%nat)].


(** * The rest of [chk_demension.py] *)

(** ** LEADER and POLYLINE entities *)

#[global] Instance Point_inhabited : Inhabited Point := populate (mkPoint 0 0).

Module LeaderEntity.

Record t := mk {
  handle : string;
  layer : string;
  vertices : list Point;
  has_arrowhead : bool;
  color : option Z;
  linetype : option string;
  matched_text : option nat;
  id : option string
}.

(** [self.vertices[0] if self.vertices else None] *)
Definition get_arrow_point (self : t) : option Point :=
  match vertices self with
  | [] => None
  | _ => Some (vertices self !!! 0%nat)
  end.

(** [self.vertices[-1] if self.vertices else None] *)
Definition get_text_point (self : t) : option Point :=
  match vertices self with
  | [] => None
  | _ => Some (vertices self !!! (length (vertices self) - 1)%nat)
  end.

End LeaderEntity.

Module PolylineEntity.

Record t := mk {
  handle : string;
  layer : string;
  vertices : list Point;
  is_closed : bool;
  entity_type : string;
  color : option Z;
  lineweight : option R;        (* an integer, or the float [const_width] *)
  linetype : option string;
  id : option string
}.

Definition get_segment_count (self : t) : nat :=
  if Nat.ltb (length (vertices self)) 2 then 0%nat
  else
    let count := (length (vertices self) - 1)%nat in
    if is_closed self then (count + 1)%nat else count.

Definition get_total_length (self : t) : R :=
  if Nat.ltb (length (vertices self)) 2 then 0
  else
    let total :=
      fold_left (fun total i =>
                   total + distance (vertices self !!! i) (vertices self !!! (i + 1)%nat))
                (seq 0 (length (vertices self) - 1)) 0 in
    if is_closed self
    then total + distance (vertices self !!! (length (vertices self) - 1)%nat)
                          (vertices self !!! 0%nat)
    else total.

End PolylineEntity.

(** ** Layers and entity types *)

(** A DXF entity as [extract_layers] and [classify_entities] see it:
    through [entity.dxftype()] and [entity.dxf.layer] only. *)
Section Entities.
Context {Entity : Type}.
Variables (dxftype : Entity -> string) (dxf_layer : Entity -> string).

(** One value of the dictionary [layers]. *)
Record LayerInfo := mkLayerInfo {
  entity_count : nat;
  entity_types : gset string
}.

(** [msp] is the model space, iterated in order. *)
Definition extract_layers (msp : list Entity) : gmap string LayerInfo :=
  fold_left
    (fun layers entity =>
       let layer_name := dxf_layer entity in
       let layers :=
         match layers !! layer_name with
         | None => <[layer_name := mkLayerInfo 0 ∅]> layers
         | Some _ => layers
         end in
       alter (fun info => mkLayerInfo (entity_count info + 1)
                                      (entity_types info ∪ {[dxftype entity]}))
             layer_name layers)
    msp ∅.

(** [entities] is a [defaultdict(list)]: a missing key reads as the empty
    list. *)
Definition classify_entities (msp : list Entity) : gmap string (list Entity) :=
  fold_left
    (fun entities entity =>
       let entity_type := dxftype entity in
       <[entity_type := default [] (entities !! entity_type) ++ [entity]]> entities)
    msp ∅.

End Entities.

(** ** Extraction of lines, texts, leaders and polylines *)

Fixpoint zeros (n : nat) : string :=
  match n with
  | O => EmptyString
  | S n => String "0"%char (zeros n)
  end.

(** The format [{idx:0<width>d}] of an f-string, for an index. *)
Definition format_0d (width idx : nat) : string :=
  zeros (width - String.length (pretty idx)) +:+ pretty idx.

(** The entities are seen through the attributes that the extraction
    reads.  Reading a coordinate, a handle or a layer yields a value;
    [getattr(entity.dxf, name, None)] yields a value or [None]. *)
Section Extraction.
Context {Entity : Type}.
Variables (dxf_handle dxf_layer : Entity -> string)
          (dxf_start dxf_end dxf_insert : Entity -> Point)
          (dxf_color dxf_lineweight : Entity -> option Z)
          (dxf_const_width : Entity -> option R)
          (dxf_linetype : Entity -> option string)
          (dxf_text mtext_text : Entity -> string)
          (leader_vertices polyline_locations lwpolyline_points
             : Entity -> list Point)
          (dxf_has_arrowhead polyline_is_closed lwpolyline_closed : Entity -> bool).

(** [entities.get(key, [])] *)
Definition entities_get (entities : gmap string (list Entity)) (key : string)
    : list Entity :=
  default [] (entities !! key).

(** Every iteration makes a new [Line] object: the object made in
    iteration [idx] has the identity [idx]. *)
Definition extract_lines (entities : gmap string (list Entity)) : list Line :=
  map (fun '(idx, entity) =>
         mkLine idx (dxf_start entity) (dxf_end entity)
                (Some (dxf_handle entity)) (Some (dxf_layer entity))
                (dxf_color entity) (dxf_lineweight entity) (dxf_linetype entity)
                (Some ("L" +:+ format_0d 4 idx)))
      (enumerate (entities_get entities "LINE")).

Definition extract_texts (entities : gmap string (list Entity)) : list TextEntity :=
  let texts :=
    fold_left (fun texts entity =>
                 texts ++ [mkText (dxf_handle entity) (dxf_text entity)
                                  (dxf_insert entity) (dxf_layer entity) "TEXT" []])
              (entities_get entities "TEXT") [] in
  fold_left (fun texts entity =>
               texts ++ [mkText (dxf_handle entity) (mtext_text entity)
                                (dxf_insert entity) (dxf_layer entity) "MTEXT" []])
            (entities_get entities "MTEXT") texts.

Definition extract_leaders (entities : gmap string (list Entity))
    : list LeaderEntity.t :=
  map (fun '(idx, entity) =>
         LeaderEntity.mk (dxf_handle entity) (dxf_layer entity)
                         (leader_vertices entity) (dxf_has_arrowhead entity)
                         (dxf_color entity) (dxf_linetype entity) None
                         (Some ("LD" +:+ format_0d 3 idx)))
      (enumerate (entities_get entities "LEADER")).

(** The counter [idx] runs on from the first loop into the second. *)
Definition extract_polylines (entities : gmap string (list Entity))
    : list PolylineEntity.t :=
  let st :=
    fold_left (fun (st : list PolylineEntity.t * nat) entity =>
                 let '(polylines, idx) := st in
                 (polylines
                    ++ [PolylineEntity.mk (dxf_handle entity) (dxf_layer entity)
                          (polyline_locations entity) (polyline_is_closed entity)
                          "POLYLINE" (dxf_color entity) (IZR <$> dxf_lineweight entity)
                          (dxf_linetype entity) (Some ("PL" +:+ format_0d 4 idx))],
                  S idx))
              (entities_get entities "POLYLINE") ([], 0%nat) in
  let st :=
    fold_left (fun (st : list PolylineEntity.t * nat) entity =>
                 let '(polylines, idx) := st in
                 (polylines
                    ++ [PolylineEntity.mk (dxf_handle entity) (dxf_layer entity)
                          (lwpolyline_points entity) (lwpolyline_closed entity)
                          "LWPOLYLINE" (dxf_color entity) (dxf_const_width entity)
                          (dxf_linetype entity) (Some ("PL" +:+ format_0d 4 idx))],
                  S idx))
              (entities_get entities "LWPOLYLINE") st in
  fst st.

End Extraction.

(** ** The figures of the report *)

(** Sections 6 and 7 of [generate_report]; the text written to the file is
    not modelled.  A list is false when empty, a [TextEntity] is always
    true. *)
Definition unmatched_texts (texts : list TextEntity) : list TextEntity :=
  List.filter (fun t => match matched_arrows t with [] => true | _ => false end) texts.

Definition unmatched_leaders (arrow_leaders : list ArrowLeader) : list ArrowLeader :=
  List.filter (fun l => match matched_text l with None => true | _ => false end)
              arrow_leaders.

Definition leaders_without_boundaries (arrow_leaders : list ArrowLeader)
    : list ArrowLeader :=
  List.filter (fun l => match matched_boundaries l with [] => true | _ => false end)
              arrow_leaders.

Definition matched_count (arrow_leaders : list ArrowLeader) : nat :=
  length (List.filter
            (fun l => match matched_text l with Some _ => true | None => false end)
            arrow_leaders).

(** [None] when the line with the rate is not written. *)
Definition match_rate (arrow_leaders : list ArrowLeader) : option R :=
  if Nat.ltb 0 (length arrow_leaders)
  then Some (INR (matched_count arrow_leaders) / INR (length arrow_leaders) * 100)
  else None.

(** ** The analysis steps of [main] *)

Definition ON_DETECT_EX_LEADERS : bool := false.

(** Steps 51 to 54 of [main], with the flag as an argument: the arrows,
    the leaders, the boundary lines and the texts as the steps leave them.
    The three lists start empty and stay so when the flag is off. *)
Definition analysis_steps (on_detect_ex_leaders : bool) (lines : list Line)
    (texts : list TextEntity) (config : Config)
    : list Arrow * list ArrowLeader * list Line * list TextEntity :=
  if on_detect_ex_leaders then
    let arrows := detect_arrows_in_drawing lines config in
    let arrow_leaders := create_arrow_leaders arrows in
    let '(arrow_leaders, boundary_lines) :=
      detect_boundary_lines arrow_leaders lines config in
    let '(arrow_leaders, texts) := match_texts_to_arrows arrow_leaders texts config in
    (arrows, arrow_leaders, boundary_lines, texts)
  else ([], [], [], texts).

(** ** Further notions used to state the properties *)

(** The length of the path through the given points. *)
Fixpoint path_length (vs : list Point) : R :=
  match vs with
  | v :: (w :: _) as rest => distance v w + path_length rest
  | _ => 0
  end.

(** The leaders, by position from [n] on, that choose the text at
    position [t]. *)
Fixpoint chosen_by (max_distance : R) (texts : list TextEntity) (t : nat)
    (n : nat) (arrow_leaders : list ArrowLeader) : list nat :=
  match arrow_leaders with
  | [] => []
  | leader :: rest =>
      (if decide (find_closest_text max_distance (leader_position leader) texts = Some t)
       then [n] else [])
      ++ chosen_by max_distance texts t (S n) rest
  end.

(** The order in which the third pass visits the endpoints: by position
    of the shaft, and the start point before the end point. *)
Definition visited_before (p q : nat * Direction) : Prop :=
  (fst p < fst q)%nat \/ (fst p = fst q /\ snd p = DStart /\ snd q = DEnd).


(** The elements of [l] stand in the order [R]: an earlier one is related
    to every later one. *)
Definition in_order {A} (R : A -> A -> Prop) (l : list A) : Prop :=
  forall m n a b, l !! m = Some a -> l !! n = Some b -> (m < n)%nat -> R a b.

(** The endpoint at which an arrow was found, as the third pass names
    it. *)
Definition found_at (t : ArrowIdx) : nat * Direction := (ai_shaft t, ai_dir t).

(** A text with further leaders recorded. *)
Definition with_matched_arrows (ns : list nat) (t : TextEntity) : TextEntity :=
  mkText (text_handle t) (content t) (position t) (text_layer t) (entity_type t)
         (matched_arrows t ++ ns).

(** An extension line across the tip of the arrow of the specification. *)
Definition spec_boundary : Line := Line_init 3 (mkPoint 0 (-3)) (mkPoint 0 3).

(** A string without its leading zeros. *)
Fixpoint lstrip_zeros (s : string) : string :=
  match s with
  | String "0"%char rest => lstrip_zeros rest
  | _ => s
  end.
(** * Properties *)

(** ** Float comparisons *)

Lemma Rltb_true a b : Rltb a b = true <-> a < b.
Proof. unfold Rltb. destruct (Rlt_dec a b); split; intros; try done. Qed.

Lemma Rltb_false a b : Rltb a b = false <-> b <= a.
Proof. unfold Rltb. destruct (Rlt_dec a b); split; intros; try done; lra. Qed.

Lemma Rleb_true a b : Rleb a b = true <-> a <= b.
Proof. unfold Rleb. destruct (Rle_dec a b); split; intros; try done. Qed.

Lemma Rleb_false a b : Rleb a b = false <-> b < a.
Proof. unfold Rleb. destruct (Rle_dec a b); split; intros; try done; lra. Qed.

Lemma Reqb_true a b : Reqb a b = true <-> a = b.
Proof. unfold Reqb. destruct (Req_dec_T a b); split; intros; try done. Qed.

Lemma Reqb_false a b : Reqb a b = false <-> a <> b.
Proof. unfold Reqb. destruct (Req_dec_T a b); split; intros; try done. Qed.

(** ** [angle_between] *)

Lemma clamp_bounds c : -1 <= clamp c <= 1.
Proof.
  unfold clamp. split.
  - apply Rmax_l.
  - apply Rmax_lub; [lra | apply Rmin_l].
Qed.

Lemma degrees_acos_bounds c : 0 <= degrees (acos c) <= 180.
Proof.
  unfold degrees. pose proof (acos_bound c) as [H0 H1].
  pose proof PI_RGT_0 as Hpi.
  assert (Hk : 0 < 180 / PI) by (apply Rdiv_lt_0_compat; lra).
  split.
  - apply Rmult_le_pos; lra.
  - replace 180 with (PI * (180 / PI)) at 2 by (field; lra).
    apply Rmult_le_compat_r; lra.
Qed.

Lemma angle_between_bounds line1 line2 : 0 <= angle_between line1 line2 <= 180.
Proof.
  unfold angle_between.
  destruct (Reqb _ 0 || Reqb _ 0); [lra | apply degrees_acos_bounds].
Qed.

Lemma magnitude_line_length line :
  sqrt (fst (direction_vector line) ^ 2 + snd (direction_vector line) ^ 2)
  = line_length line.
Proof. unfold line_length, direction_vector. simpl. f_equal. ring. Qed.

Lemma line_length_nonneg line : 0 <= line_length line.
Proof. apply sqrt_pos. Qed.

Lemma line_length_degenerate line :
  start_point line = end_point line -> line_length line = 0.
Proof.
  intros E. unfold line_length. rewrite E.
  replace (_ * _ + _ * _) with 0 by ring. apply sqrt_0.
Qed.

Lemma math_sqrt_squares a b : math_sqrt (a ^ 2 + b ^ 2) = Ok (sqrt (a ^ 2 + b ^ 2)).
Proof.
  unfold math_sqrt.
  assert (H : Rltb (a ^ 2 + b ^ 2) 0 = false) by (apply Rltb_false; nra).
  now rewrite H.
Qed.

Lemma math_acos_clamp c : math_acos (clamp c) = Ok (acos (clamp c)).
Proof.
  unfold math_acos. destruct (clamp_bounds c) as [Hl Hu].
  apply Rleb_true in Hl, Hu. now rewrite Hl, Hu.
Qed.

Lemma py_pow2_ok v : v ^ 2 <= float_max -> py_pow2 v = Ok (v ^ 2).
Proof.
  intros H. unfold py_pow2. apply Rltb_false in H. rewrite H.
  now rewrite andb_false_r.
Qed.

Lemma py_pow2_overflow v :
  Rabs v <= float_max -> float_max < v ^ 2 -> py_pow2 v = Raise OverflowError.
Proof.
  intros H1 H2. unfold py_pow2. apply Rleb_true in H1. apply Rltb_true in H2.
  now rewrite H1, H2.
Qed.

(** In terms of the component itself: every float below [2 ** 512] in
    absolute value is at most [2 ** 512 - 2 ** 459] and has its square in
    range; from [2 ** 512] on the square of a finite float overflows. *)
Lemma py_pow2_threshold v :
  (Rabs v <= IZR (2 ^ 512 - 2 ^ 459)%Z -> py_pow2 v = Ok (v ^ 2))
  /\ (IZR (2 ^ 512)%Z <= Rabs v <= float_max -> py_pow2 v = Raise OverflowError).
Proof.
  assert (Hsq : v ^ 2 = Rabs v ^ 2) by (symmetry; apply pow2_abs).
  pose proof (Rabs_pos v) as Hpos.
  split.
  - intros H. apply py_pow2_ok. rewrite Hsq.
    apply Rle_trans with (IZR (2 ^ 512 - 2 ^ 459)%Z ^ 2);
      [apply pow_incr; lra|].
    rewrite pow_IZR. unfold float_max. apply IZR_le. vm_compute. discriminate.
  - intros [H1 H2]. apply py_pow2_overflow; [done|]. rewrite Hsq.
    apply Rlt_le_trans with (IZR (2 ^ 512)%Z ^ 2).
    + rewrite pow_IZR. unfold float_max. apply IZR_lt. vm_compute. reflexivity.
    + apply pow_incr. split; [|done]. apply (IZR_le 0). vm_compute. discriminate.
Qed.

Lemma py_pow2_cases v : py_pow2 v = Ok (v ^ 2) \/ py_pow2 v = Raise OverflowError.
Proof. unfold py_pow2. destruct (_ && _); tauto. Qed.

(** Once the two magnitudes are there, nothing raises. *)
Lemma angle_between_tail line1 line2 :
  (if Reqb (sqrt (fst (direction_vector line1) ^ 2
                  + snd (direction_vector line1) ^ 2)) 0
      || Reqb (sqrt (fst (direction_vector line2) ^ 2
                     + snd (direction_vector line2) ^ 2)) 0
   then Ok 0
   else
     cos_angle ← py_div (dot_product (direction_vector line1)
                                     (direction_vector line2))
                        (sqrt (fst (direction_vector line1) ^ 2
                               + snd (direction_vector line1) ^ 2)
                         * sqrt (fst (direction_vector line2) ^ 2
                                 + snd (direction_vector line2) ^ 2));
     angle_rad ← math_acos (clamp cos_angle);
     Ok (degrees angle_rad))
  = Ok (angle_between line1 line2).
Proof.
  unfold angle_between.
  destruct (Reqb (sqrt _) 0) eqn:E1; cbn [orb]; [done|].
  destruct (Reqb (sqrt _) 0) eqn:E2 in |- *; cbn [orb]; [done|].
  apply Reqb_false in E1, E2.
  unfold py_div.
  assert (H : Reqb (sqrt (fst (direction_vector line1) ^ 2
                          + snd (direction_vector line1) ^ 2)
                    * sqrt (fst (direction_vector line2) ^ 2
                            + snd (direction_vector line2) ^ 2)) 0 = false).
  { apply Reqb_false. intros H. apply Rmult_integral in H. tauto. }
  rewrite H. cbn [mbind result_bind].
  now rewrite math_acos_clamp.
Qed.

Lemma angle_between_checked_ok line1 line2 :
  squares_in_range line1 -> squares_in_range line2 ->
  angle_between_checked line1 line2 = Ok (angle_between line1 line2).
Proof.
  intros [H1 H2] [H3 H4]. unfold angle_between_checked.
  rewrite (py_pow2_ok _ H1), (py_pow2_ok _ H2). cbn [mbind result_bind].
  rewrite math_sqrt_squares. cbn [mbind result_bind].
  rewrite (py_pow2_ok _ H3), (py_pow2_ok _ H4). cbn [mbind result_bind].
  rewrite math_sqrt_squares. cbn [mbind result_bind].
  exact (angle_between_tail line1 line2).
Qed.

(** The only error is the overflow of a square. *)
Lemma angle_between_checked_cases line1 line2 :
  angle_between_checked line1 line2 = Ok (angle_between line1 line2)
  \/ angle_between_checked line1 line2 = Raise OverflowError.
Proof.
  unfold angle_between_checked.
  destruct (py_pow2_cases (fst (direction_vector line1))) as [-> | ->];
    cbn [mbind result_bind]; [|tauto].
  destruct (py_pow2_cases (snd (direction_vector line1))) as [-> | ->];
    cbn [mbind result_bind]; [|tauto].
  rewrite math_sqrt_squares. cbn [mbind result_bind].
  destruct (py_pow2_cases (fst (direction_vector line2))) as [-> | ->];
    cbn [mbind result_bind]; [|tauto].
  destruct (py_pow2_cases (snd (direction_vector line2))) as [-> | ->];
    cbn [mbind result_bind]; [|tauto].
  rewrite math_sqrt_squares. cbn [mbind result_bind].
  left. exact (angle_between_tail line1 line2).
Qed.

(** An overflowing square raises, wherever it stands. *)
Lemma angle_between_checked_overflow line1 line2 v :
  v ∈ [fst (direction_vector line1); snd (direction_vector line1);
       fst (direction_vector line2); snd (direction_vector line2)] ->
  Rabs v <= float_max -> float_max < v ^ 2 ->
  angle_between_checked line1 line2 = Raise OverflowError.
Proof.
  intros Hv H1 H2. pose proof (py_pow2_overflow v H1 H2) as Hraise.
  unfold angle_between_checked.
  repeat (apply elem_of_cons in Hv as [-> | Hv]; [rewrite ?Hraise; done|];
          match goal with
          | |- context [py_pow2 ?w] =>
              destruct (py_pow2_cases w) as [-> | ->];
              cbn [mbind result_bind]; [|done]
          end;
          rewrite ?math_sqrt_squares; cbn [mbind result_bind]).
  now apply elem_of_nil in Hv.
Qed.

Lemma angle_between_degenerate line1 line2 :
  start_point line1 = end_point line1 \/ start_point line2 = end_point line2 ->
  angle_between line1 line2 = 0.
Proof.
  intros H. unfold angle_between. rewrite !magnitude_line_length.
  destruct H as [H|H]; apply line_length_degenerate in H; rewrite H.
  - assert (E : Reqb 0 0 = true) by now apply Reqb_true. now rewrite E.
  - assert (E : Reqb 0 0 = true) by now apply Reqb_true.
    rewrite E. now rewrite orb_true_r.
Qed.

(** What holds of [angle_between] for all inputs.  It returns without
    raising for every pair of segments whose direction vectors have
    components with squares within the range of floats; there it returns 0
    as soon as one of the two segments has a zero direction vector (start
    and end coincide).  For every pair of segments the value lies in
    [0, 180], and the argument handed to the inverse cosine, being clamped,
    lies in [-1, 1], so that [math.acos] succeeds on it; neither
    [math.sqrt] nor the division can fail.  The one exception that
    [angle_between] can raise is the [OverflowError] of [v ** 2], and it
    raises it whenever a finite component has a square beyond the largest
    float. *)
Theorem angle_between_total_in_range (line1 line2 : Line) :
  (squares_in_range line1 -> squares_in_range line2 ->
   angle_between_checked line1 line2 = Ok (angle_between line1 line2)
   /\ (start_point line1 = end_point line1 \/ start_point line2 = end_point line2 ->
       angle_between_checked line1 line2 = Ok 0))
  /\ (forall e, angle_between_checked line1 line2 = Raise e -> e = OverflowError)
  /\ (forall v,
        v ∈ [fst (direction_vector line1); snd (direction_vector line1);
             fst (direction_vector line2); snd (direction_vector line2)] ->
        Rabs v <= float_max -> float_max < v ^ 2 ->
        angle_between_checked line1 line2 = Raise OverflowError)
  /\ 0 <= angle_between line1 line2 <= 180
  /\ (forall c, -1 <= clamp c <= 1 /\ math_acos (clamp c) = Ok (acos (clamp c))).
Proof.
  split; [|split; [|split; [|split]]].
  - intros H1 H2. rewrite (angle_between_checked_ok _ _ H1 H2). split; [done|].
    intros H. now rewrite (angle_between_degenerate _ _ H).
  - intros e He.
    destruct (angle_between_checked_cases line1 line2) as [H | H];
      rewrite H in He; congruence.
  - apply angle_between_checked_overflow.
  - apply angle_between_bounds.
  - intros c. split; [apply clamp_bounds | apply math_acos_clamp].
Qed.

(** C7. [angle_between] is not total.  The segment from (0, 0) to
    (2^600, 0) has float coordinates, and the square of 2^600 is out of
    range: [v ** 2] raises [OverflowError], and so does [angle_between],
    also against a segment of zero length, for which it is to return 0.
    [length] and [distance] take the same squares as [dx * dx], which
    does not raise. *)
Lemma angle_between_overflow :
  Rabs (IZR (2 ^ 600)%Z) <= float_max
  /\ start_point (Line_init 0 (mkPoint 1 1) (mkPoint 1 1))
     = end_point (Line_init 0 (mkPoint 1 1) (mkPoint 1 1))
  /\ angle_between_checked (Line_init 0 (mkPoint 1 1) (mkPoint 1 1))
       (Line_init 1 (mkPoint 0 0) (mkPoint (IZR (2 ^ 600)%Z) 0))
     = Raise OverflowError
  /\ angle_between_checked (Line_init 0 (mkPoint 1 1) (mkPoint 1 1))
       (Line_init 1 (mkPoint 0 0) (mkPoint (IZR (2 ^ 600)%Z) 0))
     <> Ok (angle_between (Line_init 0 (mkPoint 1 1) (mkPoint 1 1))
              (Line_init 1 (mkPoint 0 0) (mkPoint (IZR (2 ^ 600)%Z) 0))).
Proof.
  assert (Hfin : Rabs (IZR (2 ^ 600)%Z) <= float_max).
  { rewrite <- abs_IZR. unfold float_max. apply IZR_le. vm_compute. discriminate. }
  assert (Hbig : float_max < IZR (2 ^ 600)%Z ^ 2).
  { replace (IZR (2 ^ 600)%Z ^ 2) with (IZR (2 ^ 600 * 2 ^ 600)%Z)
      by (rewrite mult_IZR; ring).
    unfold float_max. apply IZR_lt. vm_compute. reflexivity. }
  assert (Hraise : angle_between_checked (Line_init 0 (mkPoint 1 1) (mkPoint 1 1))
                     (Line_init 1 (mkPoint 0 0) (mkPoint (IZR (2 ^ 600)%Z) 0))
                   = Raise OverflowError).
  { apply (angle_between_checked_overflow _ _ (IZR (2 ^ 600)%Z)); [|done|done].
    cbn [direction_vector Line_init start_point end_point x y fst snd].
    rewrite Rminus_0_r. right. right. left. }
  split; [done|]. split; [reflexivity|]. split; [done|].
  rewrite Hraise. discriminate.
Qed.

(** ** Leader assembly *)

Lemma imap_set_leader_id_fields (f : ArrowLeader -> Point * Arrow) ls :
  (forall n l, f (set_leader_id n l) = f l) ->
  map f (imap set_leader_id ls) = map f ls.
Proof.
  intros Hf. apply list_eq. intros i.
  rewrite !list_lookup_fmap, list_lookup_imap.
  destruct (ls !! i); simpl; [now rewrite Hf | done].
Qed.

(** C9. Leader assembly makes one leader per arrow, in order, and the
    leader's indicator position depends on the arrow's shaft and direction
    only: the shaft's start point for ['end'], the shaft's end point for
    ['start'], the midpoint of the two for ['both']. *)
Theorem create_arrow_leaders_position (arrows : list Arrow) :
  map (fun l => (leader_position l, arrow l)) (create_arrow_leaders arrows)
  = map (fun a =>
           (match direction a with
            | DEnd => start_point (shaft a)
            | DStart => end_point (shaft a)
            | DBoth => mkPoint ((x (start_point (shaft a)) + x (end_point (shaft a))) / 2)
                               ((y (start_point (shaft a)) + y (end_point (shaft a))) / 2)
            end, a)) arrows.
Proof.
  unfold create_arrow_leaders.
  rewrite imap_set_leader_id_fields by done.
  rewrite map_map. apply map_ext. intros a. simpl.
  unfold get_leader_position. now destruct (direction a).
Qed.

(** ** Parallel segments *)

Lemma are_lines_parallel_spec line1 line2 angle_threshold :
  are_lines_parallel line1 line2 angle_threshold = true <->
  angle_between line1 line2 < angle_threshold
  \/ angle_between line1 line2 > 180 - angle_threshold.
Proof.
  unfold are_lines_parallel. rewrite orb_true_iff, !Rltb_true. unfold Rgt. tauto.
Qed.

(** ** The meeting-point pass *)

Lemma enumerate_lookup {A} (l : list A) i a :
  (i, a) ∈ enumerate l <-> l !! i = Some a.
Proof.
  unfold enumerate. rewrite list_elem_of_lookup. split.
  - intros [n Hn]. rewrite list_lookup_imap in Hn.
    destruct (l !! n) eqn:E; simpl in Hn; [|done].
    now inversion Hn; subst.
  - intros H. exists i. rewrite list_lookup_imap, H. done.
Qed.

Lemma enumerate_fst {A} (l : list A) : map fst (enumerate l) = seq 0 (length l).
Proof.
  unfold enumerate. apply list_eq. intros i.
  rewrite list_lookup_fmap, list_lookup_imap.
  destruct (l !! i) eqn:E; simpl.
  - symmetry. apply lookup_seq. split; [done|]. now apply lookup_lt_Some in E.
  - symmetry. apply lookup_seq_ge. apply lookup_ge_None in E. lia.
Qed.

Lemma enumerate_NoDup {A} (l : list A) : NoDup (map fst (enumerate l)).
Proof. rewrite enumerate_fst. apply NoDup_seq. Qed.

Lemma closest_endpoints_distance line_i line_j min_dist i_point j_point :
  closest_endpoints line_i line_j = (min_dist, i_point, j_point) ->
  (i_point = DStart \/ i_point = DEnd)
  /\ (j_point = DStart \/ j_point = DEnd)
  /\ min_dist = distance (endpoint i_point line_i) (endpoint j_point line_j).
Proof.
  unfold closest_endpoints, min_by_key. cbn [fold_left fst snd].
  repeat match goal with |- context [Rltb ?a ?b] => destruct (Rltb a b) end;
    intros [= <- <- <-]; cbn [endpoint]; tauto.
Qed.

Lemma meeting_step_cases tol lens i line_i ml j line_j :
  (exists i_point j_point,
      meeting_entry tol lens i line_i j line_j i_point j_point
      /\ (i_point = DStart \/ i_point = DEnd)
      /\ ml_get i_point (meeting_step tol lens i line_i ml (j, line_j))
         = ml_get i_point ml ++ [(j, j_point)]
      /\ forall tag, tag <> i_point -> (tag = DStart \/ tag = DEnd) ->
           ml_get tag (meeting_step tol lens i line_i ml (j, line_j)) = ml_get tag ml)
  \/ ((forall i_point j_point, ~ meeting_entry tol lens i line_i j line_j i_point j_point)
      /\ meeting_step tol lens i line_i ml (j, line_j) = ml).
Proof.
  unfold meeting_step, meeting_entry.
  destruct (Nat.eqb i j) eqn:Eij.
  { right. apply Nat.eqb_eq in Eij. split; [|done]. intros ? ? [? _]. done. }
  apply Nat.eqb_neq in Eij.
  destruct (Rleb (lens !!! i) (lens !!! j)) eqn:El.
  { right. apply Rleb_true in El. split; [|done]. intros ? ? (_ & ? & _). lra. }
  apply Rleb_false in El.
  destruct (are_lines_parallel line_i line_j 5) eqn:Ep.
  { right. split; [|done]. intros ? ? (_ & _ & ? & _). done. }
  destruct (closest_endpoints line_i line_j) as [[d ip] jp] eqn:Ec.
  destruct (Rleb d tol) eqn:Ed.
  - left. apply Rleb_true in Ed. exists ip, jp.
    destruct (closest_endpoints_distance _ _ _ _ _ Ec) as (Hip & _ & _).
    split; [|split; [done|]].
    { repeat split; try done. exists d. done. }
    destruct Hip as [-> | ->]; cbn [ml_get ml_start ml_end]; split; try done;
      intros tag Hne [-> | ->]; done.
  - right. apply Rleb_false in Ed. split; [|done].
    intros ip' jp' (_ & _ & _ & d' & [= <- <- <-] & Hd). lra.
Qed.

(** The entries of a row of [meeting_lines] are exactly the segments that
    satisfy [meeting_entry]. *)
Lemma meeting_fold_elem tol lens i line_i js ml tag j j_point :
  tag = DStart \/ tag = DEnd ->
  (j, j_point) ∈ ml_get tag (fold_left (meeting_step tol lens i line_i) js ml) <->
  (j, j_point) ∈ ml_get tag ml
  \/ exists line_j, (j, line_j) ∈ js
                    /\ meeting_entry tol lens i line_i j line_j tag j_point.
Proof.
  intros Htag. revert ml. induction js as [|[j' lj'] js IH]; intros ml.
  - cbn [fold_left]. split; [tauto|]. intros [?|(? & H & _)]; [done|].
    now apply elem_of_nil in H.
  - cbn [fold_left]. rewrite IH.
    destruct (meeting_step_cases tol lens i line_i ml j' lj')
      as [(ip & jp & He & Hip & Happ & Hoth) | [Hno ->]].
    + destruct (decide (tag = ip)) as [-> | Hne].
      * rewrite Happ, elem_of_app, list_elem_of_singleton. split.
        -- intros [[?|[= -> ->]]|(lj & Hin & Hm)]; [tauto| |].
           ++ right. exists lj'. split; [left|done].
           ++ right. exists lj. split; [now right|done].
        -- intros [?|(lj & Hin & Hm)]; [tauto|].
           apply elem_of_cons in Hin as [[= -> ->]|Hin].
           ++ left. right. f_equal.
              destruct He as (_ & _ & _ & d & Hc & _).
              destruct Hm as (_ & _ & _ & d' & Hc' & _). congruence.
           ++ right. exists lj. done.
      * rewrite (Hoth tag Hne Htag). split.
        -- intros [?|(lj & Hin & Hm)]; [tauto|].
           right. exists lj. split; [now right|done].
        -- intros [?|(lj & Hin & Hm)]; [tauto|].
           apply elem_of_cons in Hin as [[= -> ->]|Hin].
           ++ exfalso. apply Hne.
              destruct He as (_ & _ & _ & d & Hc & _).
              destruct Hm as (_ & _ & _ & d' & Hc' & _). congruence.
           ++ right. exists lj. done.
    + split.
      * intros [?|(lj & Hin & Hm)]; [tauto|].
        right. exists lj. split; [now right|done].
      * intros [?|(lj & Hin & Hm)]; [tauto|].
        apply elem_of_cons in Hin as [[= -> ->]|Hin].
        -- exfalso. eapply Hno, Hm.
        -- right. exists lj. done.
Qed.

(** The indices recorded in a row follow the order of the inner loop. *)
Lemma meeting_fold_sublist tol lens i line_i js ml tag :
  tag = DStart \/ tag = DEnd ->
  exists s, map fst (ml_get tag (fold_left (meeting_step tol lens i line_i) js ml))
            = map fst (ml_get tag ml) ++ s
            /\ s `sublist_of` map fst js.
Proof.
  intros Htag. revert ml. induction js as [|[j' lj'] js IH]; intros ml.
  - exists []. cbn. now rewrite app_nil_r.
  - cbn [fold_left map fst].
    destruct (IH (meeting_step tol lens i line_i ml (j', lj'))) as (s & Hs & Hsub).
    destruct (meeting_step_cases tol lens i line_i ml j' lj')
      as [(ip & jp & He & Hip & Happ & Hoth) | [Hno Heq]].
    + destruct (decide (tag = ip)) as [-> | Hne].
      * exists (j' :: s). rewrite Hs, Happ, map_app. cbn. rewrite <- app_assoc.
        split; [done|]. now apply sublist_skip.
      * exists s. rewrite Hs, (Hoth tag Hne Htag). split; [done|].
        now apply sublist_cons.
    + exists s. rewrite Hs, Heq. split; [done|]. now apply sublist_cons.
Qed.

Lemma enumerate_lookup_index {A} (l : list A) i a :
  l !! i = Some a -> enumerate l !! i = Some (i, a).
Proof. intros H. unfold enumerate. now rewrite list_lookup_imap, H. Qed.

Lemma meeting_pass_row lines lens tol i line_i :
  lines !! i = Some line_i ->
  meeting_pass lines lens tol !!! i
  = fold_left (meeting_step tol lens i line_i) (enumerate lines) (mkMeeting [] []).
Proof.
  intros H. apply list_lookup_total_correct. unfold meeting_pass.
  rewrite list_lookup_fmap, (enumerate_lookup_index _ _ _ H). done.
Qed.

(** What the second pass records at endpoint [tag] of segment [i]. *)
Lemma meeting_pass_elem lines lens tol i line_i tag j j_point :
  lines !! i = Some line_i ->
  tag = DStart \/ tag = DEnd ->
  (j, j_point) ∈ ml_get tag (meeting_pass lines lens tol !!! i) <->
  exists line_j, lines !! j = Some line_j
                 /\ meeting_entry tol lens i line_i j line_j tag j_point.
Proof.
  intros Hi Htag. rewrite (meeting_pass_row _ _ _ _ _ Hi).
  rewrite meeting_fold_elem by done. split.
  - intros [H|(lj & Hin & Hm)].
    + destruct Htag as [-> | ->]; now apply elem_of_nil in H.
    + exists lj. now apply enumerate_lookup in Hin.
  - intros (lj & Hin & Hm). right. exists lj. now apply enumerate_lookup in Hin.
Qed.

Lemma meeting_pass_NoDup lines lens tol i line_i tag :
  lines !! i = Some line_i ->
  tag = DStart \/ tag = DEnd ->
  NoDup (map fst (ml_get tag (meeting_pass lines lens tol !!! i))).
Proof.
  intros Hi Htag. rewrite (meeting_pass_row _ _ _ _ _ Hi).
  destruct (meeting_fold_sublist tol lens i line_i (enumerate lines)
              (mkMeeting [] []) tag Htag) as (s & -> & Hsub).
  replace (map fst (ml_get tag (mkMeeting [] []))) with (@nil nat)
    by (now destruct Htag as [-> | ->]).
  cbn [app]. exact (sublist_NoDup _ _ (enumerate_NoDup lines) Hsub).
Qed.


(** ** The symmetry-classification pass *)

Lemma barb_pair_ok_true shaft_line lines lens used cfg j k :
  barb_pair_ok shaft_line lines lens used cfg j k = true ->
  (j ∉ used) /\ (k ∉ used)
  /\ Rabs (lens !!! j - lens !!! k) <= barb_length_diff_max cfg
  /\ angle_between shaft_line (lines !!! j) <= arrow_angle_max cfg
  /\ angle_between shaft_line (lines !!! k) <= arrow_angle_max cfg
  /\ Rabs (angle_between shaft_line (lines !!! j)
           - angle_between shaft_line (lines !!! k)) <= barb_angle_diff_max cfg.
Proof.
  unfold barb_pair_ok.
  destruct (bool_decide (j ∈ used)) eqn:Ej; [done|].
  destruct (bool_decide (k ∈ used)) eqn:Ek; [done|].
  apply bool_decide_eq_false in Ej, Ek. cbn [orb].
  destruct (Rltb (barb_length_diff_max cfg) _) eqn:E1; [done|].
  destruct (Rltb (arrow_angle_max cfg) (angle_between shaft_line (lines !!! j)))
    eqn:E2; [done|].
  destruct (Rltb (arrow_angle_max cfg) (angle_between shaft_line (lines !!! k)))
    eqn:E3; [done|].
  cbn [orb].
  destruct (Rltb (barb_angle_diff_max cfg) _) eqn:E4; [done|].
  apply Rltb_false in E1, E2, E3, E4. intros _. tauto.
Qed.

Lemma first_partner_Some shaft_line lines lens used cfg j rest r :
  first_partner shaft_line lines lens used cfg j rest = Some r ->
  exists k k_point, r = (j, k) /\ (k, k_point) ∈ rest
    /\ barb_pair_ok shaft_line lines lens used cfg j k = true.
Proof.
  induction rest as [|[k kp] rest IH]; cbn [first_partner]; [done|].
  destruct (barb_pair_ok shaft_line lines lens used cfg j k) eqn:E.
  - intros [= <-]. exists k, kp. split; [done|]. split; [left|done].
  - intros H. destruct (IH H) as (k' & kp' & -> & Hin & Hok).
    exists k', kp'. split; [done|]. split; [now right|done].
Qed.

(** An accepted pair stands at two positions [idx1 < idx2] of the list. *)
Lemma first_pair_Some shaft_line lines lens used cfg m r :
  first_pair shaft_line lines lens used cfg m = Some r ->
  exists j j_point k k_point m1 m2,
    r = (j, k) /\ m = m1 ++ (j, j_point) :: m2 /\ (k, k_point) ∈ m2
    /\ barb_pair_ok shaft_line lines lens used cfg j k = true.
Proof.
  induction m as [|[j jp] rest IH]; cbn [first_pair]; [done|].
  destruct (first_partner shaft_line lines lens used cfg j rest) as [r'|] eqn:E.
  - intros [= <-]. apply first_partner_Some in E as (k & kp & -> & Hin & Hok).
    exists j, jp, k, kp, [], rest. done.
  - intros H. destruct (IH H) as (j' & jp' & k & kp & m1 & m2 & -> & -> & Hin & Hok).
    exists j', jp', k, kp, ((j, jp) :: m1), m2. done.
Qed.

Lemma check_symmetrical_lines_Some shaft_line lines lens used cfg m j k :
  check_symmetrical_lines shaft_line lines lens used cfg m = Some (j, k) ->
  NoDup (map fst m) ->
  j <> k
  /\ (exists j_point, (j, j_point) ∈ m) /\ (exists k_point, (k, k_point) ∈ m)
  /\ barb_pair_ok shaft_line lines lens used cfg j k = true.
Proof.
  unfold check_symmetrical_lines. destruct (Nat.ltb _ 2); [done|].
  intros H Hnd.
  apply first_pair_Some in H
    as (j' & jp & k' & kp & m1 & m2 & [= -> ->] & -> & Hin & Hok).
  split; [|split; [|split]]; try done.
  - rewrite map_app in Hnd. apply NoDup_app in Hnd as (_ & _ & Hnd).
    cbn in Hnd. apply NoDup_cons in Hnd as [Hnotin _].
    intros ->. apply Hnotin. apply (list_elem_of_fmap_2 fst) in Hin. exact Hin.
  - exists jp. apply elem_of_app. right. left.
  - exists kp. apply elem_of_app. right. now right.
Qed.

Lemma barb_indices_snoc ts t :
  barb_indices (ts ++ [t]) = barb_indices ts ++ [ai_left t; ai_right t].
Proof. unfold barb_indices. rewrite flat_map_app. cbn. done. Qed.

Lemma lengths_lookup lines j line_j :
  lines !! j = Some line_j -> map line_length lines !!! j = line_length line_j.
Proof.
  intros H. apply list_lookup_total_correct.
  now rewrite list_lookup_fmap, H.
Qed.

(** One endpoint test keeps the state well-formed and adds at most one
    arrow, whose shaft is segment [i] and whose tip is the endpoint
    tested. *)
Lemma check_endpoint_state lines cfg ts arrows used i line_i dir arrows' used' :
  let lens := map line_length lines in
  let meeting_lines := meeting_pass lines lens (tip_point_tolerance cfg) in
  detection_state lines cfg ts arrows used ->
  lines !! i = Some line_i ->
  dir = DStart \/ dir = DEnd ->
  (forall t, t ∈ ts -> (ai_shaft t, ai_dir t) <> (i, dir)) ->
  check_endpoint lines lens cfg line_i (ml_get dir (meeting_lines !!! i))
                 (endpoint dir line_i) dir (arrows, used) = (arrows', used') ->
  exists ts', detection_state lines cfg ts' arrows' used'
              /\ (ts' = ts \/ exists j k, ts' = ts ++ [mkArrowIdx i j k dir]).
Proof.
  intros lens meeting_lines Hst Hi Hdir Hfresh. unfold check_endpoint.
  destruct (Nat.leb 2 _); [|intros [= <- <-]; exists ts; tauto].
  destruct (check_symmetrical_lines _ _ _ _ _ _) as [[j k]|] eqn:Hc;
    [|intros [= <- <-]; exists ts; tauto].
  intros [= <- <-].
  apply check_symmetrical_lines_Some in Hc;
    [|now apply (meeting_pass_NoDup _ _ _ _ line_i)].
  destruct Hc as (Hjk & [jp Hj] & [kp Hk] & Hok).
  apply (meeting_pass_elem _ _ _ _ _ _ _ _ Hi Hdir) in Hj as (lj & Hlj & Hmj).
  apply (meeting_pass_elem _ _ _ _ _ _ _ _ Hi Hdir) in Hk as (lk & Hlk & Hmk).
  apply barb_pair_ok_true in Hok as (Hju & Hku & Hlen & Haj & Hak & Hdiff).
  rewrite (list_lookup_total_correct _ _ _ Hlj) in *.
  rewrite (list_lookup_total_correct _ _ _ Hlk) in *.
  unfold lens in Hlen.
  rewrite (lengths_lookup _ _ _ Hlj), (lengths_lookup _ _ _ Hlk) in Hlen.
  destruct Hst as (Hall & Hused & Hnd & Hsh).
  exists (ts ++ [mkArrowIdx i j k dir]). split; [|right; eauto].
  split; [|split; [|split]].
  - apply Forall2_app; [done|]. constructor; [|constructor].
    unfold arrow_found. cbn.
    repeat split; try done; eauto.
  - intros n. rewrite barb_indices_snoc, elem_of_app, !elem_of_union, Hused.
    rewrite !elem_of_singleton, elem_of_cons, list_elem_of_singleton. tauto.
  - rewrite barb_indices_snoc. apply NoDup_app. split; [done|]. split.
    + intros n Hn. apply Hused in Hn.
      rewrite elem_of_cons, list_elem_of_singleton. intros [-> | ->]; done.
    + apply NoDup_cons. split; [|apply NoDup_singleton].
      rewrite list_elem_of_singleton. done.
  - rewrite map_app. apply NoDup_app. split; [done|]. split.
    + intros p Hp. cbn. rewrite list_elem_of_singleton. intros ->.
      apply list_elem_of_fmap in Hp as (t & Ht & Hin).
      apply (Hfresh t Hin). done.
    + cbn. apply NoDup_singleton.
Qed.

Lemma symmetry_fold_state lines cfg es : forall ts arrows used,
  let lens := map line_length lines in
  let meeting_lines := meeting_pass lines lens (tip_point_tolerance cfg) in
  detection_state lines cfg ts arrows used ->
  NoDup (map fst es) ->
  (forall i l, (i, l) ∈ es -> lines !! i = Some l) ->
  (forall t, t ∈ ts -> ai_shaft t ∉ map fst es) ->
  exists ts' arrows' used',
    fold_left (symmetry_step lines lens meeting_lines cfg) es (arrows, used)
    = (arrows', used')
    /\ detection_state lines cfg ts' arrows' used'.
Proof.
  induction es as [|[i line_i] es IH]; intros ts arrows used lens meeting_lines
    Hst Hnd Hes Hfresh.
  - exists ts, arrows, used. done.
  - cbn [fold_left]. unfold symmetry_step at 2.
    assert (Hi : lines !! i = Some line_i) by (apply Hes; left).
    cbn [map fst] in Hnd. apply NoDup_cons in Hnd as [Hi_notin Hnd].
    destruct (check_endpoint lines lens cfg line_i
                (ml_start (meeting_lines !!! i)) (start_point line_i) DStart
                (arrows, used)) as [arrows1 used1] eqn:E1.
    destruct (check_endpoint_state lines cfg ts arrows used i line_i DStart
                arrows1 used1 Hst Hi) as (ts1 & Hst1 & Hts1); [tauto| |exact E1|].
    { intros t Ht [= Hs _]. apply (Hfresh t Ht). rewrite Hs. left. }
    destruct (check_endpoint lines lens cfg line_i
                (ml_end (meeting_lines !!! i)) (end_point line_i) DEnd
                (arrows1, used1)) as [arrows2 used2] eqn:E2.
    destruct (check_endpoint_state lines cfg ts1 arrows1 used1 i line_i DEnd
                arrows2 used2 Hst1 Hi) as (ts2 & Hst2 & Hts2); [tauto| |exact E2|].
    { intros t Ht [= Hs Hd]. destruct Hts1 as [-> | (j & k & ->)].
      - apply (Hfresh t Ht). rewrite Hs. left.
      - apply elem_of_app in Ht as [Ht|Ht].
        + apply (Hfresh t Ht). rewrite Hs. left.
        + apply list_elem_of_singleton in Ht. subst t. cbn in Hd. done. }
    apply (IH ts2 arrows2 used2 Hst2 Hnd).
    + intros i' l' H. apply Hes. now right.
    + assert (Hsh : forall t, t ∈ ts2 -> ai_shaft t = i \/ t ∈ ts).
      { intros t Ht. destruct Hts2 as [-> | (j & k & ->)].
        - destruct Hts1 as [-> | (j & k & ->)]; [tauto|].
          apply elem_of_app in Ht as [Ht|Ht]; [tauto|].
          apply list_elem_of_singleton in Ht. subst t. now left.
        - apply elem_of_app in Ht as [Ht|Ht].
          + destruct Hts1 as [-> | (j' & k' & ->)]; [tauto|].
            apply elem_of_app in Ht as [Ht|Ht]; [tauto|].
            apply list_elem_of_singleton in Ht. subst t. now left.
          + apply list_elem_of_singleton in Ht. subst t. now left. }
      intros t Ht Hin. destruct (Hsh t Ht) as [Heq | Hold].
      * rewrite Heq in Hin. done.
      * apply (Hfresh t Hold). now right.
Qed.

Lemma Forall2_imap {A B} (P : A -> B -> Prop) (f : nat -> B -> B) ts l :
  (forall n t b, P t b -> P t (f n b)) ->
  Forall2 P ts l -> Forall2 P ts (imap f l).
Proof.
  intros Hf H. revert f Hf. induction H as [|t b ts l Hp H IH]; intros f Hf.
  - constructor.
  - cbn. constructor; [now apply Hf|]. apply IH. intros n. apply Hf.
Qed.

(** The arrows returned by the detection, the positions they were found
    at, and the exclusivity that [used_barbs] enforces on these positions. *)
Lemma detect_arrows_found lines config :
  exists ts,
    Forall2 (arrow_found lines (ARROW_DETECTION config)) ts
            (detect_arrows_in_drawing lines config)
    /\ NoDup (barb_indices ts)
    /\ NoDup (map (fun t => (ai_shaft t, ai_dir t)) ts).
Proof.
  unfold detect_arrows_in_drawing, symmetry_pass.
  destruct (symmetry_fold_state lines (ARROW_DETECTION config) (enumerate lines)
              [] [] ∅) as (ts & arrows & used & -> & Hall & _ & Hnd & Hsh).
  - split; [constructor|]. split; [|split; constructor].
    intros n. cbn. rewrite elem_of_nil. set_solver.
  - apply enumerate_NoDup.
  - intros i l H. now apply enumerate_lookup.
  - intros t Ht. now apply elem_of_nil in Ht.
  - exists ts. cbn [fst]. split; [|done].
    apply Forall2_imap; [|done]. intros n t b Hb. exact Hb.
Qed.

Lemma Forall2_elem_r {A B} (P : A -> B -> Prop) ts l b :
  Forall2 P ts l -> b ∈ l -> exists t, t ∈ ts /\ P t b.
Proof.
  intros H Hb. apply list_elem_of_lookup in Hb as [n Hn].
  destruct (Forall2_lookup_r _ _ _ _ _ H Hn) as (t & Ht & Hp).
  exists t. split; [|done]. apply list_elem_of_lookup. eauto.
Qed.

Lemma meeting_entry_shorter lines tol i line_i j line_j i_point j_point :
  lines !! i = Some line_i -> lines !! j = Some line_j ->
  meeting_entry tol (map line_length lines) i line_i j line_j i_point j_point ->
  line_length line_j < line_length line_i.
Proof.
  intros Hi Hj (_ & Hlt & _).
  now rewrite (lengths_lookup _ _ _ Hi), (lengths_lookup _ _ _ Hj) in Hlt.
Qed.

Lemma meeting_entry_near tol lens i line_i j line_j i_point j_point :
  meeting_entry tol lens i line_i j line_j i_point j_point ->
  distance (endpoint i_point line_i) (start_point line_j) <= tol
  \/ distance (endpoint i_point line_i) (end_point line_j) <= tol.
Proof.
  intros (_ & _ & _ & d & Hc & Hd).
  apply closest_endpoints_distance in Hc as (_ & [-> | ->] & ->);
    cbn [endpoint] in Hd; tauto.
Qed.

Lemma longer_line_proper line short :
  line_length short < line_length line -> start_point line <> end_point line.
Proof.
  intros Hlt E. apply line_length_degenerate in E.
  pose proof (line_length_nonneg short). lra.
Qed.

(** C3. Every arrow that the detection returns has both barbs strictly
    shorter than its shaft, both barb angles to the shaft at most
    [arrow_angle_max], barb lengths that differ by at most
    [barb_length_diff_max], barb angles that differ by at most
    [barb_angle_diff_max], an endpoint of each barb within
    [tip_point_tolerance] of the tip point, direction ['start'] exactly
    when the tip point is the shaft's start point and direction ['end']
    exactly when it is the shaft's end point. *)
Theorem detected_arrow_invariant (lines : list Line) (config : Config) (a : Arrow) :
  a ∈ detect_arrows_in_drawing lines config ->
  let cfg := ARROW_DETECTION config in
  line_length (left_barb a) < line_length (shaft a)
  /\ line_length (right_barb a) < line_length (shaft a)
  /\ angle_between (shaft a) (left_barb a) <= arrow_angle_max cfg
  /\ angle_between (shaft a) (right_barb a) <= arrow_angle_max cfg
  /\ Rabs (line_length (left_barb a) - line_length (right_barb a))
     <= barb_length_diff_max cfg
  /\ Rabs (angle_between (shaft a) (left_barb a)
           - angle_between (shaft a) (right_barb a))
     <= barb_angle_diff_max cfg
  /\ (distance (tip_point a) (start_point (left_barb a)) <= tip_point_tolerance cfg
      \/ distance (tip_point a) (end_point (left_barb a)) <= tip_point_tolerance cfg)
  /\ (distance (tip_point a) (start_point (right_barb a)) <= tip_point_tolerance cfg
      \/ distance (tip_point a) (end_point (right_barb a)) <= tip_point_tolerance cfg)
  /\ (direction a = DStart <-> tip_point a = start_point (shaft a))
  /\ (direction a = DEnd <-> tip_point a = end_point (shaft a)).
Proof.
  intros Ha cfg.
  destruct (detect_arrows_found lines config) as (ts & Hall & _ & _).
  destruct (Forall2_elem_r _ _ _ _ Hall Ha) as (t & _ & Hf).
  destruct Hf as (Hs & Hl & Hr & Hdir & Hd & Htip & _ & [jp Hmj] & [kp Hmk]
                  & Hlen & Haj & Hak & Hdiff).
  pose proof (meeting_entry_shorter _ _ _ _ _ _ _ _ Hs Hl Hmj) as Hlt_l.
  pose proof (meeting_entry_shorter _ _ _ _ _ _ _ _ Hs Hr Hmk) as Hlt_r.
  pose proof (longer_line_proper _ _ Hlt_l) as Hproper.
  apply meeting_entry_near in Hmj, Hmk. rewrite <- Htip in Hmj, Hmk.
  repeat (split; [assumption|]).
  rewrite Hdir, Htip.
  destruct Hd as [-> | ->]; cbn [endpoint]; split; split; done.
Qed.

(** ** Exclusivity of barbs *)

Lemma check_symmetrical_lines_unused shaft_line lines lens used cfg m j k :
  check_symmetrical_lines shaft_line lines lens used cfg m = Some (j, k) ->
  (j ∉ used) /\ (k ∉ used).
Proof.
  unfold check_symmetrical_lines. destruct (Nat.ltb _ 2); [done|].
  intros H. apply first_pair_Some in H
    as (j' & jp & k' & kp & m1 & m2 & [= -> ->] & _ & _ & Hok).
  apply barb_pair_ok_true in Hok. tauto.
Qed.

Lemma check_endpoint_marks lines lens cfg line_i meeting tip dir arrows used
    arrows' used' :
  check_endpoint lines lens cfg line_i meeting tip dir (arrows, used)
  = (arrows', used') ->
  (arrows' = arrows /\ used' = used)
  \/ exists j k,
       (j ∉ used) /\ (k ∉ used)
       /\ arrows' = arrows ++ [mkArrow line_i (lines !!! j) (lines !!! k) tip dir None]
       /\ used' = used ∪ {[j]} ∪ {[k]}.
Proof.
  unfold check_endpoint. destruct (Nat.leb 2 _); [|intros [= <- <-]; tauto].
  destruct (check_symmetrical_lines _ _ _ _ _ _) as [[j k]|] eqn:Hc;
    [|intros [= <- <-]; tauto].
  intros [= <- <-]. right. exists j, k.
  apply check_symmetrical_lines_unused in Hc. tauto.
Qed.

Lemma obj_lookup_inj lines j k :
  NoDup (map obj lines) ->
  (j < length lines)%nat -> (k < length lines)%nat ->
  obj (lines !!! j) = obj (lines !!! k) -> j = k.
Proof.
  intros Hnd Hj Hk E.
  apply (NoDup_lookup _ j k (obj (lines !!! j)) Hnd).
  - rewrite list_lookup_fmap, (list_lookup_lookup_total_lt _ _ Hj). done.
  - rewrite list_lookup_fmap, (list_lookup_lookup_total_lt _ _ Hk), E. done.
Qed.

Lemma barb_objects lines cfg ts arrows :
  Forall2 (arrow_found lines cfg) ts arrows ->
  flat_map (fun a => [obj (left_barb a); obj (right_barb a)]) arrows
  = map (fun j => obj (lines !!! j)) (barb_indices ts)
  /\ Forall (fun j => (j < length lines)%nat) (barb_indices ts).
Proof.
  induction 1 as [|t a ts arrows Hf H IH]; [done|].
  destruct IH as [IH1 IH2].
  destruct Hf as (_ & Hl & Hr & _).
  cbn. rewrite IH1.
  rewrite (list_lookup_total_correct _ _ _ Hl), (list_lookup_total_correct _ _ _ Hr).
  split; [done|].
  apply lookup_lt_Some in Hl, Hr. repeat constructor; done.
Qed.

Lemma shaft_objects lines cfg ts arrows :
  Forall2 (arrow_found lines cfg) ts arrows ->
  map (fun a => (obj (shaft a), direction a)) arrows
  = map (fun t => (obj (lines !!! ai_shaft t), ai_dir t)) ts
  /\ Forall (fun t => (ai_shaft t < length lines)%nat) ts.
Proof.
  induction 1 as [|t a ts arrows Hf H IH]; [done|].
  destruct IH as [IH1 IH2].
  destruct Hf as (Hs & _ & _ & Hd & _).
  cbn. rewrite IH1, Hd, (list_lookup_total_correct _ _ _ Hs).
  split; [done|].
  apply lookup_lt_Some in Hs. constructor; done.
Qed.

Lemma detected_barbs_NoDup lines config :
  NoDup (map obj lines) ->
  NoDup (flat_map (fun a => [obj (left_barb a); obj (right_barb a)])
                  (detect_arrows_in_drawing lines config)).
Proof.
  intros Hobj.
  destruct (detect_arrows_found lines config) as (ts & Hall & Hnd & _).
  destruct (barb_objects _ _ _ _ Hall) as [-> Hlt].
  apply NoDup_fmap_2_strong; [|done].
  intros j k Hj Hk. rewrite Forall_forall in Hlt.
  apply obj_lookup_inj; auto.
Qed.

Lemma detected_shafts_NoDup lines config :
  NoDup (map obj lines) ->
  NoDup (map (fun a => (obj (shaft a), direction a))
             (detect_arrows_in_drawing lines config)).
Proof.
  intros Hobj.
  destruct (detect_arrows_found lines config) as (ts & Hall & _ & Hnd).
  destruct (shaft_objects _ _ _ _ Hall) as [-> Hlt].
  rewrite Forall_forall in Hlt.
  replace (map (fun t => (obj (lines !!! ai_shaft t), ai_dir t)) ts)
    with (map (fun p : nat * Direction => (obj (lines !!! fst p), snd p))
              (map (fun t => (ai_shaft t, ai_dir t)) ts))
    by (now rewrite map_map).
  apply NoDup_fmap_2_strong; [|done].
  intros [i d] [i' d'] Hp Hp' [= E ->]. cbn in E.
  apply list_elem_of_fmap in Hp as (t & [= -> ->] & Ht).
  apply list_elem_of_fmap in Hp' as (t' & [= -> ->] & Ht').
  f_equal. apply (obj_lookup_inj lines); auto.
Qed.

(** C6. On a list of distinct segments, no segment stands in a barb
    position (left or right) more than once over the whole list of arrows
    returned.  The mechanism: an endpoint test that accepts a pair adds
    both indices to [used_barbs], and [check_symmetrical_lines] never
    returns a pair that contains an index of [used_barbs]. *)
Theorem barbs_are_exclusive (lines : list Line) (config : Config) :
  NoDup (map obj lines) ->
  NoDup (flat_map (fun a => [obj (left_barb a); obj (right_barb a)])
                  (detect_arrows_in_drawing lines config))
  /\ (forall shaft_line used meeting j k,
        check_symmetrical_lines shaft_line lines (map line_length lines) used
                                (ARROW_DETECTION config) meeting = Some (j, k) ->
        (j ∉ used) /\ (k ∉ used))
  /\ (forall line_i meeting tip dir arrows used arrows' used',
        check_endpoint lines (map line_length lines) (ARROW_DETECTION config)
                       line_i meeting tip dir (arrows, used) = (arrows', used') ->
        (arrows' = arrows /\ used' = used)
        \/ exists j k,
             arrows' = arrows ++ [mkArrow line_i (lines !!! j) (lines !!! k)
                                          tip dir None]
             /\ used' = used ∪ {[j]} ∪ {[k]}).
Proof.
  intros Hobj. split; [now apply detected_barbs_NoDup|]. split.
  - intros *. apply check_symmetrical_lines_unused.
  - intros * H. apply check_endpoint_marks in H as [H | (j & k & _ & _ & H)];
      [now left | right; eauto].
Qed.

(** C2, as amended. On a list of distinct segments, no segment stands in
    a barb position more than once over the whole list of arrows returned,
    and no segment is the shaft of two arrows with the same direction: a
    segment is the shaft of at most one arrow per endpoint. *)
Theorem segment_roles_amended (lines : list Line) (config : Config) :
  NoDup (map obj lines) ->
  NoDup (flat_map (fun a => [obj (left_barb a); obj (right_barb a)])
                  (detect_arrows_in_drawing lines config))
  /\ NoDup (map (fun a => (obj (shaft a), direction a))
                (detect_arrows_in_drawing lines config)).
Proof.
  intros Hobj. split; [now apply detected_barbs_NoDup | now apply detected_shafts_NoDup].
Qed.

(** ** Boundary line detection *)

Lemma boundary_step_test cfg al tip sh matched bl line :
  boundary_step cfg al tip sh (matched, bl) line
  = if boundary_test cfg al tip sh line
    then (matched ++ [line], bl ++ [line]) else (matched, bl).
Proof.
  unfold boundary_step, boundary_test.
  destruct (bool_decide _); [done|].
  destruct (Rltb _ _); [done|]. cbn [negb andb].
  destruct (Rleb _ _ && Rleb _ _); done.
Qed.

Lemma boundary_fold cfg al tip sh lines : forall matched bl,
  fold_left (boundary_step cfg al tip sh) lines (matched, bl)
  = (matched ++ List.filter (boundary_test cfg al tip sh) lines,
     bl ++ List.filter (boundary_test cfg al tip sh) lines).
Proof.
  induction lines as [|line lines IH]; intros matched bl.
  - cbn. now rewrite !app_nil_r.
  - cbn [fold_left List.filter]. rewrite boundary_step_test.
    destruct (boundary_test cfg al tip sh line); rewrite IH.
    + now rewrite <- !app_assoc.
    + done.
Qed.

(** [detect_boundary_lines] extends the boundary list of every leader by
    the lines that pass the three tests for it, and touches nothing else. *)
Lemma boundary_loop_map cfg al lines leaders : forall bl,
  boundary_loop cfg al lines leaders bl
  = (map (fun l => set_matched_boundaries
                     (matched_boundaries l ++ boundaries_of cfg al lines (arrow l)) l)
         leaders,
     bl ++ flat_map (fun l => boundaries_of cfg al lines (arrow l)) leaders).
Proof.
  induction leaders as [|leader rest IH]; intros bl.
  - cbn. now rewrite app_nil_r.
  - cbn [boundary_loop map flat_map]. rewrite boundary_fold, IH.
    unfold boundaries_of at 3 5. now rewrite <- app_assoc.
Qed.

Lemma arrow_lines_fold leaders : forall (s : gset nat) o,
  o ∈ fold_left (fun s leader =>
                   s ∪ {[obj (shaft (arrow leader))]}
                     ∪ {[obj (left_barb (arrow leader))]}
                     ∪ {[obj (right_barb (arrow leader))]}) leaders s
  <-> o ∈ s \/ exists l, l ∈ leaders
                        /\ (o = obj (shaft (arrow l))
                            \/ o = obj (left_barb (arrow l))
                            \/ o = obj (right_barb (arrow l))).
Proof.
  induction leaders as [|leader rest IH]; intros s o; cbn [fold_left].
  - split; [tauto|]. intros [?|(l & H & _)]; [done|]. now apply elem_of_nil in H.
  - rewrite IH, !elem_of_union, !elem_of_singleton. split.
    + intros [[[[?|?]|?]|?]|(l & Hl & H)]; try tauto.
      * right. exists leader. split; [left|tauto].
      * right. exists leader. split; [left|tauto].
      * right. exists leader. split; [left|tauto].
      * right. exists l. split; [now right|done].
    + intros [?|(l & Hl & H)]; [tauto|].
      apply elem_of_cons in Hl as [-> | Hl]; [tauto|].
      right. exists l. done.
Qed.

Lemma arrow_lines_of_elem leaders o :
  o ∈ arrow_lines_of leaders
  <-> exists l, l ∈ leaders
                /\ (o = obj (shaft (arrow l))
                    \/ o = obj (left_barb (arrow l))
                    \/ o = obj (right_barb (arrow l))).
Proof.
  unfold arrow_lines_of. rewrite arrow_lines_fold. split; [|tauto].
  intros [H|H]; [|done]. now apply not_elem_of_empty in H.
Qed.

Lemma boundary_test_true cfg al tip sh line :
  boundary_test cfg al tip sh line = true <->
  (obj line ∉ al)
  /\ Rmin (distance tip (start_point line)) (distance tip (end_point line))
     <= max_distance_to_arrow cfg
  /\ perpendicular_angle_min cfg <= angle_between sh line
     <= perpendicular_angle_max cfg.
Proof.
  unfold boundary_test.
  rewrite !andb_true_iff, !negb_true_iff, bool_decide_eq_false, Rltb_false,
    !Rleb_true. tauto.
Qed.

Lemma filter_sublist {A} (f : A -> bool) (l : list A) :
  List.filter f l `sublist_of` l.
Proof.
  induction l as [|a l IH]; cbn; [constructor|].
  destruct (f a); [now apply sublist_skip | now apply sublist_cons].
Qed.


(** ** Text matching *)

Lemma closest_step_ok maxd pos seen st it :
  closest_ok maxd pos seen st ->
  closest_ok maxd pos (seen ++ [it]) (closest_step maxd pos st it).
Proof.
  destruct st as [md c], it as [tn textn]. unfold closest_ok, closest_step.
  cbn [fst snd].
  set (d := distance pos (position textn)).
  destruct c as [t|].
  - intros (text & s1 & s2 & -> & -> & Hlt & H1 & H2). cbn [lt_efloat].
    destruct (Rltb d maxd) eqn:Ed; cbn [andb].
    + destruct (Rltb d (distance pos (position text))) eqn:Em; cbn [snd fst].
      * apply Rltb_true in Ed, Em.
        exists textn, (s1 ++ (t, text) :: s2), []. repeat split; try done.
        -- intros t' text' Hin Hw.
           apply elem_of_app in Hin as [Hin|Hin].
           ++ specialize (H1 _ _ Hin Hw). fold d. lra.
           ++ apply elem_of_cons in Hin as [[= -> ->]|Hin]; [done|].
              specialize (H2 _ _ Hin Hw). fold d. lra.
        -- intros t' text' Hin. now apply elem_of_nil in Hin.
      * apply Rltb_true in Ed. apply Rltb_false in Em.
        exists text, s1, (s2 ++ [(tn, textn)]). rewrite <- app_assoc.
        repeat split; try done.
        intros t' text' Hin Hw. apply elem_of_app in Hin as [Hin|Hin].
        -- now apply (H2 t').
        -- apply list_elem_of_singleton in Hin. now inversion Hin; subst.
    + apply Rltb_false in Ed. cbn [snd fst].
      exists text, s1, (s2 ++ [(tn, textn)]). rewrite <- app_assoc.
      repeat split; try done.
      intros t' text' Hin Hw. apply elem_of_app in Hin as [Hin|Hin].
      * now apply (H2 t').
      * apply list_elem_of_singleton in Hin. inversion Hin; subst.
        fold d in Hw. lra.
  - intros [-> Hall]. cbn [lt_efloat]. rewrite andb_true_r.
    destruct (Rltb d maxd) eqn:Ed; cbn [snd fst].
    + apply Rltb_true in Ed. exists textn, seen, []. repeat split; try done.
      * intros t' text' Hin Hw. specialize (Hall _ _ Hin). lra.
      * intros t' text' Hin. now apply elem_of_nil in Hin.
    + apply Rltb_false in Ed. split; [done|].
      intros t' text' Hin. apply elem_of_app in Hin as [Hin|Hin].
      * now apply (Hall t').
      * apply list_elem_of_singleton in Hin. now inversion Hin; subst.
Qed.

Lemma closest_fold_ok maxd pos its : forall seen st,
  closest_ok maxd pos seen st ->
  closest_ok maxd pos (seen ++ its) (fold_left (closest_step maxd pos) its st).
Proof.
  induction its as [|it its IH]; intros seen st H.
  - now rewrite app_nil_r.
  - cbn [fold_left]. replace (seen ++ it :: its) with ((seen ++ [it]) ++ its)
      by (now rewrite <- app_assoc).
    apply IH. now apply closest_step_ok.
Qed.

Lemma enumerate_split {A} (l : list A) s1 t a s2 :
  enumerate l = s1 ++ (t, a) :: s2 ->
  l !! t = Some a
  /\ forall t' a', l !! t' = Some a' -> (t' < t)%nat -> (t', a') ∈ s1.
Proof.
  intros E.
  assert (Ht : t = length s1).
  { pose proof (list_lookup_middle s1 s2 (t, a) (length s1) eq_refl) as H.
    rewrite <- E in H. unfold enumerate in H.
    apply list_lookup_imap_Some in H as (y & _ & [= -> _]). done. }
  split.
  - apply enumerate_lookup. rewrite E. apply elem_of_app. right. left.
  - intros t' a' H Hlt. apply enumerate_lookup_index in H. rewrite E in H.
    rewrite lookup_app_l in H by lia. apply list_elem_of_lookup. eauto.
Qed.

Lemma find_closest_text_ok maxd pos texts :
  closest_ok maxd pos (enumerate texts)
    (fold_left (closest_step maxd pos) (enumerate texts) (Infinity, None)).
Proof.
  apply (closest_fold_ok maxd pos (enumerate texts) [] (Infinity, None)).
  split; [done|]. intros t' text' H. now apply elem_of_nil in H.
Qed.

(** The text chosen for a position is within the cutoff and nearest among
    the texts within the cutoff, and the first such text of the list. *)
Lemma find_closest_text_Some maxd pos texts t :
  find_closest_text maxd pos texts = Some t ->
  exists text,
    texts !! t = Some text
    /\ distance pos (position text) < maxd
    /\ forall t' text', texts !! t' = Some text' ->
         distance pos (position text') < maxd ->
         distance pos (position text) <= distance pos (position text')
         /\ ((t' < t)%nat ->
             distance pos (position text) < distance pos (position text')).
Proof.
  unfold find_closest_text. intros H.
  pose proof (find_closest_text_ok maxd pos texts) as Hok.
  unfold closest_ok in Hok. rewrite H in Hok.
  destruct Hok as (text & s1 & s2 & E & _ & Hlt & H1 & H2).
  destruct (enumerate_split _ _ _ _ _ E) as [Ht Hs1].
  exists text. split; [done|]. split; [done|].
  intros t' text' Ht' Hw. split.
  - apply enumerate_lookup in Ht'. rewrite E in Ht'.
    apply elem_of_app in Ht' as [Hin|Hin].
    + specialize (H1 _ _ Hin Hw). lra.
    + apply elem_of_cons in Hin as [[= -> ->]|Hin]; [lra|].
      now apply (H2 t').
  - intros Hlt'. apply (H1 t'); [|done]. now apply Hs1.
Qed.

Lemma find_closest_text_None maxd pos texts :
  find_closest_text maxd pos texts = None ->
  forall t' text', texts !! t' = Some text' ->
    maxd <= distance pos (position text').
Proof.
  unfold find_closest_text. intros H.
  pose proof (find_closest_text_ok maxd pos texts) as Hok.
  unfold closest_ok in Hok. rewrite H in Hok. destruct Hok as [_ Hall].
  intros t' text' Ht'. apply (Hall t'). now apply enumerate_lookup.
Qed.

Lemma closest_fold_positions maxd pos texts1 : forall texts2 (g : nat -> nat) st,
  map position texts1 = map position texts2 ->
  fold_left (closest_step maxd pos) (imap (fun i t => (g i, t)) texts1) st
  = fold_left (closest_step maxd pos) (imap (fun i t => (g i, t)) texts2) st.
Proof.
  induction texts1 as [|a texts1 IH]; intros [|b texts2] g st H; try done.
  cbn in H. injection H as Hab H.
  rewrite !imap_cons. cbn [fold_left].
  replace (closest_step maxd pos st (g 0%nat, b))
    with (closest_step maxd pos st (g 0%nat, a))
    by (unfold closest_step; cbn [fst snd]; now rewrite Hab).
  apply (IH texts2 (g ∘ S)). exact H.
Qed.

Lemma find_closest_text_positions maxd pos texts1 texts2 :
  map position texts1 = map position texts2 ->
  find_closest_text maxd pos texts1 = find_closest_text maxd pos texts2.
Proof.
  intros H. unfold find_closest_text. f_equal.
  apply (closest_fold_positions maxd pos texts1 texts2 (fun i => i) _ H).
Qed.

Lemma positions_alter n t texts :
  map position (alter (add_matched_arrow n) t texts) = map position texts.
Proof.
  change (position <$> alter (add_matched_arrow n) t texts = position <$> texts).
  rewrite (list_fmap_alter position (add_matched_arrow n) (fun p => p)).
  - now apply list_alter_id.
  - apply Forall_forall. done.
Qed.

Lemma match_loop_positions maxd leaders : forall n texts,
  map position (snd (match_loop maxd n leaders texts)) = map position texts.
Proof.
  induction leaders as [|leader rest IH]; intros n texts; [done|].
  cbn [match_loop].
  destruct (find_closest_text maxd (leader_position leader) texts) as [t|].
  - specialize (IH (S n) (alter (add_matched_arrow n) t texts)).
    destruct (match_loop maxd (S n) rest _) as [rest' texts']. cbn [snd] in *.
    now rewrite IH, positions_alter.
  - specialize (IH (S n) texts).
    destruct (match_loop maxd (S n) rest texts) as [rest' texts']. done.
Qed.

(** Each leader is matched on its own: the choice depends on the leader's
    indicator position and on the positions of the texts only. *)
Lemma match_loop_leaders maxd leaders : forall n texts,
  fst (match_loop maxd n leaders texts)
  = map (fun l => match find_closest_text maxd (leader_position l) texts with
                  | Some t => set_matched_text t l
                  | None => l
                  end) leaders.
Proof.
  induction leaders as [|leader rest IH]; intros n texts; [done|].
  cbn [match_loop map].
  destruct (find_closest_text maxd (leader_position leader) texts) as [t|].
  - specialize (IH (S n) (alter (add_matched_arrow n) t texts)).
    destruct (match_loop maxd (S n) rest _) as [rest' texts']. cbn [fst] in *.
    rewrite IH. f_equal. apply map_ext. intros l.
    now rewrite (find_closest_text_positions maxd (leader_position l) _ texts
                   (positions_alter n t texts)).
  - specialize (IH (S n) texts).
    destruct (match_loop maxd (S n) rest texts) as [rest' texts']. cbn [fst] in *.
    now rewrite IH.
Qed.

(** Back-references are only ever added. *)
Lemma match_loop_mono maxd leaders : forall n texts t text,
  texts !! t = Some text ->
  exists text', snd (match_loop maxd n leaders texts) !! t = Some text'
                /\ forall m, m ∈ matched_arrows text -> m ∈ matched_arrows text'.
Proof.
  induction leaders as [|leader rest IH]; intros n texts t text Ht.
  - exists text. done.
  - cbn [match_loop].
    destruct (find_closest_text maxd (leader_position leader) texts) as [t0|].
    + destruct (decide (t0 = t)) as [-> | Hne].
      * destruct (IH (S n) (alter (add_matched_arrow n) t texts) t
                     (add_matched_arrow n text)) as (text' & Ht' & Hm).
        { now rewrite list_lookup_alter_eq, Ht. }
        destruct (match_loop maxd (S n) rest _) as [rest' texts']. cbn [snd] in *.
        exists text'. split; [done|]. intros m Hin. apply Hm. cbn.
        apply elem_of_app. now left.
      * destruct (IH (S n) (alter (add_matched_arrow n) t0 texts) t text)
          as (text' & Ht' & Hm).
        { now rewrite list_lookup_alter_ne. }
        destruct (match_loop maxd (S n) rest _) as [rest' texts']. cbn [snd] in *.
        exists text'. done.
    + destruct (IH (S n) texts t text Ht) as (text' & Ht' & Hm).
      destruct (match_loop maxd (S n) rest texts) as [rest' texts']. cbn [snd] in *.
      exists text'. done.
Qed.

(** The text chosen for a leader records the leader. *)
Lemma match_loop_backref maxd leaders : forall n texts k leader t,
  leaders !! k = Some leader ->
  find_closest_text maxd (leader_position leader) texts = Some t ->
  exists text', snd (match_loop maxd n leaders texts) !! t = Some text'
                /\ (n + k)%nat ∈ matched_arrows text'.
Proof.
  induction leaders as [|l0 rest IH]; intros n texts k leader t Hk Hf; [done|].
  destruct k as [|k].
  - cbn in Hk. injection Hk as ->. cbn [match_loop]. rewrite Hf.
    destruct (find_closest_text_Some _ _ _ _ Hf) as (text & Ht & _).
    destruct (match_loop_mono maxd rest (S n) (alter (add_matched_arrow n) t texts)
                t (add_matched_arrow n text)) as (text' & Ht' & Hm).
    { now rewrite list_lookup_alter_eq, Ht. }
    destruct (match_loop maxd (S n) rest _) as [rest' texts']. cbn [snd] in *.
    exists text'. split; [done|]. apply Hm. cbn. rewrite Nat.add_0_r.
    apply elem_of_app. right. left.
  - cbn in Hk. cbn [match_loop].
    replace (n + S k)%nat with (S n + k)%nat by lia.
    destruct (find_closest_text maxd (leader_position l0) texts) as [t0|].
    + destruct (IH (S n) (alter (add_matched_arrow n) t0 texts) k leader t Hk)
        as (text' & Ht' & Hin).
      { now rewrite (find_closest_text_positions maxd _ _ texts
                       (positions_alter n t0 texts)). }
      destruct (match_loop maxd (S n) rest _) as [rest' texts']. cbn [snd] in *.
      exists text'. done.
    + destruct (IH (S n) texts k leader t Hk Hf) as (text' & Ht' & Hin).
      destruct (match_loop maxd (S n) rest texts) as [rest' texts']. cbn [snd] in *.
      exists text'. done.
Qed.

(** ** The two matching passes are independent *)






(** * Evaluation on concrete drawings *)

(** ** Numeric facts *)

Lemma cos_lower v : -2 <= v <= 2 -> 1 - v * v / 2 <= cos v.
Proof.
  intros [H1 H2]. pose proof (pre_cos_bound v 0 H1 H2) as [H _].
  unfold cos_approx, cos_term in H. simpl in H. lra.
Qed.

Lemma acos_decr a b : -1 <= a -> a <= b -> b <= 1 -> acos b <= acos a.
Proof.
  intros Ha Hab Hb.
  pose proof (acos_bound a) as [? ?]. pose proof (acos_bound b) as [? ?].
  apply cos_decr_0; try assumption.
  rewrite !cos_acos by lra. exact Hab.
Qed.

Lemma PI_bounds : 3 < PI <= 4.
Proof. pose proof PI2_3_2. pose proof PI_4. lra. Qed.

Lemma acos_half : acos (1 / 2) = PI / 3.
Proof. rewrite <- cos_PI3. apply acos_cos. pose proof PI_bounds. lra. Qed.

Lemma degrees_le r k : r <= k * PI / 180 -> degrees r <= k.
Proof.
  intros H. unfold degrees. pose proof PI_bounds as [P1 P2].
  apply (Rmult_le_reg_r (PI / 180)); [lra|].
  replace (r * (180 / PI) * (PI / 180)) with r by (field; lra). lra.
Qed.

Lemma degrees_ge r k : k * PI / 180 <= r -> k <= degrees r.
Proof.
  intros H. unfold degrees. pose proof PI_bounds as [P1 P2].
  apply (Rmult_le_reg_r (PI / 180)); [lra|].
  replace (r * (180 / PI) * (PI / 180)) with r by (field; lra). lra.
Qed.

Lemma degrees_quarter : degrees (PI / 4) = 45.
Proof. unfold degrees. pose proof PI_bounds. field. lra. Qed.

(** An angle whose cosine lies between 1/2 and 9/10 lies between 5 and 60
    degrees. *)
Lemma degrees_acos_mid c : 1 / 2 <= c <= 9 / 10 -> 5 <= degrees (acos c) <= 60.
Proof.
  intros [H1 H2]. pose proof PI_bounds as [P1 P2]. split.
  - apply degrees_ge.
    assert (H : 9 / 10 <= cos (5 * PI / 180)).
    { pose proof (cos_lower (5 * PI / 180)) as Hc.
      assert (Hr : -2 <= 5 * PI / 180 <= 2) by lra. specialize (Hc Hr). nra. }
    transitivity (acos (cos (5 * PI / 180))).
    + rewrite acos_cos by lra. lra.
    + apply acos_decr; try lra. pose proof (COS_bound (5 * PI / 180)). lra.
  - apply degrees_le. transitivity (acos (1 / 2)).
    + apply acos_decr; lra.
    + rewrite acos_half. lra.
Qed.

Lemma clamp_id c : -1 <= c <= 1 -> clamp c = c.
Proof.
  intros [H1 H2]. unfold clamp. rewrite (Rmin_right 1 c) by lra.
  apply Rmax_right. lra.
Qed.

Lemma sqrt_eq t c : 0 <= c -> t = c * c -> sqrt t = c.
Proof. intros Hc ->. now apply sqrt_square. Qed.

Lemma sqrt_lt_c t c : 0 <= t < c * c -> 0 <= c -> sqrt t < c.
Proof.
  intros [H0 H1] Hc. rewrite <- (sqrt_square c Hc). apply sqrt_lt_1_alt. lra.
Qed.

Lemma sqrt_le_c t c : 0 <= t <= c * c -> 0 <= c -> sqrt t <= c.
Proof.
  intros [H0 H1] Hc. rewrite <- (sqrt_square c Hc). apply sqrt_le_1_alt. lra.
Qed.

Lemma c_lt_sqrt t c : 0 <= c -> c * c < t -> c < sqrt t.
Proof.
  intros Hc H. rewrite <- (sqrt_square c Hc). apply sqrt_lt_1_alt. nra.
Qed.

Lemma c_le_sqrt t c : 0 <= c -> c * c <= t -> c <= sqrt t.
Proof.
  intros Hc H. rewrite <- (sqrt_square c Hc). apply sqrt_le_1_alt. lra.
Qed.

Lemma sqrt2_bounds : 1 < sqrt 2 < 2.
Proof. split; [apply c_lt_sqrt; lra | apply sqrt_lt_c; lra]. Qed.

Lemma sqrt5_bounds : 20 / 9 < sqrt 5 < 4.
Proof. split; [apply c_lt_sqrt; lra | apply sqrt_lt_c; lra]. Qed.

(** Order between closed expressions built from constants and square
    roots of constants. *)
Ltac Rorder :=
  first
    [ lra
    | apply sqrt_lt_1_alt; lra
    | apply sqrt_le_1_alt; lra
    | apply sqrt_lt_c; lra
    | apply sqrt_le_c; lra
    | apply c_lt_sqrt; lra
    | apply c_le_sqrt; lra ].

(** Settles the comparisons of such expressions in the goal. *)
Ltac Rdecide :=
  repeat match goal with
    | |- context [Rltb ?a ?b] =>
        first [ rewrite (proj2 (Rltb_true a b)) by Rorder
              | rewrite (proj2 (Rltb_false a b)) by Rorder ]
    | |- context [Rleb ?a ?b] =>
        first [ rewrite (proj2 (Rleb_true a b)) by Rorder
              | rewrite (proj2 (Rleb_false a b)) by Rorder ]
    end.

(** ** One step of each pass *)

Lemma angle_between_proper line1 line2 :
  line_length line1 <> 0 -> line_length line2 <> 0 ->
  angle_between line1 line2
  = degrees (acos (clamp (dot_product (direction_vector line1) (direction_vector line2)
                          / (line_length line1 * line_length line2)))).
Proof.
  intros H1 H2. unfold angle_between. rewrite !magnitude_line_length.
  apply Reqb_false in H1, H2. now rewrite H1, H2.
Qed.

Lemma angle_between_value line1 line2 m1 m2 d :
  line_length line1 = m1 -> line_length line2 = m2 -> 0 < m1 -> 0 < m2 ->
  dot_product (direction_vector line1) (direction_vector line2) = d ->
  -1 <= d / (m1 * m2) <= 1 ->
  angle_between line1 line2 = degrees (acos (d / (m1 * m2))).
Proof.
  intros H1 H2 P1 P2 Hd Hc.
  rewrite angle_between_proper by lra. now rewrite H1, H2, Hd, clamp_id.
Qed.

Lemma angle_between_45 line1 line2 m1 m2 d :
  line_length line1 = m1 -> line_length line2 = m2 -> 0 < m1 -> 0 < m2 ->
  dot_product (direction_vector line1) (direction_vector line2) = d ->
  d / (m1 * m2) = / sqrt 2 ->
  angle_between line1 line2 = 45.
Proof.
  intros H1 H2 P1 P2 Hd Hc. pose proof sqrt2_bounds as [B1 B2].
  rewrite (angle_between_value _ _ m1 m2 d) by
    (try done; rewrite Hc;
     assert (0 < / sqrt 2) by (apply Rinv_0_lt_compat; lra);
     assert (/ sqrt 2 < / 1) by (apply Rinv_lt_contravar; lra);
     lra).
  now rewrite Hc, acos_inv_sqrt2, degrees_quarter.
Qed.

Lemma are_lines_parallel_false line1 line2 :
  5 <= angle_between line1 line2 <= 175 ->
  are_lines_parallel line1 line2 5 = false.
Proof.
  intros [H1 H2]. unfold are_lines_parallel.
  rewrite (proj2 (Rltb_false _ _)) by lra.
  rewrite (proj2 (Rltb_false _ _)) by lra. done.
Qed.

Lemma meeting_step_not_shorter tol lens i line_i ml j line_j :
  lens !!! i <= lens !!! j ->
  meeting_step tol lens i line_i ml (j, line_j) = ml.
Proof.
  intros H. unfold meeting_step. destruct (Nat.eqb i j); [done|].
  apply Rleb_true in H. now rewrite H.
Qed.

Lemma meeting_step_far tol lens i line_i ml j line_j d i_point j_point :
  closest_endpoints line_i line_j = (d, i_point, j_point) -> tol < d ->
  meeting_step tol lens i line_i ml (j, line_j) = ml.
Proof.
  intros Hc H. unfold meeting_step. destruct (Nat.eqb i j); [done|].
  destruct (Rleb _ _); [done|]. destruct (are_lines_parallel _ _ _); [done|].
  rewrite Hc. apply Rleb_false in H. now rewrite H.
Qed.

Lemma meeting_step_record tol lens i line_i ml j line_j d i_point j_point :
  i <> j -> lens !!! j < lens !!! i ->
  are_lines_parallel line_i line_j 5 = false ->
  closest_endpoints line_i line_j = (d, i_point, j_point) -> d <= tol ->
  meeting_step tol lens i line_i ml (j, line_j)
  = match i_point with
    | DStart => mkMeeting (ml_start ml ++ [(j, j_point)]) (ml_end ml)
    | _ => mkMeeting (ml_start ml) (ml_end ml ++ [(j, j_point)])
    end.
Proof.
  intros Hij Hlen Hp Hc Hd. unfold meeting_step.
  apply Nat.eqb_neq in Hij. apply Rleb_false in Hlen. apply Rleb_true in Hd.
  now rewrite Hij, Hlen, Hp, Hc, Hd.
Qed.

Lemma barb_pair_ok_intro shaft_line lines lens used cfg j k :
  j ∉ used -> k ∉ used ->
  Rabs (lens !!! j - lens !!! k) <= barb_length_diff_max cfg ->
  angle_between shaft_line (lines !!! j) <= arrow_angle_max cfg ->
  angle_between shaft_line (lines !!! k) <= arrow_angle_max cfg ->
  Rabs (angle_between shaft_line (lines !!! j)
        - angle_between shaft_line (lines !!! k)) <= barb_angle_diff_max cfg ->
  barb_pair_ok shaft_line lines lens used cfg j k = true.
Proof.
  intros Hj Hk H1 H2 H3 H4. unfold barb_pair_ok.
  rewrite !bool_decide_eq_false_2 by done. cbn [orb].
  apply Rltb_false in H1, H2, H3, H4. now rewrite H1, H2, H3, H4.
Qed.

Lemma check_endpoint_few lines lens cfg line_i meeting tip dir st :
  (length meeting < 2)%nat ->
  check_endpoint lines lens cfg line_i meeting tip dir st = st.
Proof.
  intros H. unfold check_endpoint. destruct st as [arrows used].
  apply Nat.leb_gt in H. now rewrite H.
Qed.

Lemma check_endpoint_pair lines lens cfg line_i j j_point k k_point tip dir
    arrows used :
  barb_pair_ok line_i lines lens used cfg j k = true ->
  check_endpoint lines lens cfg line_i [(j, j_point); (k, k_point)] tip dir
                 (arrows, used)
  = (arrows ++ [mkArrow line_i (lines !!! j) (lines !!! k) tip dir None],
     used ∪ {[j]} ∪ {[k]}).
Proof.
  intros H. unfold check_endpoint, check_symmetrical_lines.
  cbn [length Nat.leb Nat.ltb first_pair first_partner]. now rewrite H.
Qed.

Lemma find_closest_text_single_near maxd pos text :
  distance pos (position text) < maxd ->
  find_closest_text maxd pos [text] = Some 0%nat.
Proof.
  intros H. unfold find_closest_text, enumerate. cbn [imap fold_left].
  unfold closest_step. cbn [fst snd lt_efloat].
  apply Rltb_true in H. now rewrite H.
Qed.

Lemma find_closest_text_single_far maxd pos text :
  maxd <= distance pos (position text) ->
  find_closest_text maxd pos [text] = None.
Proof.
  intros H. unfold find_closest_text, enumerate. cbn [imap fold_left].
  unfold closest_step. cbn [fst snd lt_efloat].
  apply Rltb_false in H. now rewrite H.
Qed.

(** The nearest pair of endpoints of two given lines. *)
Ltac closest_eval :=
  unfold closest_endpoints, min_by_key, distance; cbn; Rdecide; reflexivity.

(** Evaluates the innermost iterations of the second pass: the pair is
    skipped on the lengths, or recorded (the fact that it is not parallel
    is taken from the context), or too far apart. *)
Ltac meeting_eval :=
  repeat match goal with
    | |- context [meeting_step ?t ?l ?i ?li (mkMeeting ?a ?b) (?j, ?lj)] =>
        first
          [ rewrite (meeting_step_not_shorter t l i li (mkMeeting a b) j lj)
              by (cbn; Rorder)
          | erewrite (meeting_step_record t l i li (mkMeeting a b) j lj);
            [|lia|cbn; Rorder|eassumption|closest_eval|Rorder];
            cbn [ml_start ml_end app]
          | erewrite (meeting_step_far t l i li (mkMeeting a b) j lj);
            [|closest_eval|Rorder] ]
    end.

(** Evaluates the innermost endpoint tests of the third pass; [pair_ok]
    proves that the tests on a pair of barbs succeed. *)
Ltac endpoints_eval pair_ok :=
  repeat match goal with
    | |- context [check_endpoint ?l ?ln ?c ?li ?m ?tip ?dir (?a, ?u)] =>
        first
          [ rewrite (check_endpoint_few l ln c li m tip dir (a, u)) by (cbn; lia)
          | match m with
            | [(?j, ?jp); (?k, ?kp)] =>
                rewrite (check_endpoint_pair l ln c li j jp k kp tip dir a u)
                  by pair_ok
            end ]
    end.

(** An index that is in none of the singletons of [used_barbs]. *)
Ltac fresh_index :=
  rewrite ?not_elem_of_union, ?not_elem_of_singleton;
  repeat split; first [apply not_elem_of_empty | lia].

(** ** The arrow of the specification *)

Lemma spec_length_shaft : line_length spec_shaft = 10.
Proof. unfold line_length. cbn. apply sqrt_eq; lra. Qed.

Lemma spec_length_barb1 : line_length spec_barb1 = sqrt 5.
Proof. unfold line_length. cbn. f_equal. ring. Qed.

Lemma spec_length_barb2 : line_length spec_barb2 = sqrt 5.
Proof. unfold line_length. cbn. f_equal. ring. Qed.

Lemma spec_cos_bounds : 1 / 2 <= 20 / (10 * sqrt 5) <= 9 / 10.
Proof.
  pose proof sqrt5_bounds as [H1 H2].
  assert (Hq : 0 < / sqrt 5) by (apply Rinv_0_lt_compat; lra).
  assert (Hs : sqrt 5 * / sqrt 5 = 1) by (apply Rinv_r; lra).
  replace (20 / (10 * sqrt 5)) with (2 * / sqrt 5) by (field; lra).
  nra.
Qed.

(** Both barbs make the same angle with the shaft, about 26.6 degrees. *)
Lemma spec_angle barb :
  barb ∈ [spec_barb1; spec_barb2] ->
  angle_between spec_shaft barb = degrees (acos (20 / (10 * sqrt 5))).
Proof.
  pose proof sqrt5_bounds as B. pose proof spec_cos_bounds as C.
  intros H. repeat (apply elem_of_cons in H as [-> | H]);
    [..|now apply elem_of_nil in H].
  - apply angle_between_value; try lra.
    + apply spec_length_shaft.
    + apply spec_length_barb1.
    + unfold dot_product, direction_vector. cbn. ring.
  - apply angle_between_value; try lra.
    + apply spec_length_shaft.
    + apply spec_length_barb2.
    + unfold dot_product, direction_vector. cbn. ring.
Qed.

Lemma spec_angle_bounds : 5 <= degrees (acos (20 / (10 * sqrt 5))) <= 60.
Proof. apply degrees_acos_mid, spec_cos_bounds. Qed.

Lemma spec_not_parallel barb :
  barb ∈ [spec_barb1; spec_barb2] -> are_lines_parallel spec_shaft barb 5 = false.
Proof.
  intros H. apply are_lines_parallel_false. rewrite (spec_angle _ H).
  pose proof spec_angle_bounds. lra.
Qed.

Lemma spec_pair_ok lines lens j k :
  lines !!! j ∈ [spec_barb1; spec_barb2] ->
  lines !!! k ∈ [spec_barb1; spec_barb2] ->
  lens !!! j = sqrt 5 -> lens !!! k = sqrt 5 ->
  barb_pair_ok spec_shaft lines lens ∅ (ARROW_DETECTION CONFIG) j k = true.
Proof.
  intros Hj Hk Lj Lk. pose proof spec_angle_bounds as [A1 A2].
  apply barb_pair_ok_intro; [apply not_elem_of_empty..| | | |].
  - rewrite Lj, Lk, Rminus_diag, Rabs_R0. cbn. lra.
  - rewrite (spec_angle _ Hj). cbn. lra.
  - rewrite (spec_angle _ Hk). cbn. lra.
  - rewrite (spec_angle _ Hj), (spec_angle _ Hk), Rminus_diag, Rabs_R0. cbn. lra.
Qed.

(** The detection on the three segments, given in any fixed order. *)
Ltac spec_detection_eval :=
  pose proof sqrt5_bounds as [? ?];
  pose proof (spec_not_parallel spec_barb1 ltac:(set_solver));
  pose proof (spec_not_parallel spec_barb2 ltac:(set_solver));
  unfold detect_arrows_in_drawing;
  cbn [CONFIG ARROW_DETECTION tip_point_tolerance map];
  rewrite spec_length_shaft, spec_length_barb1, spec_length_barb2;
  unfold meeting_pass, enumerate;
  cbn [imap map fold_left fst snd compose];
  meeting_eval;
  unfold symmetry_pass, enumerate;
  cbn [imap fold_left compose];
  unfold symmetry_step;
  cbn [lookup_total list_lookup_total ml_start ml_end];
  endpoints_eval ltac:(apply spec_pair_ok; first [set_solver | reflexivity]);
  reflexivity.

Lemma spec_detection :
  detect_arrows_in_drawing spec_lines CONFIG
  = [mkArrow spec_shaft spec_barb1 spec_barb2 (mkPoint 0 0) DEnd (Some 1%nat)].
Proof. unfold spec_lines. spec_detection_eval. Qed.

Lemma spec_detection_any_order lines :
  lines ∈ permutations spec_lines ->
  detect_arrows_in_drawing lines CONFIG
  = [mkArrow spec_shaft spec_barb1 spec_barb2 (mkPoint 0 0) DEnd (Some 1%nat)]
  \/ detect_arrows_in_drawing lines CONFIG
     = [mkArrow spec_shaft spec_barb2 spec_barb1 (mkPoint 0 0) DEnd (Some 1%nat)].
Proof.
  change (permutations spec_lines)
    with [[spec_shaft; spec_barb1; spec_barb2]; [spec_barb1; spec_shaft; spec_barb2];
          [spec_barb1; spec_barb2; spec_shaft]; [spec_shaft; spec_barb2; spec_barb1];
          [spec_barb2; spec_shaft; spec_barb1]; [spec_barb2; spec_barb1; spec_shaft]].
  intros H. repeat (apply elem_of_cons in H as [-> | H]);
    [..|now apply elem_of_nil in H].
  - left. spec_detection_eval.
  - left. spec_detection_eval.
  - left. spec_detection_eval.
  - right. spec_detection_eval.
  - right. spec_detection_eval.
  - right. spec_detection_eval.
Qed.

(** C1. On the three segments of the specification, in whatever order
    they are given, and with the default configuration, the detection
    returns exactly one arrow: its shaft is the long segment, its barbs
    are the two short segments, its tip point is (0,0), that is the
    shaft's end point, and its direction is ['end']. *)
Theorem spec_arrow_detected (lines : list Line) :
  lines ≡ₚ spec_lines ->
  exists a,
    detect_arrows_in_drawing lines CONFIG = [a]
    /\ shaft a = spec_shaft
    /\ (left_barb a = spec_barb1 /\ right_barb a = spec_barb2
        \/ left_barb a = spec_barb2 /\ right_barb a = spec_barb1)
    /\ tip_point a = mkPoint 0 0
    /\ tip_point a = end_point (shaft a)
    /\ direction a = DEnd.
Proof.
  intros H. symmetry in H. apply permutations_Permutation in H.
  destruct (spec_detection_any_order lines H) as [-> | ->];
    eexists; (split; [reflexivity|]); cbn; tauto.
Qed.

Lemma spec_arrow_detected_witness :
  exists a, detect_arrows_in_drawing spec_lines CONFIG = [a] /\ direction a = DEnd.
Proof.
  destruct (spec_arrow_detected spec_lines (Permutation_refl spec_lines))
    as (a & H1 & _ & _ & _ & _ & H2).
  exists a. split; [exact H1 | exact H2].
Defined.

(** ** A dimension line with two arrow heads *)

Lemma dim_length_shaft : line_length dim_shaft = 10.
Proof. unfold line_length. cbn. apply sqrt_eq; lra. Qed.

Lemma dim_length_barb line :
  line ∈ [dim_b1; dim_b2; dim_b3; dim_b4] -> line_length line = sqrt 2.
Proof.
  intros H. repeat (apply elem_of_cons in H as [-> | H]);
    [..|now apply elem_of_nil in H].
  all: unfold line_length; cbn; f_equal; ring.
Qed.

Lemma dim_length_small line :
  line ∈ [dim_f1; dim_f2] -> line_length line = 1 / 2.
Proof.
  intros H. repeat (apply elem_of_cons in H as [-> | H]);
    [..|now apply elem_of_nil in H].
  all: unfold line_length; cbn; apply sqrt_eq; lra.
Qed.

Lemma dim_lengths :
  map line_length dim_lines
  = [10; sqrt 2; sqrt 2; sqrt 2; sqrt 2; 1 / 2; 1 / 2].
Proof.
  unfold dim_lines. cbn [map]. rewrite dim_length_shaft.
  rewrite !dim_length_barb by (repeat first [left | right]).
  rewrite !dim_length_small by (repeat first [left | right]).
  reflexivity.
Qed.

(** The four barbs stand at 45 degrees to the long segment. *)
Lemma dim_angle_shaft line :
  line ∈ [dim_b1; dim_b2; dim_b3; dim_b4] -> angle_between dim_shaft line = 45.
Proof.
  pose proof sqrt2_bounds as [B1 B2]. intros H.
  apply (angle_between_45 _ _ 10 (sqrt 2) 10); try lra.
  - apply dim_length_shaft.
  - now apply dim_length_barb.
  - repeat (apply elem_of_cons in H as [-> | H]); [..|now apply elem_of_nil in H].
    all: unfold dot_product, direction_vector; cbn; ring.
  - field. lra.
Qed.

(** The two small segments stand at 45 degrees to the first barb. *)
Lemma dim_angle_b1 line :
  line ∈ [dim_f1; dim_f2] -> angle_between dim_b1 line = 45.
Proof.
  pose proof sqrt2_bounds as [B1 B2]. intros H.
  apply (angle_between_45 _ _ (sqrt 2) (1 / 2) (1 / 2)); try lra.
  - apply dim_length_barb. left.
  - now apply dim_length_small.
  - repeat (apply elem_of_cons in H as [-> | H]); [..|now apply elem_of_nil in H].
    all: unfold dot_product, direction_vector; cbn; lra.
  - field. lra.
Qed.

Lemma not_parallel_45 line1 line2 :
  angle_between line1 line2 = 45 -> are_lines_parallel line1 line2 5 = false.
Proof. intros H. apply are_lines_parallel_false. rewrite H. lra. Qed.

Lemma dim_meeting_lines :
  meeting_pass dim_lines (map line_length dim_lines) (1 / 10)
  = [mkMeeting [(1%nat, DStart); (2%nat, DStart)] [(3%nat, DStart); (4%nat, DStart)];
     mkMeeting [] [(5%nat, DStart); (6%nat, DStart)];
     mkMeeting [] []; mkMeeting [] []; mkMeeting [] []; mkMeeting [] [];
     mkMeeting [] []].
Proof.
  rewrite dim_lengths. pose proof sqrt2_bounds as [B1 B2].
  assert (P1 : are_lines_parallel dim_shaft dim_b1 5 = false)
    by (apply not_parallel_45, dim_angle_shaft; repeat first [left | right]).
  assert (P2 : are_lines_parallel dim_shaft dim_b2 5 = false)
    by (apply not_parallel_45, dim_angle_shaft; repeat first [left | right]).
  assert (P3 : are_lines_parallel dim_shaft dim_b3 5 = false)
    by (apply not_parallel_45, dim_angle_shaft; repeat first [left | right]).
  assert (P4 : are_lines_parallel dim_shaft dim_b4 5 = false)
    by (apply not_parallel_45, dim_angle_shaft; repeat first [left | right]).
  assert (P5 : are_lines_parallel dim_b1 dim_f1 5 = false)
    by (apply not_parallel_45, dim_angle_b1; repeat first [left | right]).
  assert (P6 : are_lines_parallel dim_b1 dim_f2 5 = false)
    by (apply not_parallel_45, dim_angle_b1; repeat first [left | right]).
  unfold meeting_pass, dim_lines, enumerate.
  cbn [imap map fold_left fst snd compose].
  meeting_eval. reflexivity.
Qed.

Lemma dim_pair_ok shaft_line used j k :
  angle_between shaft_line (dim_lines !!! j) = 45 ->
  angle_between shaft_line (dim_lines !!! k) = 45 ->
  [10; sqrt 2; sqrt 2; sqrt 2; sqrt 2; 1 / 2; 1 / 2] !!! j
  = [10; sqrt 2; sqrt 2; sqrt 2; sqrt 2; 1 / 2; 1 / 2] !!! k ->
  j ∉ used -> k ∉ used ->
  barb_pair_ok shaft_line dim_lines
    [10; sqrt 2; sqrt 2; sqrt 2; sqrt 2; 1 / 2; 1 / 2] used
    (ARROW_DETECTION CONFIG) j k = true.
Proof.
  intros Aj Ak Hl Hj Hk. apply barb_pair_ok_intro; [done|done| | | |].
  - rewrite Hl, Rminus_diag, Rabs_R0. cbn. lra.
  - rewrite Aj. cbn. lra.
  - rewrite Ak. cbn. lra.
  - rewrite Aj, Ak, Rminus_diag, Rabs_R0. cbn. lra.
Qed.

(** The detection finds three arrows: one at each end of the long
    segment, and one at the far end of the first barb. *)
Lemma dim_detection :
  detect_arrows_in_drawing dim_lines CONFIG
  = [mkArrow dim_shaft dim_b1 dim_b2 (mkPoint 0 0) DStart (Some 1%nat);
     mkArrow dim_shaft dim_b3 dim_b4 (mkPoint 10 0) DEnd (Some 2%nat);
     mkArrow dim_b1 dim_f1 dim_f2 (mkPoint 1 1) DEnd (Some 3%nat)].
Proof.
  unfold detect_arrows_in_drawing.
  cbn [CONFIG ARROW_DETECTION tip_point_tolerance].
  rewrite dim_meeting_lines, dim_lengths.
  unfold symmetry_pass, enumerate, dim_lines.
  cbn [imap fold_left compose].
  unfold symmetry_step.
  cbn [lookup_total list_lookup_total ml_start ml_end].
  fold dim_lines.
  endpoints_eval
    ltac:(apply dim_pair_ok;
          [ first [apply dim_angle_shaft | apply dim_angle_b1];
            repeat first [left | right]
          | first [apply dim_angle_shaft | apply dim_angle_b1];
            repeat first [left | right]
          | reflexivity
          | fresh_index
          | fresh_index ]).
  reflexivity.
Qed.

Lemma dim_objects_distinct : NoDup (map obj dim_lines).
Proof. apply (bool_decide_unpack _). vm_compute. exact I. Qed.

(** The claim C2 as stated fails on this drawing: its segments are
    distinct objects, yet the long segment is the shaft of two arrows, and
    the first barb of the first arrow is the shaft of the third. *)
Lemma dim_segments_reused :
  NoDup (map obj dim_lines)
  /\ (exists a1 a2 a3,
        detect_arrows_in_drawing dim_lines CONFIG = [a1; a2; a3]
        /\ shaft a1 = shaft a2
        /\ left_barb a1 = shaft a3)
  /\ ~ NoDup (arrow_roles (detect_arrows_in_drawing dim_lines CONFIG)).
Proof.
  split; [apply dim_objects_distinct|].
  rewrite dim_detection. split.
  - eexists _, _, _. split; [reflexivity|]. split; reflexivity.
  - cbn. intros H. apply NoDup_cons in H as [H _]. apply H.
    right. right. left.
Qed.

(** ** Text matching: the cutoff, and labels shared by leaders *)

(** The claim C5 as stated fails for a label that lies exactly at the
    cutoff: its distance to the indicator position is 10, which is
    [max_distance], and the leader stays unmatched. *)
Lemma label_at_cutoff_unmatched :
  map (fun l => distance (leader_position l) (position (label_at (mkPoint 20 0))))
      spec_leaders = [10]
  /\ max_distance (LEADER_ARROW_MATCHING CONFIG) = 10
  /\ map matched_text
         (fst (match_texts_to_arrows spec_leaders [label_at (mkPoint 20 0)] CONFIG))
     = [None].
Proof.
  assert (Hd : distance (mkPoint 10 0) (mkPoint 20 0) = 10)
    by (unfold distance; cbn; apply sqrt_eq; lra).
  split; [|split; [done|]].
  - unfold spec_leaders, create_arrow_leaders. cbn. now rewrite Hd.
  - unfold match_texts_to_arrows. rewrite match_loop_leaders.
    unfold spec_leaders, create_arrow_leaders. cbn [map imap].
    rewrite find_closest_text_single_far; [done|].
    cbn. rewrite Hd. lra.
Qed.

(** The three leaders of [dim_lines] all get the one label. *)
Lemma dim_leaders_share_label :
  map matched_text
      (fst (match_texts_to_arrows dim_leaders [label_at (mkPoint 5 1)] CONFIG))
  = [Some 0%nat; Some 0%nat; Some 0%nat].
Proof.
  unfold match_texts_to_arrows. rewrite match_loop_leaders.
  unfold dim_leaders, create_arrow_leaders. cbn [map imap compose].
  rewrite !find_closest_text_single_near; [done|..].
  all: unfold distance; cbn; apply sqrt_lt_c; lra.
Qed.

(** C5, as amended. Text matching gives every leader the first text of
    least distance to the leader's indicator position among the texts
    whose distance is strictly below [max_distance], and that text
    records the leader in [matched_arrows]; when no text is strictly
    closer than [max_distance] the leader is left as it was (unmatched,
    for a leader fresh from leader assembly).  Several leaders can get the
    same text. *)
Theorem text_matching_amended (arrow_leaders : list ArrowLeader)
    (texts : list TextEntity) (config : Config) (n : nat) (leader : ArrowLeader) :
  arrow_leaders !! n = Some leader ->
  let maxd := max_distance (LEADER_ARROW_MATCHING config) in
  let pos := leader_position leader in
  let result := match_texts_to_arrows arrow_leaders texts config in
  (exists leader',
      fst result !! n = Some leader'
      /\ ((exists t text text',
              matched_text leader' = Some t
              /\ texts !! t = Some text
              /\ distance pos (position text) < maxd
              /\ (forall t2 text2, texts !! t2 = Some text2 ->
                    distance pos (position text2) < maxd ->
                    distance pos (position text) <= distance pos (position text2)
                    /\ ((t2 < t)%nat ->
                        distance pos (position text) < distance pos (position text2)))
              /\ snd result !! t = Some text'
              /\ n ∈ matched_arrows text')
          \/ ((forall t2 text2, texts !! t2 = Some text2 ->
                 maxd <= distance pos (position text2))
              /\ leader' = leader)))
  /\ (exists leaders0 texts0 t,
        map matched_text (fst (match_texts_to_arrows leaders0 texts0 CONFIG))
        = [Some t; Some t; Some t]).
Proof.
  intros Hn maxd pos result. split; [|eexists _, _, _; apply dim_leaders_share_label].
  unfold result, match_texts_to_arrows. fold maxd.
  rewrite match_loop_leaders, list_lookup_fmap, Hn. cbn [fmap option_fmap option_map].
  eexists. split; [reflexivity|]. fold pos.
  destruct (find_closest_text maxd pos texts) as [t|] eqn:Hf.
  - left. destruct (find_closest_text_Some _ _ _ _ Hf) as (text & Ht & Hlt & Hmin).
    destruct (match_loop_backref maxd arrow_leaders 0 texts n leader t Hn Hf)
      as (text' & Ht' & Hin).
    exists t, text, text'. repeat split; try done. all: now apply (Hmin t2).
  - right. split; [|done]. now apply find_closest_text_None.
Qed.

(** ** The properties on the example drawings *)

Lemma spec_objects_distinct : NoDup (map obj spec_lines).
Proof. apply (bool_decide_unpack _). vm_compute. exact I. Qed.


Lemma detected_arrow_invariant_witness :
  line_length (left_barb spec_arrow) < line_length (shaft spec_arrow).
Proof.
  assert (H : spec_arrow ∈ detect_arrows_in_drawing spec_lines CONFIG).
  { rewrite spec_detection. apply list_elem_of_singleton. reflexivity. }
  destruct (detected_arrow_invariant spec_lines CONFIG spec_arrow H) as [H1 _].
  exact H1.
Defined.

Lemma barbs_are_exclusive_witness :
  NoDup (flat_map (fun a => [obj (left_barb a); obj (right_barb a)])
                  (detect_arrows_in_drawing spec_lines CONFIG)).
Proof.
  destruct (barbs_are_exclusive spec_lines CONFIG spec_objects_distinct) as [H _].
  exact H.
Defined.

Lemma segment_roles_amended_witness :
  NoDup (map (fun a => (obj (shaft a), direction a))
             (detect_arrows_in_drawing dim_lines CONFIG)).
Proof.
  destruct (segment_roles_amended dim_lines CONFIG dim_objects_distinct) as [_ H].
  exact H.
Defined.


Lemma text_matching_amended_witness :
  exists leader',
    fst (match_texts_to_arrows spec_leaders [label_at (mkPoint 12 0)] CONFIG) !! 0%nat
    = Some leader'.
Proof.
  destruct (text_matching_amended spec_leaders [label_at (mkPoint 12 0)] CONFIG 0 _
              eq_refl) as [(leader' & H & _) _].
  exists leader'. exact H.
Defined.

(** * Further properties of the code *)

(** The properties of this part that mention distances, lengths or angles
    use the order and the sign of the computed values and the symmetries
    of the formulas only; none of them rests on an identity that the
    rounding of floats would break. *)

(** ** Distances and angles *)

Lemma distance_nonneg p q : 0 <= distance p q.
Proof. apply sqrt_pos. Qed.

Lemma distance_sym p q : distance p q = distance q p.
Proof. unfold distance. cbn. f_equal. ring. Qed.

Lemma distance_self p : distance p p = 0.
Proof.
  unfold distance. cbn. replace (_ * _ + _ * _) with 0 by ring. apply sqrt_0.
Qed.

(** X1. [distance] does not depend on the order of its two points, it
    is never negative, and it is 0 from a point to itself.  The length of
    a line is the distance between its two end points, taken in either
    order. *)
Theorem distance_symmetric (p q : Point) (line : Line) :
  distance p q = distance q p
  /\ 0 <= distance p q
  /\ distance p p = 0
  /\ line_length line = distance (start_point line) (end_point line)
  /\ line_length line = distance (end_point line) (start_point line).
Proof.
  split; [apply distance_sym|]. split; [apply distance_nonneg|].
  split; [apply distance_self|]. split; [reflexivity|].
  rewrite distance_sym. reflexivity.
Qed.




Lemma line_length_reversed line line' :
  start_point line' = end_point line -> end_point line' = start_point line ->
  line_length line' = line_length line.
Proof.
  intros Hs He. unfold line_length. rewrite Hs, He. f_equal. ring.
Qed.

Lemma direction_vector_reversed line line' :
  start_point line' = end_point line -> end_point line' = start_point line ->
  direction_vector line'
  = (- fst (direction_vector line), - snd (direction_vector line)).
Proof.
  intros Hs He. unfold direction_vector. rewrite Hs, He. cbn [fst snd].
  f_equal; ring.
Qed.

(** Reversing both segments negates both direction vectors, which the
    dot product and the two magnitudes do not see. *)
Lemma angle_between_both_reversed line1 line1' line2 line2' :
  start_point line1' = end_point line1 -> end_point line1' = start_point line1 ->
  start_point line2' = end_point line2 -> end_point line2' = start_point line2 ->
  angle_between line1' line2' = angle_between line1 line2.
Proof.
  intros Hs1 He1 Hs2 He2. unfold angle_between.
  rewrite (direction_vector_reversed _ _ Hs1 He1).
  rewrite (direction_vector_reversed _ _ Hs2 He2).
  unfold dot_product. cbn [fst snd].
  replace ((- fst (direction_vector line1)) ^ 2 + (- snd (direction_vector line1)) ^ 2)
    with (fst (direction_vector line1) ^ 2 + snd (direction_vector line1) ^ 2)
    by ring.
  replace ((- fst (direction_vector line2)) ^ 2 + (- snd (direction_vector line2)) ^ 2)
    with (fst (direction_vector line2) ^ 2 + snd (direction_vector line2) ^ 2)
    by ring.
  replace (- fst (direction_vector line1) * - fst (direction_vector line2)
           + - snd (direction_vector line1) * - snd (direction_vector line2))
    with (fst (direction_vector line1) * fst (direction_vector line2)
          + snd (direction_vector line1) * snd (direction_vector line2))
    by ring.
  reflexivity.
Qed.

(** X3. Reversing the direction of a segment (swapping its start and end
    point) keeps its length, and reversing both of two segments keeps the
    angle between them and the result of [are_lines_parallel]. *)
Theorem reversal_keeps_angle (line1 line1' line2 line2' : Line)
    (angle_threshold : R) :
  start_point line1' = end_point line1 -> end_point line1' = start_point line1 ->
  start_point line2' = end_point line2 -> end_point line2' = start_point line2 ->
  line_length line1' = line_length line1
  /\ angle_between line1' line2' = angle_between line1 line2
  /\ are_lines_parallel line1' line2' angle_threshold
     = are_lines_parallel line1 line2 angle_threshold.
Proof.
  intros Hs1 He1 Hs2 He2. split; [now apply line_length_reversed|].
  split; [now apply angle_between_both_reversed|].
  unfold are_lines_parallel.
  now rewrite (angle_between_both_reversed _ _ _ _ Hs1 He1 Hs2 He2).
Qed.

Lemma reversal_keeps_angle_witness :
  angle_between (Line_init 3 (mkPoint 0 0) (mkPoint 10 0))
                (Line_init 4 (mkPoint (-2) 1) (mkPoint 0 0))
  = angle_between spec_shaft spec_barb1.
Proof.
  destruct (reversal_keeps_angle spec_shaft (Line_init 3 (mkPoint 0 0) (mkPoint 10 0))
              spec_barb1 (Line_init 4 (mkPoint (-2) 1) (mkPoint 0 0)) 5
              eq_refl eq_refl eq_refl eq_refl) as (_ & H & _).
  exact H.
Defined.

(** X4. The indicator position that [get_leader_position] returns for
    the tip at the start or at the end of a line is the other end of the
    line, one line length away from the tip.  On the reversed line the
    positions for ['start'] and ['end'] are exchanged and the position
    for ['both'] is the same. *)
Theorem leader_position_distances (arrow_line reversed : Line) :
  distance (get_leader_position arrow_line DStart) (start_point arrow_line)
  = line_length arrow_line
  /\ distance (get_leader_position arrow_line DEnd) (end_point arrow_line)
     = line_length arrow_line
  /\ (start_point reversed = end_point arrow_line ->
      end_point reversed = start_point arrow_line ->
      get_leader_position reversed DStart = get_leader_position arrow_line DEnd
      /\ get_leader_position reversed DEnd = get_leader_position arrow_line DStart
      /\ get_leader_position reversed DBoth = get_leader_position arrow_line DBoth).
Proof.
  split; [|split].
  - unfold get_leader_position, line_length, distance. cbn. f_equal; ring.
  - unfold get_leader_position, line_length, distance. cbn. f_equal; ring.
  - intros Hs He. unfold get_leader_position. rewrite Hs, He.
    split; [done|]. split; [done|]. f_equal; lra.
Qed.

(** ** LEADER and POLYLINE entities *)

Lemma lookup_total_head (vs : list Point) v :
  head vs = Some v -> vs !!! 0%nat = v.
Proof. destruct vs; [done|]. now intros [= ->]. Qed.

Lemma lookup_total_last (vs : list Point) v :
  last vs = Some v -> vs !!! (length vs - 1)%nat = v.
Proof.
  intros H. apply list_lookup_total_correct.
  rewrite last_lookup in H. rewrite <- H. f_equal. lia.
Qed.

Lemma get_arrow_point_head l :
  LeaderEntity.get_arrow_point l = head (LeaderEntity.vertices l).
Proof.
  unfold LeaderEntity.get_arrow_point. now destruct (LeaderEntity.vertices l).
Qed.

Lemma get_text_point_last l :
  LeaderEntity.get_text_point l = last (LeaderEntity.vertices l).
Proof.
  unfold LeaderEntity.get_text_point.
  destruct (LeaderEntity.vertices l) as [|v vs] eqn:E; [done|].
  destruct (last (v :: vs)) as [w|] eqn:El.
  - now rewrite (lookup_total_last _ _ El).
  - now apply last_None in El.
Qed.

(** X5. A leader without vertices has neither an arrow point nor a text
    point; otherwise the arrow point is the first vertex and the text point
    the last one, so that they coincide on a single vertex and are swapped
    when the vertices are listed in the opposite order. *)
Theorem leader_entity_points (h la : string) (vs : list Point) (ah : bool)
    (co : option Z) (lt : option string) (mt : option nat) (i : option string) :
  let leader := LeaderEntity.mk h la vs ah co lt mt i in
  let reversed := LeaderEntity.mk h la (reverse vs) ah co lt mt i in
  (LeaderEntity.get_arrow_point leader = None <-> vs = [])
  /\ (LeaderEntity.get_text_point leader = None <-> vs = [])
  /\ LeaderEntity.get_arrow_point leader = head vs
  /\ LeaderEntity.get_text_point leader = last vs
  /\ LeaderEntity.get_arrow_point reversed = LeaderEntity.get_text_point leader
  /\ LeaderEntity.get_text_point reversed = LeaderEntity.get_arrow_point leader.
Proof.
  intros leader reversed.
  rewrite !get_arrow_point_head, !get_text_point_last. cbn.
  split; [now destruct vs|]. split; [apply last_None|].
  split; [done|]. split; [done|].
  split; [apply head_reverse | apply last_reverse].
Qed.

Lemma fold_left_map {A B C} (f : A -> C -> A) (g : B -> C) l a :
  fold_left f (map g l) a = fold_left (fun a b => f a (g b)) l a.
Proof. revert a. induction l as [|b l IH]; intros a; [done|]. cbn. apply IH. Qed.

Lemma fold_left_ext_in {A B} (f g : A -> B -> A) l a :
  (forall a b, f a b = g a b) -> fold_left f l a = fold_left g l a.
Proof.
  intros H. revert a. induction l as [|b l IH]; intros a; [done|].
  cbn. rewrite H. apply IH.
Qed.

(** The loop of [get_total_length] adds up the path through the
    vertices. *)
Lemma total_loop_path (vs : list Point) : forall v acc,
  fold_left (fun total i =>
               total + distance ((v :: vs) !!! i) ((v :: vs) !!! (i + 1)%nat))
            (seq 0 (length vs)) acc
  = acc + path_length (v :: vs).
Proof.
  induction vs as [|w vs IH]; intros v acc.
  - cbn. lra.
  - cbn [length]. rewrite <- cons_seq, <- fmap_S_seq. cbn [fold_left].
    change (S <$> seq 0 (length vs)) with (map S (seq 0 (length vs))).
    rewrite fold_left_map.
    rewrite (fold_left_ext_in _
               (fun total i =>
                  total + distance ((w :: vs) !!! i) ((w :: vs) !!! (i + 1)%nat)))
      by done.
    rewrite IH. cbn [path_length].
    change ((v :: w :: vs) !!! 0%nat) with v.
    change ((v :: w :: vs) !!! (0 + 1)%nat) with w. lra.
Qed.

Lemma get_total_length_path p :
  PolylineEntity.get_total_length p
  = if Nat.ltb (length (PolylineEntity.vertices p)) 2 then 0
    else path_length (PolylineEntity.vertices p)
         + (if PolylineEntity.is_closed p
            then distance (PolylineEntity.vertices p
                             !!! (length (PolylineEntity.vertices p) - 1)%nat)
                          (PolylineEntity.vertices p !!! 0%nat)
            else 0).
Proof.
  unfold PolylineEntity.get_total_length.
  destruct (Nat.ltb _ 2) eqn:E; [done|].
  destruct (PolylineEntity.vertices p) as [|v vs]; [done|].
  cbn [length]. replace (S (length vs) - 1)%nat with (length vs) by lia.
  rewrite total_loop_path. destruct (PolylineEntity.is_closed p); lra.
Qed.

Lemma path_length_nonneg vs : 0 <= path_length vs.
Proof.
  induction vs as [|v [|w vs] IH]; cbn; try lra.
  pose proof (distance_nonneg v w). cbn in IH. lra.
Qed.

(** A path is at least as long as each of its segments. *)
Lemma path_length_segment vs : forall k v w,
  vs !! k = Some v -> vs !! (k + 1)%nat = Some w -> distance v w <= path_length vs.
Proof.
  induction vs as [|v0 [|v1 vs] IH]; intros k v w Hv Hw; [done| |].
  - destruct k; cbn in Hw; done.
  - change (path_length (v0 :: v1 :: vs))
      with (distance v0 v1 + path_length (v1 :: vs)).
    pose proof (path_length_nonneg (v1 :: vs)) as Hn.
    pose proof (distance_nonneg v0 v1) as Hd.
    destruct k as [|k].
    + cbn in Hv, Hw. injection Hv as <-. injection Hw as <-. lra.
    + specialize (IH k v w Hv Hw). lra.
Qed.

Lemma path_length_zero vs :
  path_length vs = 0
  <-> forall k v w, vs !! k = Some v -> vs !! (k + 1)%nat = Some w ->
        distance v w = 0.
Proof.
  split.
  - intros H k v w Hv Hw.
    pose proof (path_length_segment vs k v w Hv Hw).
    pose proof (distance_nonneg v w). lra.
  - induction vs as [|v0 [|v1 vs] IH]; intros H; [done|done|].
    change (path_length (v0 :: v1 :: vs))
      with (distance v0 v1 + path_length (v1 :: vs)).
    rewrite (H 0%nat v0 v1 eq_refl eq_refl), IH; [lra|].
    intros k v w Hv Hw. exact (H (S k) v w Hv Hw).
Qed.

(** X6. The total length of a polyline is never negative and at least
    the length of each of its segments.  A closed polyline has the total
    length of the open one on the same vertices plus the distance from
    the last vertex back to the first, so that it is not shorter than the
    open one nor than this closing segment. *)
Theorem polyline_length_bounds (h la : string) (vs : list Point) (closed : bool)
    (ty : string) (co : option Z) (lw : option R) (lt : option string)
    (i : option string) (first lst : Point) :
  head vs = Some first -> last vs = Some lst ->
  let polyline := PolylineEntity.mk h la vs closed ty co lw lt i in
  let opened := PolylineEntity.mk h la vs false ty co lw lt i in
  let closed_up := PolylineEntity.mk h la vs true ty co lw lt i in
  0 <= PolylineEntity.get_total_length polyline
  /\ (forall k v w, vs !! k = Some v -> vs !! (k + 1)%nat = Some w ->
        distance v w <= PolylineEntity.get_total_length polyline)
  /\ ((2 <= length vs)%nat ->
      PolylineEntity.get_total_length closed_up
      = PolylineEntity.get_total_length opened + distance lst first
      /\ distance lst first <= PolylineEntity.get_total_length closed_up)
  /\ PolylineEntity.get_total_length opened
     <= PolylineEntity.get_total_length closed_up.
Proof.
  intros Hh Hl polyline opened closed_up.
  pose proof (path_length_nonneg vs) as Hp.
  pose proof (distance_nonneg lst first) as Hn.
  unfold polyline, opened, closed_up. rewrite !get_total_length_path.
  cbn [PolylineEntity.vertices PolylineEntity.is_closed].
  rewrite (lookup_total_head _ _ Hh), (lookup_total_last _ _ Hl).
  destruct (Nat.ltb (length vs) 2) eqn:E.
  - apply Nat.ltb_lt in E. split; [lra|]. split; [|split; [lia|lra]].
    intros k v w Hv Hw. apply lookup_lt_Some in Hw. lia.
  - split; [destruct closed; lra|]. split; [|split; [intros _; split; lra|lra]].
    intros k v w Hv Hw. pose proof (path_length_segment vs k v w Hv Hw).
    destruct closed; lra.
Qed.

Lemma polyline_length_bounds_witness :
  distance (mkPoint 3 0) (mkPoint 3 4)
  <= PolylineEntity.get_total_length
       (PolylineEntity.mk "2A" "0" [mkPoint 0 0; mkPoint 3 0; mkPoint 3 4] false
                          "LWPOLYLINE" None None None None).
Proof.
  destruct (polyline_length_bounds "2A" "0" [mkPoint 0 0; mkPoint 3 0; mkPoint 3 4]
              false "LWPOLYLINE" None None None None (mkPoint 0 0) (mkPoint 3 4)
              eq_refl eq_refl) as (_ & H & _).
  exact (H 1%nat (mkPoint 3 0) (mkPoint 3 4) eq_refl eq_refl).
Defined.

(** X8. [get_segment_count] and [get_total_length] agree on what a
    segment is.  With fewer than two vertices, and only then, the count is
    0, and the total length is 0 then.  A polyline of two vertices has one
    segment and its length, or, closed, two segments and twice that
    length.  From two vertices on the total length is 0 exactly when
    every segment counted, the closing one of a closed polyline included,
    has the length 0. *)
Theorem polyline_segments_and_length (p : PolylineEntity.t) :
  (PolylineEntity.get_segment_count p = 0%nat
   <-> (length (PolylineEntity.vertices p) < 2)%nat)
  /\ ((length (PolylineEntity.vertices p) < 2)%nat ->
      PolylineEntity.get_total_length p = 0)
  /\ (forall v w, PolylineEntity.vertices p = [v; w] ->
        PolylineEntity.get_segment_count p
        = (if PolylineEntity.is_closed p then 2%nat else 1%nat)
        /\ PolylineEntity.get_total_length p
           = if PolylineEntity.is_closed p then 2 * distance v w else distance v w)
  /\ ((2 <= length (PolylineEntity.vertices p))%nat ->
      (PolylineEntity.get_total_length p = 0
       <-> (forall k v w,
               PolylineEntity.vertices p !! k = Some v ->
               PolylineEntity.vertices p !! (k + 1)%nat = Some w ->
               distance v w = 0)
           /\ (PolylineEntity.is_closed p = true ->
               forall first lst,
                 head (PolylineEntity.vertices p) = Some first ->
                 last (PolylineEntity.vertices p) = Some lst ->
                 distance lst first = 0))).
Proof.
  split; [|split; [|split]].
  - unfold PolylineEntity.get_segment_count.
    destruct (Nat.ltb _ 2) eqn:E.
    + apply Nat.ltb_lt in E. done.
    + apply Nat.ltb_ge in E. destruct (PolylineEntity.is_closed p); lia.
  - intros H. unfold PolylineEntity.get_total_length.
    apply Nat.ltb_lt in H. now rewrite H.
  - intros v w Hvs.
    unfold PolylineEntity.get_segment_count, PolylineEntity.get_total_length.
    rewrite Hvs. cbn. rewrite (distance_sym w v).
    destruct (PolylineEntity.is_closed p); split; done || lra.
  - intros Hlen. rewrite get_total_length_path.
    assert (E : Nat.ltb (length (PolylineEntity.vertices p)) 2 = false)
      by (apply Nat.ltb_ge; lia).
    rewrite E.
    pose proof (path_length_nonneg (PolylineEntity.vertices p)) as Hp.
    destruct (head (PolylineEntity.vertices p)) as [first|] eqn:Hh;
      [|destruct (PolylineEntity.vertices p); cbn in *; [lia|done]].
    destruct (last (PolylineEntity.vertices p)) as [lst|] eqn:Hl;
      [|apply last_None in Hl; rewrite Hl in Hlen; cbn in Hlen; lia].
    rewrite (lookup_total_head _ _ Hh), (lookup_total_last _ _ Hl).
    pose proof (distance_nonneg lst first) as Hn.
    rewrite <- path_length_zero.
    destruct (PolylineEntity.is_closed p).
    + split.
      * intros H. split; [lra|]. intros _ f l [= <-] [= <-]. lra.
      * intros [H1 H2]. rewrite H1, (H2 eq_refl first lst eq_refl eq_refl). lra.
    + split.
      * intros H. split; [lra|]. intros Hc. done.
      * intros [H1 _]. lra.
Qed.

(** ** Layers and entity types *)

Lemma classify_fold_lookup {Entity} (dxftype : Entity -> string) msp ty :
  forall entities : gmap string (list Entity),
  fold_left
    (fun entities entity =>
       <[dxftype entity := default [] (entities !! dxftype entity) ++ [entity]]>
         entities)
    msp entities !! ty
  = match filter (fun e => dxftype e = ty) msp with
    | [] => entities !! ty
    | es => Some (default [] (entities !! ty) ++ es)
    end.
Proof.
  induction msp as [|e msp IH]; intros entities; [done|].
  cbn [fold_left]. rewrite IH. destruct (decide (dxftype e = ty)) as [Heq|Hne].
  - rewrite filter_cons_True by done. subst ty. rewrite lookup_insert_eq.
    destruct (filter _ msp); cbn; [done|]. now rewrite <- app_assoc.
  - rewrite filter_cons_False, lookup_insert_ne by done. done.
Qed.

Lemma classify_entities_lookup {Entity} (dxftype : Entity -> string) msp ty :
  classify_entities dxftype msp !! ty
  = match filter (fun e => dxftype e = ty) msp with
    | [] => None
    | es => Some es
    end.
Proof.
  unfold classify_entities. rewrite classify_fold_lookup, lookup_empty.
  now destruct (filter _ msp).
Qed.

(** X9. [classify_entities] groups the entities by type and keeps their
    order: the list under a type is the model space filtered by that type.
    A type is a key exactly when some entity has it, so no list is
    empty. *)
Theorem classify_entities_groups {Entity : Type} (dxftype : Entity -> string)
    (msp : list Entity) (ty : string) :
  let entities := classify_entities dxftype msp in
  default [] (entities !! ty) = filter (fun e => dxftype e = ty) msp
  /\ (entities !! ty = None <-> forall e, e ∈ msp -> dxftype e <> ty)
  /\ entities !! ty <> Some []
  /\ (forall e, e ∈ msp -> e ∈ default [] (entities !! dxftype e)).
Proof.
  cbn zeta. split; [|split; [|split]].
  - rewrite classify_entities_lookup. now destruct (filter _ msp).
  - rewrite classify_entities_lookup.
    destruct (filter _ msp) as [|e es] eqn:E.
    + split; [|done]. intros _ e He Hty.
      assert (e ∈ filter (fun e => dxftype e = ty) msp) as Hin
          by (now apply list_elem_of_filter).
      rewrite E in Hin. now apply not_elem_of_nil in Hin.
    + split; [done|]. intros H. exfalso.
      assert (e ∈ filter (fun e => dxftype e = ty) msp) as Hin
          by (rewrite E; apply list_elem_of_here).
      apply list_elem_of_filter in Hin as [Hty He]. exact (H e He Hty).
  - rewrite classify_entities_lookup. now destruct (filter _ msp).
  - intros e He. rewrite classify_entities_lookup.
    assert (e ∈ filter (fun e' => dxftype e' = dxftype e) msp) as Hin
        by (now apply list_elem_of_filter).
    destruct (filter (fun e' => dxftype e' = dxftype e) msp); [|done].
    now apply not_elem_of_nil in Hin.
Qed.

Lemma layers_fold_lookup {Entity} (dxftype dxf_layer : Entity -> string) msp name :
  forall layers : gmap string LayerInfo,
  fold_left
    (fun layers entity =>
       let layer_name := dxf_layer entity in
       let layers :=
         match layers !! layer_name with
         | None => <[layer_name := mkLayerInfo 0 ∅]> layers
         | Some _ => layers
         end in
       alter (fun info => mkLayerInfo (entity_count info + 1)
                                      (entity_types info ∪ {[dxftype entity]}))
             layer_name layers)
    msp layers !! name
  = match filter (fun e => dxf_layer e = name) msp with
    | [] => layers !! name
    | _ :: _ =>
        Some (mkLayerInfo
                (entity_count (default (mkLayerInfo 0 ∅) (layers !! name))
                 + length (filter (fun e => dxf_layer e = name) msp))
                (entity_types (default (mkLayerInfo 0 ∅) (layers !! name))
                   ∪ list_to_set (dxftype <$> filter (fun e => dxf_layer e = name) msp)))
    end.
Proof.
  induction msp as [|e msp IH]; intros layers; [done|].
  cbn [fold_left]. rewrite IH. cbn zeta.
  destruct (decide (dxf_layer e = name)) as [Heq|Hne].
  - rewrite filter_cons_True by done. subst name. rewrite lookup_alter_eq.
    assert (Hl : match layers !! dxf_layer e with
                 | None => <[dxf_layer e := mkLayerInfo 0 ∅]> layers
                 | Some _ => layers
                 end !! dxf_layer e
                 = Some (default (mkLayerInfo 0 ∅) (layers !! dxf_layer e))).
    { destruct (layers !! dxf_layer e) as [info|] eqn:E.
      - now rewrite E.
      - now rewrite lookup_insert_eq. }
    rewrite Hl. generalize (default (mkLayerInfo 0 ∅) (layers !! dxf_layer e)).
    intros d.
    destruct (filter _ msp) as [|e' es];
      cbn [fmap option_fmap option_map default from_option Datatypes.id
           entity_count entity_types length list_fmap].
    + f_equal. f_equal; try lia. cbn [list_to_set foldr].
      now rewrite (right_id_L ∅ (∪)).
    + f_equal. f_equal; try lia.
      rewrite (list_to_set_cons (dxftype e)). now rewrite (assoc_L (∪)).
  - rewrite filter_cons_False, lookup_alter_ne by done.
    destruct (layers !! dxf_layer e); [done|]. now rewrite lookup_insert_ne.
Qed.

Lemma extract_layers_lookup {Entity} (dxftype dxf_layer : Entity -> string) msp name :
  extract_layers dxftype dxf_layer msp !! name
  = match filter (fun e => dxf_layer e = name) msp with
    | [] => None
    | _ :: _ =>
        Some (mkLayerInfo
                (length (filter (fun e => dxf_layer e = name) msp))
                (list_to_set (dxftype <$> filter (fun e => dxf_layer e = name) msp)))
    end.
Proof.
  unfold extract_layers. rewrite layers_fold_lookup, lookup_empty.
  destruct (filter _ msp); [done|]. cbn [default entity_count entity_types].
  f_equal. f_equal. now rewrite (left_id_L ∅ (∪)).
Qed.

(** X10. [extract_layers] lists exactly the layers that hold an entity.
    For each of them the count is the number of the entities on the layer,
    which is at least one, and the set of types holds exactly the types of
    these entities. *)
Theorem extract_layers_counts {Entity : Type} (dxftype dxf_layer : Entity -> string)
    (msp : list Entity) (name : string) :
  let layers := extract_layers dxftype dxf_layer msp in
  let on_layer := filter (fun e => dxf_layer e = name) msp in
  (layers !! name = None <-> forall e, e ∈ msp -> dxf_layer e <> name)
  /\ (forall info, layers !! name = Some info ->
      entity_count info = length on_layer
      /\ (0 < entity_count info)%nat
      /\ forall ty, ty ∈ entity_types info
                    <-> exists e, e ∈ msp /\ dxf_layer e = name /\ dxftype e = ty).
Proof.
  cbn zeta. rewrite extract_layers_lookup.
  assert (Hon : forall e, e ∈ filter (fun e => dxf_layer e = name) msp
                          <-> dxf_layer e = name /\ e ∈ msp)
    by (intros e; now rewrite list_elem_of_filter).
  revert Hon. generalize (filter (fun e => dxf_layer e = name) msp).
  intros [|e es] Hon.
  - split; [|done]. split; [|done]. intros _ e He Hl.
    assert (e ∈ []) as Hin by (now apply Hon).
    now apply not_elem_of_nil in Hin.
  - split.
    + split; [done|]. intros H. exfalso.
      destruct (proj1 (Hon e) (list_elem_of_here _ _)) as [Hl He].
      exact (H e He Hl).
    + intros info Hinfo.
      assert (info = mkLayerInfo (length (e :: es))
                                 (list_to_set (dxftype <$> e :: es))) as ->
          by congruence.
      cbn [entity_count entity_types].
      split; [done|]. split; [cbn [length]; lia|]. intros ty.
      rewrite elem_of_list_to_set, list_elem_of_fmap.
      split.
      * intros (x & -> & Hx). apply Hon in Hx as [Hl Hx]. now exists x.
      * intros (x & Hx & Hl & <-). exists x. split; [done|]. now apply Hon.
Qed.

(** X11. The two passes over the model space agree: a type recorded for
    a layer by [extract_layers] is a key of [classify_entities], and the
    list under it holds an entity of that layer.  Neither that list nor
    the count of the layer exceeds the number of the entities. *)
Theorem layer_types_are_classified {Entity : Type}
    (dxftype dxf_layer : Entity -> string) (msp : list Entity)
    (name ty : string) (info : LayerInfo) :
  extract_layers dxftype dxf_layer msp !! name = Some info ->
  ty ∈ entity_types info ->
  exists es e, classify_entities dxftype msp !! ty = Some es
               /\ e ∈ es /\ dxf_layer e = name
               /\ (length es <= length msp)%nat
               /\ (entity_count info <= length msp)%nat.
Proof.
  intros Hinfo Hty. rewrite extract_layers_lookup in Hinfo.
  assert (Hcount : entity_count info
                   = length (filter (fun e => dxf_layer e = name) msp)
                   /\ exists e, e ∈ msp /\ dxf_layer e = name /\ dxftype e = ty).
  { destruct (filter (fun e => dxf_layer e = name) msp) as [|e0 es] eqn:E; [done|].
    assert (info = mkLayerInfo (length (e0 :: es))
                               (list_to_set (dxftype <$> e0 :: es))) as ->
        by congruence.
    cbn [entity_count entity_types] in *. split; [done|].
    apply elem_of_list_to_set, list_elem_of_fmap in Hty as (e & -> & He).
    rewrite <- E in He. apply list_elem_of_filter in He as [Hl He].
    now exists e. }
  destruct Hcount as (Hcount & e & He & Hl & Hty').
  exists (filter (fun e => dxftype e = ty) msp), e.
  rewrite classify_entities_lookup.
  assert (e ∈ filter (fun e => dxftype e = ty) msp) as Hin
      by (now apply list_elem_of_filter).
  split.
  { destruct (filter (fun e => dxftype e = ty) msp); [|done].
    now apply not_elem_of_nil in Hin. }
  split; [done|]. split; [done|].
  split; [apply length_filter|]. rewrite Hcount. apply length_filter.
Qed.

Lemma layer_types_are_classified_witness :
  exists es e,
    classify_entities fst [("LINE", "0"); ("TEXT", "DIM"); ("LINE", "DIM")] !! "LINE"
    = Some es
    /\ e ∈ es /\ snd e = "DIM"
    /\ (length es <= 3)%nat /\ (2 <= 3)%nat.
Proof.
  apply (layer_types_are_classified fst snd
           [("LINE", "0"); ("TEXT", "DIM"); ("LINE", "DIM")] "DIM" "LINE"
           (mkLayerInfo 2 (list_to_set ["TEXT"; "LINE"]))).
  - rewrite extract_layers_lookup. reflexivity.
  - apply elem_of_list_to_set. apply list_elem_of_further, list_elem_of_here.
Defined.

(** ** The contract of the second pass and of the pair search *)








(** ** More on the detection *)

Lemma not_parallel_angle line1 line2 :
  are_lines_parallel line1 line2 5 = false ->
  5 <= angle_between line1 line2 <= 175
  /\ start_point line1 <> end_point line1
  /\ start_point line2 <> end_point line2.
Proof.
  intros Hp.
  assert (Ha : 5 <= angle_between line1 line2 <= 175).
  { split.
    - destruct (Rle_dec 5 (angle_between line1 line2)) as [|Hn]; [done|].
      assert (are_lines_parallel line1 line2 5 = true) as E
          by (apply are_lines_parallel_spec; lra).
      congruence.
    - destruct (Rle_dec (angle_between line1 line2) 175) as [|Hn]; [done|].
      assert (are_lines_parallel line1 line2 5 = true) as E
          by (apply are_lines_parallel_spec; lra).
      congruence. }
  split; [done|]. split; intros E.
  - rewrite (angle_between_degenerate line1 line2) in Ha by tauto. lra.
  - rewrite (angle_between_degenerate line1 line2) in Ha by tauto. lra.
Qed.

Lemma meeting_entry_tolerance tol lens i line_i j line_j i_point j_point :
  meeting_entry tol lens i line_i j line_j i_point j_point -> 0 <= tol.
Proof.
  intros (_ & _ & _ & d & Hc & Hd).
  apply closest_endpoints_distance in Hc as (_ & _ & ->).
  pose proof (distance_nonneg (endpoint i_point line_i) (endpoint j_point line_j)).
  lra.
Qed.

(** What the tests of the second pass say about an arrow found. *)
Lemma arrow_found_facts lines cfg t a :
  arrow_found lines cfg t a ->
  ai_shaft t <> ai_left t /\ ai_shaft t <> ai_right t /\ ai_left t <> ai_right t
  /\ map line_length lines !!! ai_left t < map line_length lines !!! ai_shaft t
  /\ map line_length lines !!! ai_right t < map line_length lines !!! ai_shaft t
  /\ 5 <= angle_between (shaft a) (left_barb a) <= 175
  /\ 5 <= angle_between (shaft a) (right_barb a) <= 175
  /\ start_point (shaft a) <> end_point (shaft a)
  /\ start_point (left_barb a) <> end_point (left_barb a)
  /\ start_point (right_barb a) <> end_point (right_barb a)
  /\ 0 <= tip_point_tolerance cfg.
Proof.
  intros (_ & _ & _ & _ & _ & _ & Hjk & [jp Hmj] & [kp Hmk] & _).
  pose proof (meeting_entry_tolerance _ _ _ _ _ _ _ _ Hmj) as Htol.
  destruct Hmj as (Hij & Hlj & Hpj & _). destruct Hmk as (Hik & Hlk & Hpk & _).
  apply not_parallel_angle in Hpj as (? & ? & ?).
  apply not_parallel_angle in Hpk as (? & ? & ?).
  repeat split; done || lra.
Qed.

Lemma list_max_by {A} (f : A -> R) (l : list A) :
  l <> [] -> exists a, a ∈ l /\ forall b, b ∈ l -> f b <= f a.
Proof.
  induction l as [|a [|b l] IH]; intros Hne; [done| |].
  - exists a. split; [left|]. intros b Hb.
    apply list_elem_of_singleton in Hb. subst b. lra.
  - destruct IH as (m & Hm & Hmax); [done|].
    destruct (Rle_dec (f a) (f m)) as [Hle|Hgt].
    + exists m. split; [now right|]. intros c Hc.
      apply elem_of_cons in Hc as [-> | Hc]; [done | now apply Hmax].
    + exists a. split; [left|]. intros c Hc.
      apply elem_of_cons in Hc as [-> | Hc]; [lra|].
      specialize (Hmax c Hc). lra.
Qed.

Lemma barb_indices_length ts : length (barb_indices ts) = (2 * length ts)%nat.
Proof.
  unfold barb_indices. induction ts as [|t ts IH]; [done|].
  cbn [flat_map app length]. rewrite IH. lia.
Qed.

Lemma barb_indices_elem ts j :
  j ∈ barb_indices ts <-> exists t, t ∈ ts /\ (j = ai_left t \/ j = ai_right t).
Proof.
  induction ts as [|t ts IH].
  - cbn. split; [intros H; now apply elem_of_nil in H|].
    intros (t & H & _). now apply elem_of_nil in H.
  - change (barb_indices (t :: ts)) with ([ai_left t; ai_right t] ++ barb_indices ts).
    rewrite elem_of_app, IH, !elem_of_cons, elem_of_nil. split.
    + intros [[->|[->|[]]] | (t' & Ht' & H)].
      * exists t. split; [left | now left].
      * exists t. split; [left | now right].
      * exists t'. split; [now right | done].
    + intros (t' & Ht' & H). apply elem_of_cons in Ht' as [-> | Ht'].
      * left. tauto.
      * right. now exists t'.
Qed.

Lemma bounded_NoDup_length (l : list nat) n :
  NoDup l -> Forall (fun j => (j < n)%nat) l -> (length l <= n)%nat.
Proof.
  intros Hnd Hlt. rewrite <- (length_seq n 0).
  apply submseteq_length, NoDup_submseteq; [done|].
  intros j Hj. rewrite Forall_forall in Hlt. apply elem_of_seq.
  specialize (Hlt j Hj). lia.
Qed.

(** The longest shaft of the arrows found is the barb of none of them. *)
Lemma longest_shaft_no_barb lines cfg ts arrows :
  Forall2 (arrow_found lines cfg) ts arrows -> ts <> [] ->
  exists i, (i < length lines)%nat /\ i ∉ barb_indices ts.
Proof.
  intros Hall Hne.
  destruct (list_max_by (fun t => map line_length lines !!! ai_shaft t) ts Hne)
    as (tm & Htm & Hmax).
  assert (Hfound : forall t, t ∈ ts -> exists a, arrow_found lines cfg t a).
  { intros t Ht. apply list_elem_of_lookup in Ht as [n Hn].
    destruct (Forall2_lookup_l _ _ _ _ _ Hall Hn) as (a & _ & Ha). eauto. }
  exists (ai_shaft tm). split.
  - destruct (Hfound tm Htm) as (a & Hs & _). now apply lookup_lt_Some in Hs.
  - intros Hin. apply barb_indices_elem in Hin as (t & Ht & Hj).
    destruct (Hfound t Ht) as (a & Ha).
    apply arrow_found_facts in Ha as (_ & _ & _ & Hl & Hr & _).
    specialize (Hmax t Ht). cbn in Hmax.
    destruct Hj as [E | E]; rewrite E in Hmax; lra.
Qed.

Lemma detection_room lines config :
  (2 * length (detect_arrows_in_drawing lines config) <= length lines)%nat
  /\ (detect_arrows_in_drawing lines config <> [] ->
      (2 * length (detect_arrows_in_drawing lines config) + 1 <= length lines)%nat).
Proof.
  destruct (detect_arrows_found lines config) as (ts & Hall & Hnd & _).
  destruct (barb_objects _ _ _ _ Hall) as [_ Hlt].
  rewrite <- (Forall2_length _ _ _ Hall), <- barb_indices_length. split.
  - now apply bounded_NoDup_length.
  - intros Hne.
    assert (Hts : ts <> []).
    { intros ->. apply Forall2_nil_inv_l in Hall. done. }
    destruct (longest_shaft_no_barb _ _ _ _ Hall Hts) as (i & Hi & Hnot).
    replace (length (barb_indices ts) + 1)%nat
      with (length (i :: barb_indices ts)) by (cbn; lia).
    apply bounded_NoDup_length; [now apply NoDup_cons|].
    now constructor.
Qed.

(** X14. The three segments of a detected arrow lie at three different
    positions of [lines], so that they are three different objects when
    the segments of [lines] are; none of them has zero length; and each
    barb makes an angle of 5 to 175 degrees with the shaft, whatever
    [arrow_angle_max] is. *)
Theorem detected_arrow_segments (lines : list Line) (config : Config) (a : Arrow) :
  a ∈ detect_arrows_in_drawing lines config ->
  (exists i j k,
      lines !! i = Some (shaft a) /\ lines !! j = Some (left_barb a)
      /\ lines !! k = Some (right_barb a) /\ i <> j /\ i <> k /\ j <> k)
  /\ (NoDup (map obj lines) ->
      obj (shaft a) <> obj (left_barb a)
      /\ obj (shaft a) <> obj (right_barb a)
      /\ obj (left_barb a) <> obj (right_barb a))
  /\ 5 <= angle_between (shaft a) (left_barb a) <= 175
  /\ 5 <= angle_between (shaft a) (right_barb a) <= 175
  /\ 0 < line_length (shaft a)
  /\ start_point (left_barb a) <> end_point (left_barb a)
  /\ start_point (right_barb a) <> end_point (right_barb a).
Proof.
  intros Ha.
  destruct (detect_arrows_found lines config) as (ts & Hall & _ & _).
  destruct (Forall2_elem_r _ _ _ _ Hall Ha) as (t & _ & Hf).
  pose proof (arrow_found_facts _ _ _ _ Hf)
    as (Hij & Hik & Hjk & Hl & _ & Haj & Hak & _ & Hpj & Hpk & _).
  destruct Hf as (Hs & Hlj & Hlk & _).
  rewrite (lengths_lookup _ _ _ Hs), (lengths_lookup _ _ _ Hlj) in Hl.
  pose proof (line_length_nonneg (left_barb a)).
  split; [exists (ai_shaft t), (ai_left t), (ai_right t); tauto|].
  split; [|repeat split; done || lra].
  intros Hobj.
  assert (Hinj : forall m n l1 l2, lines !! m = Some l1 -> lines !! n = Some l2 ->
                                   obj l1 = obj l2 -> m = n).
  { intros m n l1 l2 H1 H2 E.
    apply (NoDup_lookup _ m n (obj l1) Hobj).
    - now rewrite list_lookup_fmap, H1.
    - now rewrite list_lookup_fmap, H2, E. }
  repeat split; intros E.
  - apply Hij. exact (Hinj _ _ _ _ Hs Hlj E).
  - apply Hik. exact (Hinj _ _ _ _ Hs Hlk E).
  - apply Hjk. exact (Hinj _ _ _ _ Hlj Hlk E).
Qed.

Lemma detected_arrow_segments_witness :
  5 <= angle_between (shaft spec_arrow) (left_barb spec_arrow) <= 175.
Proof.
  assert (H : spec_arrow ∈ detect_arrows_in_drawing spec_lines CONFIG).
  { rewrite spec_detection. apply list_elem_of_singleton. reflexivity. }
  destruct (detected_arrow_segments spec_lines CONFIG spec_arrow H)
    as (_ & _ & H1 & _).
  exact H1.
Defined.

(** X15. Every arrow takes two segments of its own as barbs, and the
    longest shaft is no barb: [n] arrows are found among at least [2n + 1]
    segments only, and none among fewer than three. *)
Theorem detection_needs_segments (lines : list Line) (config : Config) :
  let arrows := detect_arrows_in_drawing lines config in
  (2 * length arrows <= length lines)%nat
  /\ (arrows <> [] -> (2 * length arrows + 1 <= length lines)%nat)
  /\ ((length lines < 3)%nat -> arrows = []).
Proof.
  cbn zeta. destruct (detection_room lines config) as [H1 H2].
  split; [done|]. split; [done|]. intros Hlt.
  destruct (detect_arrows_in_drawing lines config) as [|a arrows]; [done|].
  specialize (H2 ltac:(done)). cbn [length] in H2. lia.
Qed.

(** X16. A configuration that no pair of barbs can satisfy finds no
    arrow: a negative tip tolerance, a largest barb angle below the 5
    degrees under which two segments count as parallel, or a negative
    bound on the difference of the barb lengths or of the barb angles. *)
Theorem detection_config_limits (lines : list Line) (config : Config) :
  tip_point_tolerance (ARROW_DETECTION config) < 0
  \/ arrow_angle_max (ARROW_DETECTION config) < 5
  \/ barb_length_diff_max (ARROW_DETECTION config) < 0
  \/ barb_angle_diff_max (ARROW_DETECTION config) < 0 ->
  detect_arrows_in_drawing lines config = [].
Proof.
  intros Hcfg.
  destruct (detect_arrows_found lines config) as (ts & Hall & _ & _).
  destruct (detect_arrows_in_drawing lines config) as [|a arrows]; [done|].
  exfalso. apply Forall2_cons_inv_r in Hall as (t & ts' & Hf & _ & _).
  pose proof (arrow_found_facts _ _ _ _ Hf)
    as (_ & _ & _ & _ & _ & Haj & _ & _ & _ & _ & Htol).
  destruct Hf as (_ & _ & _ & _ & _ & _ & _ & _ & _ & Hlen & Hmax & _ & Hdiff).
  pose proof (Rabs_pos (line_length (left_barb a) - line_length (right_barb a))).
  pose proof (Rabs_pos (angle_between (shaft a) (left_barb a)
                        - angle_between (shaft a) (right_barb a))).
  destruct Hcfg as [?|[?|[?|?]]]; lra.
Qed.

Lemma detection_config_limits_witness :
  detect_arrows_in_drawing spec_lines
    (mkConfig (mkArrowCfg (1 / 10) (2 / 10) 4 (5 / 10)) (mkTextCfg 10)
              (mkBoundaryCfg 5 (895 / 10) (905 / 10)))
  = [].
Proof.
  apply detection_config_limits. right. left. cbn. lra.
Defined.

Lemma in_order_snoc {A} (R : A -> A -> Prop) l b :
  in_order R l -> (forall a, a ∈ l -> R a b) -> in_order R (l ++ [b]).
Proof.
  intros Hl Hb m n a c Hm Hn Hlt.
  apply lookup_snoc_Some in Hn as [[Hn1 Hn2] | [Hn1 <-]].
  - rewrite lookup_app_l in Hm by lia. exact (Hl m n a c Hm Hn2 Hlt).
  - rewrite lookup_app_l in Hm by lia. apply Hb.
    apply list_elem_of_lookup. eauto.
Qed.

(** The third pass appends the arrows in the order in which it visits the
    endpoints. *)
Lemma symmetry_fold_order lines cfg es : forall k ts arrows used,
  let lens := map line_length lines in
  let meeting_lines := meeting_pass lines lens (tip_point_tolerance cfg) in
  detection_state lines cfg ts arrows used ->
  map fst es = seq k (length es) ->
  (forall i l, (i, l) ∈ es -> lines !! i = Some l) ->
  (forall t, t ∈ ts -> (ai_shaft t < k)%nat) ->
  in_order (fun t1 t2 => visited_before (found_at t1) (found_at t2)) ts ->
  exists ts' arrows' used',
    fold_left (symmetry_step lines lens meeting_lines cfg) es (arrows, used)
    = (arrows', used')
    /\ detection_state lines cfg ts' arrows' used'
    /\ in_order (fun t1 t2 => visited_before (found_at t1) (found_at t2)) ts'.
Proof.
  induction es as [|[i line_i] es IH]; intros k ts arrows used lens meeting_lines
    Hst Hseq Hes Hlt Hord.
  - exists ts, arrows, used. done.
  - cbn [fold_left]. unfold symmetry_step at 2.
    cbn [map fst length seq] in Hseq. injection Hseq as -> Hseq.
    assert (Hi : lines !! k = Some line_i) by (apply Hes; left).
    destruct (check_endpoint lines lens cfg line_i
                (ml_start (meeting_lines !!! k)) (start_point line_i) DStart
                (arrows, used)) as [arrows1 used1] eqn:E1.
    destruct (check_endpoint_state lines cfg ts arrows used k line_i DStart
                arrows1 used1 Hst Hi) as (ts1 & Hst1 & Hts1); [tauto| |exact E1|].
    { intros t Ht [= Hs _]. specialize (Hlt t Ht). lia. }
    assert (H1 : in_order (fun t1 t2 => visited_before (found_at t1) (found_at t2)) ts1
                 /\ forall t, t ∈ ts1 ->
                      (ai_shaft t < k)%nat \/ (ai_shaft t = k /\ ai_dir t = DStart)).
    { destruct Hts1 as [-> | (j & j' & ->)].
      - split; [done|]. intros t Ht. left. now apply Hlt.
      - split.
        + apply in_order_snoc; [done|]. intros t Ht. left. cbn. now apply Hlt.
        + intros t Ht. apply elem_of_app in Ht as [Ht|Ht]; [left; now apply Hlt|].
          apply list_elem_of_singleton in Ht. subst t. right. done. }
    destruct H1 as [Hord1 Hlt1].
    destruct (check_endpoint lines lens cfg line_i
                (ml_end (meeting_lines !!! k)) (end_point line_i) DEnd
                (arrows1, used1)) as [arrows2 used2] eqn:E2.
    destruct (check_endpoint_state lines cfg ts1 arrows1 used1 k line_i DEnd
                arrows2 used2 Hst1 Hi) as (ts2 & Hst2 & Hts2); [tauto| |exact E2|].
    { intros t Ht [= Hs Hd]. destruct (Hlt1 t Ht) as [? | [_ ?]]; [lia|congruence]. }
    assert (H2 : in_order (fun t1 t2 => visited_before (found_at t1) (found_at t2)) ts2
                 /\ forall t, t ∈ ts2 -> (ai_shaft t < S k)%nat).
    { destruct Hts2 as [-> | (j & j' & ->)].
      - split; [done|]. intros t Ht. destruct (Hlt1 t Ht) as [? | [? _]]; lia.
      - split.
        + apply in_order_snoc; [done|]. intros t Ht.
          destruct (Hlt1 t Ht) as [? | [? ?]]; [left; cbn; lia | right; cbn; done].
        + intros t Ht. apply elem_of_app in Ht as [Ht|Ht].
          * destruct (Hlt1 t Ht) as [? | [? _]]; lia.
          * apply list_elem_of_singleton in Ht. subst t. cbn. lia. }
    destruct H2 as [Hord2 Hlt2].
    apply (IH (S k) ts2 arrows2 used2 Hst2 Hseq); [|done|done].
    intros i' l' H. apply Hes. now right.
Qed.

(** X17. The arrows are returned in the order in which the third pass
    visits the endpoints: by the position of the shaft in [lines], and at
    the start point of a shaft before its end point.  They are numbered
    from 1 in that order. *)
Theorem arrows_in_visiting_order (lines : list Line) (config : Config) :
  let arrows := detect_arrows_in_drawing lines config in
  (exists ts,
      Forall2 (arrow_found lines (ARROW_DETECTION config)) ts arrows
      /\ in_order (fun t1 t2 => visited_before (found_at t1) (found_at t2)) ts)
  /\ map arrow_id arrows = map (fun n => Some (S n)) (seq 0 (length arrows)).
Proof.
  cbn zeta. split.
  - unfold detect_arrows_in_drawing, symmetry_pass.
    destruct (symmetry_fold_order lines (ARROW_DETECTION config) (enumerate lines)
                0 [] [] ∅) as (ts & arrows & used & -> & (Hall & _) & Hord).
    + split; [constructor|]. split; [|split; constructor].
      intros n. cbn. rewrite elem_of_nil. split; [|done].
      intros H. now apply not_elem_of_empty in H.
    + rewrite enumerate_fst. unfold enumerate. now rewrite length_imap.
    + intros i l H. now apply enumerate_lookup.
    + intros t Ht. now apply elem_of_nil in Ht.
    + intros m n a b Hm. done.
    + exists ts. cbn [fst]. split; [|done].
      apply Forall2_imap; [|done]. intros n t b Hb. exact Hb.
  - unfold detect_arrows_in_drawing.
    generalize (fst (symmetry_pass lines (map line_length lines)
                       (meeting_pass lines (map line_length lines)
                          (tip_point_tolerance (ARROW_DETECTION config)))
                       (ARROW_DETECTION config))).
    intros arrows. apply list_eq. intros n.
    rewrite !list_lookup_fmap, list_lookup_imap, length_imap.
    destruct (arrows !! n) as [a|] eqn:E; cbn.
    + rewrite lookup_seq_lt by (now apply lookup_lt_Some in E). done.
    + rewrite lookup_seq_ge by (now apply lookup_ge_None in E). done.
Qed.

(** ** Leaders of the arrows detected *)

Lemma create_arrow_leaders_lookup arrows n :
  create_arrow_leaders arrows !! n
  = (fun a => mkLeader a (get_leader_position (shaft a) (direction a)) [shaft a]
                       None [] (Some (S n))) <$> arrows !! n.
Proof.
  unfold create_arrow_leaders. rewrite list_lookup_imap, list_lookup_fmap.
  now destruct (arrows !! n).
Qed.

Lemma detect_arrows_lookup lines config n a :
  detect_arrows_in_drawing lines config !! n = Some a -> arrow_id a = Some (S n).
Proof.
  unfold detect_arrows_in_drawing. rewrite list_lookup_imap.
  destruct (_ !! n); [|done]. now intros [= <-].
Qed.

(** X18. Leader assembly on the arrows detected: the leader at position
    [n] is made from the arrow at position [n], both carry the number
    [n + 1], the leader has no text and no boundary line yet, its chain is
    the shaft alone, and its indicator position is the end of the shaft
    away from the tip, at the distance of the shaft's length, which is not
    zero, from the tip. *)
Theorem leaders_of_detected_arrows (lines : list Line) (config : Config)
    (n : nat) (leader : ArrowLeader) :
  create_arrow_leaders (detect_arrows_in_drawing lines config) !! n = Some leader ->
  detect_arrows_in_drawing lines config !! n = Some (arrow leader)
  /\ leader_id leader = Some (S n)
  /\ arrow_id (arrow leader) = Some (S n)
  /\ matched_text leader = None
  /\ matched_boundaries leader = []
  /\ line_chain leader = [shaft (arrow leader)]
  /\ (tip_point (arrow leader) = start_point (shaft (arrow leader))
      /\ leader_position leader = end_point (shaft (arrow leader))
      \/ tip_point (arrow leader) = end_point (shaft (arrow leader))
         /\ leader_position leader = start_point (shaft (arrow leader)))
  /\ distance (leader_position leader) (tip_point (arrow leader))
     = line_length (shaft (arrow leader))
  /\ leader_position leader <> tip_point (arrow leader).
Proof.
  rewrite create_arrow_leaders_lookup.
  destruct (detect_arrows_in_drawing lines config !! n) as [a|] eqn:Hn; [|done].
  intros [= <-]. cbn.
  pose proof (detect_arrows_lookup _ _ _ _ Hn) as Hid.
  assert (Ha : a ∈ detect_arrows_in_drawing lines config)
    by (apply list_elem_of_lookup; eauto).
  destruct (detect_arrows_found lines config) as (ts & Hall & _ & _).
  destruct (Forall2_elem_r _ _ _ _ Hall Ha) as (t & _ & Hf).
  pose proof (arrow_found_facts _ _ _ _ Hf)
    as (_ & _ & _ & _ & _ & _ & _ & Hproper & _).
  destruct Hf as (_ & _ & _ & Hdir & Hd & Htip & _).
  assert (Hpos : tip_point a = start_point (shaft a)
                 /\ get_leader_position (shaft a) (direction a) = end_point (shaft a)
                 \/ tip_point a = end_point (shaft a)
                    /\ get_leader_position (shaft a) (direction a)
                       = start_point (shaft a)).
  { rewrite Htip, Hdir. destruct Hd as [-> | ->]; cbn; tauto. }
  repeat split; try done.
  - destruct Hpos as [[-> ->] | [-> ->]].
    + rewrite distance_sym. reflexivity.
    + reflexivity.
  - destruct Hpos as [[-> ->] | [-> ->]]; congruence.
Qed.

Lemma leaders_of_detected_arrows_witness :
  exists leader,
    create_arrow_leaders (detect_arrows_in_drawing spec_lines CONFIG) !! 0%nat
    = Some leader
    /\ leader_id leader = Some 1%nat
    /\ distance (leader_position leader) (tip_point (arrow leader))
       = line_length (shaft (arrow leader)).
Proof.
  assert (H : create_arrow_leaders (detect_arrows_in_drawing spec_lines CONFIG)
              !! 0%nat
              = Some (mkLeader spec_arrow (mkPoint 10 0) [spec_shaft] None []
                               (Some 1%nat))).
  { rewrite spec_detection. reflexivity. }
  eexists. split; [exact H|].
  destruct (leaders_of_detected_arrows spec_lines CONFIG 0 _ H)
    as (_ & H1 & _ & _ & _ & _ & _ & H2 & _).
  split; [exact H1 | exact H2].
Defined.

(** ** More on text matching *)

Lemma with_matched_arrows_nil text : with_matched_arrows [] text = text.
Proof. destruct text. unfold with_matched_arrows. cbn. now rewrite app_nil_r. Qed.

Lemma with_matched_arrows_add n ns text :
  with_matched_arrows ns (add_matched_arrow n text)
  = with_matched_arrows (n :: ns) text.
Proof.
  unfold with_matched_arrows, add_matched_arrow. cbn. now rewrite <- app_assoc.
Qed.

Lemma chosen_by_positions maxd texts1 texts2 t leaders : forall n,
  map position texts1 = map position texts2 ->
  chosen_by maxd texts1 t n leaders = chosen_by maxd texts2 t n leaders.
Proof.
  induction leaders as [|l rest IH]; intros n H; [done|].
  cbn [chosen_by]. rewrite (IH (S n) H).
  now rewrite (find_closest_text_positions maxd (leader_position l) _ _ H).
Qed.


Lemma chosen_by_elem maxd texts t leaders : forall n m,
  m ∈ chosen_by maxd texts t n leaders
  <-> exists k leader,
        m = (n + k)%nat /\ leaders !! k = Some leader
        /\ find_closest_text maxd (leader_position leader) texts = Some t.
Proof.
  induction leaders as [|l rest IH]; intros n m.
  - cbn. split; [intros H; now apply elem_of_nil in H|]. now intros (k & ? & _ & ? & _).
  - cbn [chosen_by]. rewrite elem_of_app, IH. split.
    + intros [H | (k & leader & -> & Hk & Hf)].
      * destruct (decide _) as [Hf|]; [|now apply elem_of_nil in H].
        apply list_elem_of_singleton in H. subst m.
        exists 0%nat, l. split; [lia|done].
      * exists (S k), leader. split; [lia|done].
    + intros ([|k] & leader & -> & Hk & Hf).
      * cbn in Hk. injection Hk as ->. left.
        rewrite decide_True by done. rewrite Nat.add_0_r. left.
      * right. exists k, leader. split; [lia|done].
Qed.

Lemma chosen_by_NoDup maxd texts t leaders : forall n,
  NoDup (chosen_by maxd texts t n leaders).
Proof.
  induction leaders as [|l rest IH]; intros n; [constructor|].
  cbn [chosen_by]. destruct (decide _); [|apply IH].
  cbn. apply NoDup_cons. split; [|apply IH].
  rewrite chosen_by_elem. intros (k & _ & ? & _). lia.
Qed.

(** The texts after the loop: each with the leaders that chose it. *)
Lemma match_loop_texts maxd leaders : forall n texts,
  snd (match_loop maxd n leaders texts)
  = imap (fun t => with_matched_arrows (chosen_by maxd texts t n leaders)) texts.
Proof.
  induction leaders as [|l rest IH]; intros n texts.
  - cbn. apply list_eq. intros t. rewrite list_lookup_imap.
    destruct (texts !! t); cbn; [now rewrite with_matched_arrows_nil | done].
  - cbn [match_loop chosen_by].
    destruct (find_closest_text maxd (leader_position l) texts) as [t0|] eqn:Hf.
    + specialize (IH (S n) (alter (add_matched_arrow n) t0 texts)).
      destruct (match_loop maxd (S n) rest _) as [rest' texts']. cbn [snd] in *.
      rewrite IH. apply list_eq. intros t. rewrite !list_lookup_imap.
      rewrite (chosen_by_positions maxd _ texts t rest (S n)
                 (positions_alter n t0 texts)).
      destruct (decide (t0 = t)) as [-> | Hne].
      * rewrite list_lookup_alter_eq. rewrite decide_True by done.
        destruct (texts !! t); cbn; [|done].
        now rewrite with_matched_arrows_add.
      * rewrite list_lookup_alter_ne by done.
        rewrite decide_False by congruence. done.
    + specialize (IH (S n) texts).
      destruct (match_loop maxd (S n) rest texts) as [rest' texts']. cbn [snd] in *.
      rewrite IH. apply list_eq. intros t. rewrite !list_lookup_imap.
      rewrite decide_False by done. done.
Qed.

(** X19. Text matching changes nothing of a text but its list
    [matched_arrows], to which it appends exactly the positions of the
    leaders that chose the text, in ascending order and each once; the
    number of the texts stays. *)
Theorem text_backrefs_exact (arrow_leaders : list ArrowLeader)
    (texts : list TextEntity) (config : Config) (t : nat) (text : TextEntity) :
  texts !! t = Some text ->
  let maxd := max_distance (LEADER_ARROW_MATCHING config) in
  let result := match_texts_to_arrows arrow_leaders texts config in
  length (snd result) = length texts
  /\ exists text' added,
       snd result !! t = Some text'
       /\ matched_arrows text' = matched_arrows text ++ added
       /\ (text_handle text', content text', position text', text_layer text',
           entity_type text')
          = (text_handle text, content text, position text, text_layer text,
             entity_type text)
       /\ NoDup added
       /\ in_order lt added
       /\ forall n, n ∈ added
                    <-> exists leader,
                          arrow_leaders !! n = Some leader
                          /\ find_closest_text maxd (leader_position leader) texts
                             = Some t.
Proof.
  intros Ht maxd result. unfold result, match_texts_to_arrows. fold maxd.
  rewrite match_loop_texts. split; [apply length_imap|].
  exists (with_matched_arrows (chosen_by maxd texts t 0 arrow_leaders) text),
         (chosen_by maxd texts t 0 arrow_leaders).
  split; [now rewrite list_lookup_imap, Ht|]. split; [done|]. split; [done|].
  split; [apply chosen_by_NoDup|]. split.
  - generalize 0%nat. induction arrow_leaders as [|l rest IH]; intros n.
    + intros ? ? ? ? H. done.
    + cbn [chosen_by]. destruct (decide _); [|apply IH].
      intros [|m] [|m'] a b Hm Hm' Hlt; try lia.
      * cbn in Hm, Hm'. injection Hm as <-.
        assert (b ∈ chosen_by maxd texts t (S n) rest) as Hb
            by (apply list_elem_of_lookup; eauto).
        apply chosen_by_elem in Hb as (k & _ & -> & _). lia.
      * cbn in Hm, Hm'. apply (IH (S n) m m' a b Hm Hm'). lia.
  - intros n. rewrite chosen_by_elem. split.
    + intros (k & leader & -> & H). now exists leader.
    + intros (leader & H). now exists n, leader.
Qed.

Lemma text_backrefs_exact_witness :
  exists text' added,
    snd (match_texts_to_arrows spec_leaders [label_at (mkPoint 12 0)] CONFIG) !! 0%nat
    = Some text'
    /\ matched_arrows text' = [] ++ added.
Proof.
  destruct (text_backrefs_exact spec_leaders [label_at (mkPoint 12 0)] CONFIG 0 _
              eq_refl) as (_ & text' & added & H1 & H2 & _).
  exists text', added. split; [exact H1 | exact H2].
Defined.

Lemma match_cross_references maxd arrow_leaders texts n t leader' text' :
  Forall (fun l => matched_text l = None) arrow_leaders ->
  Forall (fun text => matched_arrows text = []) texts ->
  fst (match_loop maxd 0 arrow_leaders texts) !! n = Some leader' ->
  snd (match_loop maxd 0 arrow_leaders texts) !! t = Some text' ->
  (matched_text leader' = Some t <-> n ∈ matched_arrows text')
  /\ NoDup (matched_arrows text').
Proof.
  intros Hl Ht.
  rewrite match_loop_leaders, match_loop_texts.
  rewrite list_lookup_fmap, list_lookup_imap.
  destruct (arrow_leaders !! n) as [l|] eqn:En; [|done].
  destruct (texts !! t) as [text|] eqn:Et; [|done].
  cbn. intros [= <-] [= <-].
  rewrite Forall_forall in Hl. rewrite Forall_forall in Ht.
  assert (Hl0 : matched_text l = None)
    by (apply Hl, list_elem_of_lookup; eauto).
  assert (Ht0 : matched_arrows text = [])
    by (apply Ht, list_elem_of_lookup; eauto).
  cbn. rewrite Ht0. cbn [app]. split; [|apply chosen_by_NoDup].
  rewrite chosen_by_elem. split.
  - intros H. exists n, l. split; [done|]. split; [done|].
    destruct (find_closest_text maxd (leader_position l) texts) as [t'|];
      cbn in H; congruence.
  - intros (k & leader & Hk & Hlk & Hf). cbn in Hk. subst k.
    rewrite En in Hlk. injection Hlk as <-. now rewrite Hf.
Qed.

(** X20. On leaders that have no text and texts that have no leader
    yet, text matching leaves the two sides consistent: the leader at
    position [n] names the text at position [t] exactly when that text
    lists [n], and no text lists a leader twice. *)
Theorem cross_references_consistent (arrow_leaders : list ArrowLeader)
    (texts : list TextEntity) (config : Config) :
  Forall (fun l => matched_text l = None) arrow_leaders ->
  Forall (fun text => matched_arrows text = []) texts ->
  let result := match_texts_to_arrows arrow_leaders texts config in
  forall n t leader' text',
    fst result !! n = Some leader' -> snd result !! t = Some text' ->
    (matched_text leader' = Some t <-> n ∈ matched_arrows text')
    /\ NoDup (matched_arrows text').
Proof.
  intros Hl Ht result n t leader' text'. unfold result, match_texts_to_arrows.
  now apply match_cross_references.
Qed.

Lemma cross_references_consistent_witness :
  match fst (match_texts_to_arrows spec_leaders [label_at (mkPoint 12 0)] CONFIG)
          !! 0%nat,
        snd (match_texts_to_arrows spec_leaders [label_at (mkPoint 12 0)] CONFIG)
          !! 0%nat
  with
  | Some leader', Some text' =>
      (matched_text leader' = Some 0%nat <-> 0%nat ∈ matched_arrows text')
      /\ NoDup (matched_arrows text')
  | _, _ => True
  end.
Proof.
  destruct (fst (match_texts_to_arrows spec_leaders [label_at (mkPoint 12 0)] CONFIG)
              !! 0%nat) as [leader'|] eqn:E1; [|exact I].
  destruct (snd (match_texts_to_arrows spec_leaders [label_at (mkPoint 12 0)] CONFIG)
              !! 0%nat) as [text'|] eqn:E2; [|exact I].
  apply (cross_references_consistent spec_leaders [label_at (mkPoint 12 0)] CONFIG
           ltac:(constructor; [reflexivity | constructor])
           ltac:(constructor; [reflexivity | constructor])
           0%nat 0%nat leader' text' E1 E2).
Defined.

Lemma match_loop_unchanged maxd leaders : forall n texts,
  (forall l, l ∈ leaders -> find_closest_text maxd (leader_position l) texts = None) ->
  match_loop maxd n leaders texts = (leaders, texts).
Proof.
  induction leaders as [|l rest IH]; intros n texts H; [done|].
  cbn [match_loop]. rewrite (H l) by left.
  rewrite IH; [done|]. intros l' Hl'. apply H. now right.
Qed.

Lemma find_closest_text_cutoff maxd pos texts :
  maxd <= 0 -> find_closest_text maxd pos texts = None.
Proof.
  intros Hm. destruct (find_closest_text maxd pos texts) as [t|] eqn:E; [|done].
  apply find_closest_text_Some in E as (text & _ & Hlt & _).
  pose proof (distance_nonneg pos (position text)). lra.
Qed.

(** X21. Without texts, or with a cutoff [max_distance] that is zero or
    negative, text matching changes neither a leader nor a text. *)
Theorem text_matching_nothing (arrow_leaders : list ArrowLeader)
    (texts : list TextEntity) (config : Config) :
  texts = [] \/ max_distance (LEADER_ARROW_MATCHING config) <= 0 ->
  match_texts_to_arrows arrow_leaders texts config = (arrow_leaders, texts).
Proof.
  intros H. unfold match_texts_to_arrows. apply match_loop_unchanged.
  intros l _. destruct H as [-> | H]; [done | now apply find_closest_text_cutoff].
Qed.

Lemma text_matching_nothing_witness :
  match_texts_to_arrows spec_leaders [label_at (mkPoint 12 0)]
    (mkConfig (ARROW_DETECTION CONFIG) (mkTextCfg 0) (LEADER_BOUNDARY_MATCHING CONFIG))
  = (spec_leaders, [label_at (mkPoint 12 0)]).
Proof.
  apply text_matching_nothing. right. cbn. lra.
Defined.


(** ** More on boundary line detection *)

Lemma set_matched_boundaries_same l :
  set_matched_boundaries (matched_boundaries l ++ []) l = l.
Proof. destruct l. unfold set_matched_boundaries. cbn. now rewrite app_nil_r. Qed.

Lemma boundaries_of_elem cfg al lines a line :
  line ∈ boundaries_of cfg al lines a
  <-> line ∈ lines /\ boundary_test cfg al (tip_point a) (shaft a) line = true.
Proof.
  unfold boundaries_of. now rewrite list_elem_of_In, filter_In, <- list_elem_of_In.
Qed.

Lemma boundary_lines_elem cfg al lines leaders line :
  line ∈ flat_map (fun l => boundaries_of cfg al lines (arrow l)) leaders
  <-> exists l, l ∈ leaders /\ line ∈ boundaries_of cfg al lines (arrow l).
Proof.
  rewrite list_elem_of_In, in_flat_map. split.
  - intros (l & Hl & H). exists l. now rewrite !list_elem_of_In.
  - intros (l & Hl & H). exists l. now rewrite <- !list_elem_of_In.
Qed.

Lemma filter_none {A} (f : A -> bool) (l : list A) :
  (forall a, a ∈ l -> f a = false) -> List.filter f l = [].
Proof.
  induction l as [|a l IH]; intros H; [done|].
  cbn. rewrite (H a) by left. apply IH. intros b Hb. apply H. now right.
Qed.

Lemma boundary_lines_concat cfg al lines leaders :
  Forall (fun l => matched_boundaries l = []) leaders ->
  snd (boundary_loop cfg al lines leaders [])
  = flat_map matched_boundaries (fst (boundary_loop cfg al lines leaders [])).
Proof.
  intros Hfresh. rewrite boundary_loop_map. cbn [fst snd app].
  rewrite !flat_map_concat_map, map_map. f_equal.
  apply map_ext_in. intros l Hl. cbn.
  rewrite Forall_forall in Hfresh. rewrite (Hfresh l); [done|].
  now apply list_elem_of_In.
Qed.

Lemma boundary_lines_free leaders lines config line :
  line ∈ snd (detect_boundary_lines leaders lines config) ->
  line ∈ lines
  /\ forall l, l ∈ leaders ->
       obj line <> obj (shaft (arrow l))
       /\ obj line <> obj (left_barb (arrow l))
       /\ obj line <> obj (right_barb (arrow l)).
Proof.
  unfold detect_boundary_lines. rewrite boundary_loop_map. cbn [snd app].
  intros Hline. apply boundary_lines_elem in Hline as (l0 & _ & Hline).
  apply boundaries_of_elem in Hline as [Hin Htest]. split; [done|].
  apply boundary_test_true in Htest as (Hno & _).
  intros l Hl.
  repeat split; intros E; apply Hno, arrow_lines_of_elem; exists l; tauto.
Qed.

Lemma boundary_leaders_fields leaders lines config :
  map (fun l => (arrow l, leader_position l, line_chain l, matched_text l,
                 leader_id l)) (fst (detect_boundary_lines leaders lines config))
  = map (fun l => (arrow l, leader_position l, line_chain l, matched_text l,
                   leader_id l)) leaders.
Proof.
  unfold detect_boundary_lines. rewrite boundary_loop_map. cbn [fst].
  rewrite map_map. now apply map_ext.
Qed.

(** X22. On leaders that have no boundary line yet, the list that
    [detect_boundary_lines] returns is the concatenation, in the order of
    the leaders, of the lists [matched_boundaries] it leaves; a line that
    qualifies for several leaders is returned once for each.  Every line
    returned is a line of [lines] and no segment of an arrow.  Of a leader
    only [matched_boundaries] changes. *)
Theorem boundary_lines_returned (arrow_leaders : list ArrowLeader)
    (lines : list Line) (config : Config) :
  Forall (fun l => matched_boundaries l = []) arrow_leaders ->
  let result := detect_boundary_lines arrow_leaders lines config in
  snd result = flat_map matched_boundaries (fst result)
  /\ (forall line, line ∈ snd result ->
        line ∈ lines
        /\ forall l, l ∈ arrow_leaders ->
             obj line <> obj (shaft (arrow l))
             /\ obj line <> obj (left_barb (arrow l))
             /\ obj line <> obj (right_barb (arrow l)))
  /\ map (fun l => (arrow l, leader_position l, line_chain l, matched_text l,
                    leader_id l)) (fst result)
     = map (fun l => (arrow l, leader_position l, line_chain l, matched_text l,
                      leader_id l)) arrow_leaders.
Proof.
  intros Hfresh result. unfold result. split; [|split].
  - now apply boundary_lines_concat.
  - intros line. apply boundary_lines_free.
  - apply boundary_leaders_fields.
Qed.

Lemma boundary_lines_returned_witness :
  snd (detect_boundary_lines dim_leaders dim_lines CONFIG)
  = flat_map matched_boundaries
             (fst (detect_boundary_lines dim_leaders dim_lines CONFIG)).
Proof.
  assert (H : Forall (fun l => matched_boundaries l = []) dim_leaders).
  { unfold dim_leaders, create_arrow_leaders. cbn.
    repeat (constructor; [reflexivity|]). constructor. }
  destruct (boundary_lines_returned dim_leaders dim_lines CONFIG H) as [H1 _].
  exact H1.
Defined.

(** X23. A configuration that no line can satisfy finds no boundary
    line and leaves every leader as it is: a negative distance bound, or
    an angle interval that is empty or lies outside of 0 to 180
    degrees. *)
Theorem boundary_config_limits (arrow_leaders : list ArrowLeader)
    (lines : list Line) (config : Config) :
  let cfg := LEADER_BOUNDARY_MATCHING config in
  max_distance_to_arrow cfg < 0
  \/ perpendicular_angle_max cfg < perpendicular_angle_min cfg
  \/ perpendicular_angle_max cfg < 0
  \/ 180 < perpendicular_angle_min cfg ->
  detect_boundary_lines arrow_leaders lines config = (arrow_leaders, []).
Proof.
  intros cfg Hcfg. unfold detect_boundary_lines. rewrite boundary_loop_map.
  fold cfg.
  assert (Hnone : forall a, boundaries_of cfg (arrow_lines_of arrow_leaders) lines a
                            = []).
  { intros a. apply filter_none. intros line _.
    destruct (boundary_test _ _ _ _ line) eqn:E; [|done]. exfalso.
    apply boundary_test_true in E as (_ & Hd & Ha).
    pose proof (angle_between_bounds (shaft a) line).
    pose proof (distance_nonneg (tip_point a) (start_point line)).
    pose proof (distance_nonneg (tip_point a) (end_point line)).
    assert (0 <= Rmin (distance (tip_point a) (start_point line))
                      (distance (tip_point a) (end_point line)))
      by (now apply Rmin_glb).
    destruct Hcfg as [?|[?|[?|?]]]; lra. }
  f_equal.
  - rewrite <- (map_id arrow_leaders) at 2. apply map_ext. intros l.
    rewrite Hnone. apply set_matched_boundaries_same.
  - cbn [app]. generalize arrow_leaders at 2. intros ls.
    induction ls as [|l rest IH]; [done|].
    cbn [flat_map]. now rewrite Hnone.
Qed.

Lemma boundary_config_limits_witness :
  detect_boundary_lines dim_leaders dim_lines
    (mkConfig (ARROW_DETECTION CONFIG) (LEADER_ARROW_MATCHING CONFIG)
              (mkBoundaryCfg 5 (905 / 10) (895 / 10)))
  = (dim_leaders, []).
Proof.
  apply boundary_config_limits. right. left. cbn. lra.
Defined.

Lemma spec_boundary_angle : angle_between spec_shaft spec_boundary = 90.
Proof.
  rewrite (angle_between_value _ _ 10 6 0); try lra.
  - replace (0 / (10 * 6)) with 0 by lra. rewrite acos_0. unfold degrees.
    pose proof PI_bounds. field. lra.
  - apply spec_length_shaft.
  - unfold line_length. cbn. apply sqrt_eq; lra.
  - unfold dot_product, direction_vector. cbn. lra.
Qed.

Lemma spec_boundary_detected :
  spec_boundary
  ∈ snd (detect_boundary_lines spec_leaders (spec_lines ++ [spec_boundary]) CONFIG).
Proof.
  unfold detect_boundary_lines. rewrite boundary_loop_map. cbn [snd app].
  apply boundary_lines_elem.
  exists (mkLeader spec_arrow (mkPoint 10 0) [spec_shaft] None [] (Some 1%nat)).
  split; [left|]. apply boundaries_of_elem. split.
  - unfold spec_lines. cbn. repeat first [left | right].
  - apply boundary_test_true. split; [|split].
    + rewrite arrow_lines_of_elem. intros (l & Hl & H).
      apply list_elem_of_singleton in Hl. subst l. cbn in H.
      destruct H as [H|[H|H]]; discriminate H.
    + cbn. apply Rle_trans with (distance (mkPoint 0 0) (mkPoint 0 (-3)));
        [apply Rmin_l|].
      unfold distance. cbn. apply sqrt_le_c; lra.
    + cbn. rewrite spec_boundary_angle. lra.
Qed.

(** X24. When the angle interval lies within 5 to 175 degrees, as the
    default one does, every boundary line returned has a leader whose
    shaft it is not parallel to, by the test of [are_lines_parallel] with
    the threshold 5; the line has an endpoint within
    [max_distance_to_arrow] of that leader's tip point, and neither the
    line nor the shaft has zero length. *)
Theorem boundary_lines_not_parallel (arrow_leaders : list ArrowLeader)
    (lines : list Line) (config : Config) (line : Line) :
  let cfg := LEADER_BOUNDARY_MATCHING config in
  5 <= perpendicular_angle_min cfg -> perpendicular_angle_max cfg <= 175 ->
  line ∈ snd (detect_boundary_lines arrow_leaders lines config) ->
  exists l, l ∈ arrow_leaders
            /\ are_lines_parallel (shaft (arrow l)) line 5 = false
            /\ (distance (tip_point (arrow l)) (start_point line)
                <= max_distance_to_arrow cfg
                \/ distance (tip_point (arrow l)) (end_point line)
                   <= max_distance_to_arrow cfg)
            /\ start_point line <> end_point line
            /\ start_point (shaft (arrow l)) <> end_point (shaft (arrow l)).
Proof.
  intros cfg Hmin Hmax. unfold detect_boundary_lines. rewrite boundary_loop_map.
  cbn [snd app]. fold cfg. intros Hline.
  apply boundary_lines_elem in Hline as (l & Hl & Hline).
  apply boundaries_of_elem in Hline as [_ Htest].
  apply boundary_test_true in Htest as (_ & Hd & Ha).
  exists l. split; [done|].
  assert (Hp : are_lines_parallel (shaft (arrow l)) line 5 = false).
  { destruct (are_lines_parallel _ _ 5) eqn:E; [|done].
    apply are_lines_parallel_spec in E. lra. }
  split; [done|]. split.
  - unfold Rmin in Hd. destruct (Rle_dec _ _); tauto.
  - apply not_parallel_angle in Hp. tauto.
Qed.

Lemma boundary_lines_not_parallel_witness :
  exists l, l ∈ spec_leaders
            /\ are_lines_parallel (shaft (arrow l)) spec_boundary 5 = false.
Proof.
  destruct (boundary_lines_not_parallel spec_leaders (spec_lines ++ [spec_boundary])
              CONFIG spec_boundary)
    as (l & H1 & H2 & _).
  - cbn. lra.
  - cbn. lra.
  - exact spec_boundary_detected.
  - exists l. split; [exact H1 | exact H2].
Defined.

(** ** The matching passes run twice *)









(** ** The figures of the report *)

Lemma matched_unmatched_count leaders :
  (matched_count leaders + length (unmatched_leaders leaders) = length leaders)%nat.
Proof.
  unfold matched_count, unmatched_leaders.
  induction leaders as [|l ls IH]; [done|].
  cbn [List.filter]. destruct (matched_text l); cbn [length]; lia.
Qed.

(** X26. In the report, the matched and the unmatched leaders add up to
    all leaders; the line with the matching rate is written exactly when
    there is a leader, and the rate lies between 0 and 100: it is 100
    exactly when no leader is unmatched and 0 exactly when none is
    matched. *)
Theorem report_match_figures (arrow_leaders : list ArrowLeader) :
  (matched_count arrow_leaders + length (unmatched_leaders arrow_leaders)
   = length arrow_leaders)%nat
  /\ (match_rate arrow_leaders = None <-> arrow_leaders = [])
  /\ (forall r, match_rate arrow_leaders = Some r ->
        0 <= r <= 100
        /\ (r = 100 <-> unmatched_leaders arrow_leaders = [])
        /\ (r = 0 <-> matched_count arrow_leaders = 0%nat))
  /\ unmatched_leaders arrow_leaders `sublist_of` arrow_leaders
  /\ leaders_without_boundaries arrow_leaders `sublist_of` arrow_leaders.
Proof.
  pose proof (matched_unmatched_count arrow_leaders) as Hsum.
  split; [done|]. split; [|split; [|split; apply filter_sublist]].
  - unfold match_rate. destruct arrow_leaders; cbn; [done|]. split; done.
  - unfold match_rate. intros r.
    destruct (Nat.ltb 0 (length arrow_leaders)) eqn:E; [|done].
    apply Nat.ltb_lt in E. intros [= <-].
    set (m := matched_count arrow_leaders) in *.
    set (n := length arrow_leaders) in *.
    assert (Hn : 0 < INR n) by (apply (lt_INR 0); lia).
    assert (Hm : 0 <= INR m) by apply pos_INR.
    assert (Hmn : INR m <= INR n) by (apply le_INR; lia).
    assert (Hi : 0 < / INR n) by now apply Rinv_0_lt_compat.
    assert (Hb : INR n * / INR n = 1) by (field; lra).
    assert (Ha : INR m = INR m / INR n * INR n) by (field; lra).
    unfold Rdiv in *. split; [split; nra|]. split.
    + split.
      * intros H. assert (Heq : INR m = INR n) by nra.
        apply INR_eq in Heq. apply length_zero_iff_nil. lia.
      * intros H. rewrite H in Hsum. cbn in Hsum.
        replace m with n by lia. nra.
    + split.
      * intros H. assert (Heq : INR m = INR 0) by (cbn; nra).
        now apply INR_eq in Heq.
      * intros ->. cbn. lra.
Qed.

Lemma sum_list_indicator (o : option nat) (n m : nat) : forall k,
  sum_list (map (fun t => length (if decide (o = Some t) then [n] else []))
                (seq k m))
  = match o with
    | Some t0 => if decide (k <= t0 < k + m)%nat then 1%nat else 0%nat
    | None => 0%nat
    end.
Proof.
  induction m as [|m IH]; intros k.
  - cbn. destruct o; [|done]. rewrite decide_False by lia. done.
  - cbn [seq map sum_list]. rewrite IH. destruct o as [t0|].
    + destruct (decide (t0 = k)) as [-> | Hne].
      * rewrite decide_True by done. rewrite decide_False by lia.
        rewrite decide_True by lia. cbn [length]. unfold Datatypes.id. lia.
      * rewrite decide_False by congruence.
        destruct (decide (S k <= t0 < S k + m)%nat),
                 (decide (k <= t0 < k + S m)%nat);
          cbn [length]; unfold Datatypes.id; lia.
    + rewrite decide_False by done. done.
Qed.

Lemma sum_list_map_add {A} (f g : A -> nat) (l : list A) :
  sum_list (map (fun a => (f a + g a)%nat) l)
  = (sum_list (map f l) + sum_list (map g l))%nat.
Proof. induction l as [|a l IH]; [done|]. cbn. rewrite IH. lia. Qed.

(** Over all texts, the leaders chosen are the leaders that chose. *)
Lemma chosen_by_sum maxd texts leaders : forall n,
  sum_list (map (fun t => length (chosen_by maxd texts t n leaders))
                (seq 0 (length texts)))
  = length (List.filter
              (fun l => match find_closest_text maxd (leader_position l) texts with
                        | Some _ => true
                        | None => false
                        end) leaders).
Proof.
  induction leaders as [|l rest IH]; intros n.
  - cbn. induction (seq 0 (length texts)) as [|t ts IHt]; [done|]. cbn. exact IHt.
  - cbn [chosen_by List.filter].
    rewrite (map_ext _ (fun t =>
               (length (if decide (find_closest_text maxd (leader_position l) texts
                                   = Some t) then [n] else [])
                + length (chosen_by maxd texts t (S n) rest))%nat))
      by (intros t; apply length_app).
    rewrite sum_list_map_add, IH, sum_list_indicator.
    destruct (find_closest_text maxd (leader_position l) texts) as [t0|] eqn:Hf;
      [|done].
    apply find_closest_text_Some in Hf as (text & Ht & _).
    apply lookup_lt_Some in Ht. rewrite decide_True by lia. done.
Qed.

Lemma matched_count_chosen maxd leaders texts :
  Forall (fun l => matched_text l = None) leaders ->
  matched_count (fst (match_loop maxd 0 leaders texts))
  = length (List.filter
              (fun l => match find_closest_text maxd (leader_position l) texts with
                        | Some _ => true
                        | None => false
                        end) leaders).
Proof.
  intros Hfresh. rewrite match_loop_leaders. unfold matched_count.
  induction Hfresh as [|l rest Hl _ IH]; [done|].
  cbn [map List.filter].
  destruct (find_closest_text maxd (leader_position l) texts) as [t|];
    cbn [matched_text set_matched_text].
  - cbn [length]. now rewrite IH.
  - rewrite Hl. exact IH.
Qed.

Lemma backrefs_lengths maxd leaders texts :
  Forall (fun text => matched_arrows text = []) texts ->
  map (fun text => length (matched_arrows text))
      (snd (match_loop maxd 0 leaders texts))
  = map (fun t => length (chosen_by maxd texts t 0 leaders)) (seq 0 (length texts)).
Proof.
  intros Hfresh. rewrite match_loop_texts. apply list_eq. intros t.
  rewrite !list_lookup_fmap, list_lookup_imap.
  destruct (texts !! t) as [text|] eqn:Et.
  - rewrite lookup_seq_lt by (now apply lookup_lt_Some in Et). cbn.
    rewrite Forall_forall in Hfresh.
    rewrite (Hfresh text) by (apply list_elem_of_lookup; eauto). done.
  - rewrite lookup_seq_ge by (now apply lookup_ge_None in Et). done.
Qed.

(** X27. On leaders that have no text and texts that have no leader
    yet, the two sections of the report agree after text matching: the
    lists [matched_arrows] of all texts together have as many entries as
    there are matched leaders, and a text is left with an empty list
    exactly when no leader names it. *)
Theorem backrefs_count (arrow_leaders : list ArrowLeader)
    (texts : list TextEntity) (config : Config) :
  Forall (fun l => matched_text l = None) arrow_leaders ->
  Forall (fun text => matched_arrows text = []) texts ->
  let result := match_texts_to_arrows arrow_leaders texts config in
  sum_list (map (fun text => length (matched_arrows text)) (snd result))
  = matched_count (fst result)
  /\ forall t text', snd result !! t = Some text' ->
       (matched_arrows text' = []
        <-> forall leader', leader' ∈ fst result -> matched_text leader' <> Some t).
Proof.
  intros Hl Ht result. unfold result, match_texts_to_arrows.
  set (maxd := max_distance (LEADER_ARROW_MATCHING config)). split.
  - rewrite backrefs_lengths, chosen_by_sum, matched_count_chosen; done.
  - intros t text' Ht'. split.
    + intros Hnil leader' Hin Hm.
      apply list_elem_of_lookup in Hin as [n Hn].
      destruct (match_cross_references maxd _ _ n t leader' text' Hl Ht Hn Ht')
        as [Hiff _].
      apply Hiff in Hm. rewrite Hnil in Hm. now apply elem_of_nil in Hm.
    + intros Hnone. destruct (matched_arrows text') as [|n ns] eqn:E; [done|].
      exfalso.
      destruct (fst (match_loop maxd 0 arrow_leaders texts) !! n)
        as [leader'|] eqn:En.
      * destruct (match_cross_references maxd _ _ n t leader' text' Hl Ht En Ht')
          as [Hiff _].
        apply (Hnone leader').
        -- apply list_elem_of_lookup. eauto.
        -- apply Hiff. rewrite E. left.
      * rewrite match_loop_texts, list_lookup_imap in Ht'.
        destruct (texts !! t) as [text|] eqn:Et; [|done].
        cbn in Ht'. injection Ht' as <-. cbn in E.
        rewrite Forall_forall in Ht.
        rewrite (Ht text) in E by (apply list_elem_of_lookup; eauto).
        cbn in E.
        assert (Hn : n ∈ chosen_by maxd texts t 0 arrow_leaders)
          by (rewrite E; left).
        apply chosen_by_elem in Hn as (k & leader & -> & Hk & _).
        rewrite match_loop_leaders, list_lookup_fmap in En.
        cbn in En. rewrite Hk in En. done.
Qed.

Lemma backrefs_count_witness :
  sum_list (map (fun text => length (matched_arrows text))
                (snd (match_texts_to_arrows spec_leaders [label_at (mkPoint 12 0)]
                                            CONFIG)))
  = matched_count (fst (match_texts_to_arrows spec_leaders [label_at (mkPoint 12 0)]
                                              CONFIG)).
Proof.
  destruct (backrefs_count spec_leaders [label_at (mkPoint 12 0)] CONFIG
              ltac:(constructor; [reflexivity | constructor])
              ltac:(constructor; [reflexivity | constructor])) as [H _].
  exact H.
Defined.

(** ** Extraction of the entities *)

Lemma lstrip_zeros_app k s : lstrip_zeros (zeros k +:+ s) = lstrip_zeros s.
Proof. induction k as [|k IH]; [done|]. cbn. exact IH. Qed.

(** The decimal digits of a positive number do not start with a zero. *)
Lemma pretty_N_go_head (n : N) : forall s,
  (0 < n)%N ->
  exists c rest, pretty_N_go n s = String c rest /\ c <> "0"%char.
Proof.
  induction (N.lt_wf_0 n) as [n _ IH]. intros s Hn.
  rewrite pretty_N_go_step by done.
  destruct (decide (n `div` 10 = 0)%N) as [E|E].
  - rewrite E, pretty_N_go_0. eexists _, _. split; [reflexivity|].
    apply N.div_small_iff in E; [|done]. rewrite N.mod_small by done.
    assert (n = 1 \/ n = 2 \/ n = 3 \/ n = 4 \/ n = 5 \/ n = 6 \/ n = 7 \/ n = 8
            \/ n = 9)%N as Hc by lia.
    destruct Hc as [->|[->|[->|[->|[->|[->|[->|[->| ->]]]]]]]]; discriminate.
  - apply IH; [apply N.div_lt; [exact Hn | reflexivity] | now apply N.neq_0_lt_0].
Qed.

Lemma pretty_nat_head (n : nat) :
  n <> 0%nat -> exists c rest, pretty n = String c rest /\ c <> "0"%char.
Proof.
  intros Hn. unfold pretty, pretty_nat, pretty, pretty_N.
  rewrite decide_False by lia. apply pretty_N_go_head. lia.
Qed.

Lemma lstrip_zeros_pretty (n : nat) :
  lstrip_zeros (pretty n) = if decide (n = 0%nat) then EmptyString else pretty n.
Proof.
  destruct (decide (n = 0%nat)) as [-> | Hn]; [done|].
  destruct (pretty_nat_head n Hn) as (c & rest & -> & Hc).
  cbn. destruct c as [[] [] [] [] [] [] [] []]; try done.
Qed.

Lemma format_0d_inj width m n : format_0d width m = format_0d width n -> m = n.
Proof.
  intros H. apply (f_equal lstrip_zeros) in H. unfold format_0d in H.
  rewrite !lstrip_zeros_app, !lstrip_zeros_pretty in H.
  destruct (decide (m = 0%nat)) as [-> | Hm], (decide (n = 0%nat)) as [-> | Hn].
  - done.
  - destruct (pretty_nat_head n Hn) as (c & rest & E & _). congruence.
  - destruct (pretty_nat_head m Hm) as (c & rest & E & _). congruence.
  - now apply (inj pretty).
Qed.

Lemma fold_left_snoc {A B} (f : B -> A) (l : list B) : forall acc,
  fold_left (fun acc b => acc ++ [f b]) l acc = acc ++ map f l.
Proof.
  induction l as [|b l IH]; intros acc; cbn; [now rewrite app_nil_r|].
  rewrite IH. now rewrite <- app_assoc.
Qed.

Lemma fold_left_counter {A B} (f : nat -> B -> A) (l : list B) : forall acc idx,
  fold_left (fun (st : list A * nat) b => let '(acc, idx) := st in
                                          (acc ++ [f idx b], S idx))
            l (acc, idx)
  = (acc ++ imap (fun k => f (idx + k)%nat) l, (idx + length l)%nat).
Proof.
  induction l as [|b l IH]; intros acc idx.
  - cbn. now rewrite app_nil_r, Nat.add_0_r.
  - cbn [fold_left imap length]. rewrite IH. rewrite <- app_assoc. cbn [app].
    rewrite Nat.add_0_r. f_equal; [|lia]. f_equal. f_equal.
    apply imap_ext. intros k b' _. cbn. f_equal. lia.
Qed.

Lemma prefixed_ids_NoDup (prefix : string) (width n : nat) :
  NoDup (map (fun k => Some (prefix +:+ format_0d width k)) (seq 0 n)).
Proof.
  apply NoDup_fmap_2; [|apply NoDup_seq].
  intros j k [= H]. apply (inj (String.append prefix)) in H.
  now apply format_0d_inj in H.
Qed.

Section ExtractionProperties.
Context {Entity : Type}.
Variables (dxftype dxf_handle dxf_layer : Entity -> string)
          (dxf_start dxf_end dxf_insert : Entity -> Point)
          (dxf_color dxf_lineweight : Entity -> option Z)
          (dxf_const_width : Entity -> option R)
          (dxf_linetype : Entity -> option string)
          (dxf_text mtext_text : Entity -> string)
          (leader_vertices polyline_locations lwpolyline_points
             : Entity -> list Point)
          (dxf_has_arrowhead polyline_is_closed lwpolyline_closed : Entity -> bool).

Lemma entities_get_classify (msp : list Entity) (ty : string) :
  entities_get (classify_entities dxftype msp) ty
  = filter (fun e => dxftype e = ty) msp.
Proof.
  unfold entities_get. rewrite classify_entities_lookup.
  now destruct (filter _ msp).
Qed.

Lemma extract_lines_lookup (entities : gmap string (list Entity)) (k : nat) :
  extract_lines dxf_handle dxf_layer dxf_start dxf_end dxf_color dxf_lineweight
                dxf_linetype entities !! k
  = (fun entity =>
       mkLine k (dxf_start entity) (dxf_end entity)
              (Some (dxf_handle entity)) (Some (dxf_layer entity))
              (dxf_color entity) (dxf_lineweight entity) (dxf_linetype entity)
              (Some ("L" +:+ format_0d 4 k)))
    <$> entities_get entities "LINE" !! k.
Proof.
  unfold extract_lines, enumerate.
  rewrite list_lookup_fmap, list_lookup_imap.
  now destruct (entities_get entities "LINE" !! k).
Qed.

Lemma extract_lines_objects (entities : gmap string (list Entity)) :
  map obj (extract_lines dxf_handle dxf_layer dxf_start dxf_end dxf_color
                         dxf_lineweight dxf_linetype entities)
  = seq 0 (length (entities_get entities "LINE")).
Proof.
  apply list_eq. intros k. rewrite list_lookup_fmap, extract_lines_lookup.
  destruct (entities_get entities "LINE" !! k) as [e|] eqn:E; cbn.
  - rewrite lookup_seq_lt by (now apply lookup_lt_Some in E). done.
  - rewrite lookup_seq_ge by (now apply lookup_ge_None in E). done.
Qed.

Lemma extract_lines_NoDup (entities : gmap string (list Entity)) :
  NoDup (map obj (extract_lines dxf_handle dxf_layer dxf_start dxf_end dxf_color
                                dxf_lineweight dxf_linetype entities)).
Proof. rewrite extract_lines_objects. apply NoDup_seq. Qed.

Lemma extract_texts_map (entities : gmap string (list Entity)) :
  extract_texts dxf_handle dxf_layer dxf_insert dxf_text mtext_text entities
  = map (fun entity => mkText (dxf_handle entity) (dxf_text entity)
                              (dxf_insert entity) (dxf_layer entity) "TEXT" [])
        (entities_get entities "TEXT")
    ++ map (fun entity => mkText (dxf_handle entity) (mtext_text entity)
                                 (dxf_insert entity) (dxf_layer entity) "MTEXT" [])
           (entities_get entities "MTEXT").
Proof. unfold extract_texts. now rewrite !fold_left_snoc. Qed.

Lemma extract_texts_fresh (entities : gmap string (list Entity)) :
  Forall (fun text => matched_arrows text = [])
         (extract_texts dxf_handle dxf_layer dxf_insert dxf_text mtext_text entities).
Proof.
  rewrite extract_texts_map. apply Forall_app. split; apply Forall_forall;
    intros text Hin; apply list_elem_of_fmap in Hin as (e & -> & _); done.
Qed.

(** X28. From a model space, through [classify_entities], line
    extraction makes one line per LINE entity, in the order of the model
    space, with the entity's two endpoints: the lines are distinct objects
    and their identifiers are distinct.  Text extraction lists the TEXT
    entities before the MTEXT entities, wherever they stand in the model
    space, and no text it makes has a leader yet. *)
Theorem extracted_lines_and_texts (msp : list Entity) :
  let entities := classify_entities dxftype msp in
  let lines := extract_lines dxf_handle dxf_layer dxf_start dxf_end dxf_color
                             dxf_lineweight dxf_linetype entities in
  let texts := extract_texts dxf_handle dxf_layer dxf_insert dxf_text mtext_text
                             entities in
  map (fun l => (start_point l, end_point l)) lines
  = map (fun e => (dxf_start e, dxf_end e))
        (filter (fun e => dxftype e = "LINE") msp)
  /\ NoDup (map obj lines)
  /\ NoDup (map line_id lines)
  /\ map (fun t => (content t, position t, entity_type t)) texts
     = map (fun e => (dxf_text e, dxf_insert e, "TEXT"))
           (filter (fun e => dxftype e = "TEXT") msp)
       ++ map (fun e => (mtext_text e, dxf_insert e, "MTEXT"))
              (filter (fun e => dxftype e = "MTEXT") msp)
  /\ Forall (fun text => matched_arrows text = []) texts.
Proof.
  cbn zeta. split; [|split; [|split; [|split]]].
  - apply list_eq. intros k.
    rewrite !list_lookup_fmap, extract_lines_lookup, entities_get_classify.
    now destruct (filter _ msp !! k).
  - apply extract_lines_NoDup.
  - replace (map line_id _)
      with (map (fun k => Some ("L" +:+ format_0d 4 k))
                (seq 0 (length (filter (fun e => dxftype e = "LINE") msp)))).
    + apply prefixed_ids_NoDup.
    + apply list_eq. intros k.
      rewrite !list_lookup_fmap, extract_lines_lookup, entities_get_classify.
      destruct (filter _ msp !! k) as [e|] eqn:E; cbn.
      * rewrite lookup_seq_lt by (now apply lookup_lt_Some in E). done.
      * rewrite lookup_seq_ge by (now apply lookup_ge_None in E). done.
  - rewrite extract_texts_map, !entities_get_classify, map_app, !map_map. done.
  - apply extract_texts_fresh.
Qed.

Lemma extract_polylines_imap (entities : gmap string (list Entity)) :
  extract_polylines dxf_handle dxf_layer dxf_color dxf_lineweight dxf_const_width
                    dxf_linetype polyline_locations lwpolyline_points
                    polyline_is_closed lwpolyline_closed entities
  = imap (fun idx entity =>
            PolylineEntity.mk (dxf_handle entity) (dxf_layer entity)
              (polyline_locations entity) (polyline_is_closed entity)
              "POLYLINE" (dxf_color entity) (IZR <$> dxf_lineweight entity)
              (dxf_linetype entity) (Some ("PL" +:+ format_0d 4 idx)))
         (entities_get entities "POLYLINE")
    ++ imap (fun idx entity =>
               PolylineEntity.mk (dxf_handle entity) (dxf_layer entity)
                 (lwpolyline_points entity) (lwpolyline_closed entity)
                 "LWPOLYLINE" (dxf_color entity) (dxf_const_width entity)
                 (dxf_linetype entity)
                 (Some ("PL" +:+ format_0d 4
                          (length (entities_get entities "POLYLINE") + idx))))
            (entities_get entities "LWPOLYLINE").
Proof.
  unfold extract_polylines.
  rewrite (fold_left_counter
             (fun idx entity =>
                PolylineEntity.mk (dxf_handle entity) (dxf_layer entity)
                  (polyline_locations entity) (polyline_is_closed entity)
                  "POLYLINE" (dxf_color entity) (IZR <$> dxf_lineweight entity)
                  (dxf_linetype entity) (Some ("PL" +:+ format_0d 4 idx)))).
  rewrite (fold_left_counter
             (fun idx entity =>
                PolylineEntity.mk (dxf_handle entity) (dxf_layer entity)
                  (lwpolyline_points entity) (lwpolyline_closed entity)
                  "LWPOLYLINE" (dxf_color entity) (dxf_const_width entity)
                  (dxf_linetype entity) (Some ("PL" +:+ format_0d 4 idx)))).
  cbn [fst app Nat.add]. done.
Qed.

(** X29. Polyline extraction lists the POLYLINE entities before the
    LWPOLYLINE entities and numbers them through: the polyline at position
    [k] has the identifier of [k], so that the identifiers are distinct.
    Leader extraction numbers the leaders in the same way, and the arrow
    point and the text point of a leader are the first and the last vertex
    of its entity. *)
Theorem extracted_polylines_and_leaders (msp : list Entity) :
  let entities := classify_entities dxftype msp in
  let polylines :=
    extract_polylines dxf_handle dxf_layer dxf_color dxf_lineweight dxf_const_width
                      dxf_linetype polyline_locations lwpolyline_points
                      polyline_is_closed lwpolyline_closed entities in
  let leaders := extract_leaders dxf_handle dxf_layer dxf_color dxf_linetype
                                 leader_vertices dxf_has_arrowhead entities in
  map (fun p => (PolylineEntity.entity_type p, PolylineEntity.vertices p,
                 PolylineEntity.is_closed p)) polylines
  = map (fun e => ("POLYLINE", polyline_locations e, polyline_is_closed e))
        (filter (fun e => dxftype e = "POLYLINE") msp)
    ++ map (fun e => ("LWPOLYLINE", lwpolyline_points e, lwpolyline_closed e))
           (filter (fun e => dxftype e = "LWPOLYLINE") msp)
  /\ map PolylineEntity.id polylines
     = map (fun k => Some ("PL" +:+ format_0d 4 k)) (seq 0 (length polylines))
  /\ NoDup (map PolylineEntity.id polylines)
  /\ map LeaderEntity.id leaders
     = map (fun k => Some ("LD" +:+ format_0d 3 k)) (seq 0 (length leaders))
  /\ NoDup (map LeaderEntity.id leaders)
  /\ map (fun l => (LeaderEntity.get_arrow_point l, LeaderEntity.get_text_point l))
         leaders
     = map (fun e => (head (leader_vertices e), last (leader_vertices e)))
           (filter (fun e => dxftype e = "LEADER") msp).
Proof.
  cbn zeta. rewrite extract_polylines_imap, !entities_get_classify.
  set (ps := filter (fun e => dxftype e = "POLYLINE") msp).
  set (ls := filter (fun e => dxftype e = "LWPOLYLINE") msp).
  assert (Hids : map PolylineEntity.id
                   (imap (fun idx entity =>
                            PolylineEntity.mk (dxf_handle entity) (dxf_layer entity)
                              (polyline_locations entity) (polyline_is_closed entity)
                              "POLYLINE" (dxf_color entity)
                              (IZR <$> dxf_lineweight entity)
                              (dxf_linetype entity) (Some ("PL" +:+ format_0d 4 idx)))
                         ps
                    ++ imap (fun idx entity =>
                               PolylineEntity.mk (dxf_handle entity)
                                 (dxf_layer entity) (lwpolyline_points entity)
                                 (lwpolyline_closed entity) "LWPOLYLINE"
                                 (dxf_color entity) (dxf_const_width entity)
                                 (dxf_linetype entity)
                                 (Some ("PL" +:+ format_0d 4 (length ps + idx))))
                            ls)
                 = map (fun k => Some ("PL" +:+ format_0d 4 k))
                       (seq 0 (length ps + length ls))).
  { rewrite map_app, seq_app, map_app. f_equal.
    - apply list_eq. intros k. rewrite !list_lookup_fmap, list_lookup_imap.
      destruct (ps !! k) as [e|] eqn:E; cbn.
      + rewrite lookup_seq_lt by (now apply lookup_lt_Some in E). done.
      + rewrite lookup_seq_ge by (now apply lookup_ge_None in E). done.
    - apply list_eq. intros k. rewrite !list_lookup_fmap, list_lookup_imap.
      destruct (ls !! k) as [e|] eqn:E; cbn.
      + rewrite lookup_seq_lt by (now apply lookup_lt_Some in E). done.
      + rewrite lookup_seq_ge by (now apply lookup_ge_None in E). done. }
  assert (Hlds : map LeaderEntity.id
                   (extract_leaders dxf_handle dxf_layer dxf_color dxf_linetype
                      leader_vertices dxf_has_arrowhead
                      (classify_entities dxftype msp))
                 = map (fun k => Some ("LD" +:+ format_0d 3 k))
                       (seq 0 (length (filter (fun e => dxftype e = "LEADER") msp)))).
  { unfold extract_leaders, enumerate. rewrite entities_get_classify.
    apply list_eq. intros k.
    rewrite !list_lookup_fmap, list_lookup_imap.
    destruct (filter _ msp !! k) as [e|] eqn:E; cbn.
    + rewrite lookup_seq_lt by (now apply lookup_lt_Some in E). done.
    + rewrite lookup_seq_ge by (now apply lookup_ge_None in E). done. }
  assert (Hlen : length (extract_leaders dxf_handle dxf_layer dxf_color dxf_linetype
                           leader_vertices dxf_has_arrowhead
                           (classify_entities dxftype msp))
                 = length (filter (fun e => dxftype e = "LEADER") msp)).
  { unfold extract_leaders, enumerate. rewrite entities_get_classify.
    now rewrite length_map, length_imap. }
  split; [|split; [|split; [|split; [|split]]]].
  - rewrite map_app. f_equal; apply list_eq; intros k;
      rewrite !list_lookup_fmap, list_lookup_imap;
      match goal with |- context [?l !! k] => destruct (l !! k) end; done.
  - rewrite Hids. now rewrite length_app, !length_imap.
  - rewrite Hids. apply prefixed_ids_NoDup.
  - rewrite Hlds, Hlen. done.
  - rewrite Hlds. apply prefixed_ids_NoDup.
  - unfold extract_leaders, enumerate. rewrite entities_get_classify.
    apply list_eq. intros k.
    rewrite !list_lookup_fmap, list_lookup_imap.
    destruct (filter _ msp !! k) as [e|]; cbn; [|done].
    now rewrite get_arrow_point_head, get_text_point_last.
Qed.

End ExtractionProperties.

(** ** The analysis steps of [main] *)

Lemma match_loop_fields maxd leaders n texts :
  map (fun l => (arrow l, leader_position l, line_chain l, matched_boundaries l,
                 leader_id l)) (fst (match_loop maxd n leaders texts))
  = map (fun l => (arrow l, leader_position l, line_chain l, matched_boundaries l,
                   leader_id l)) leaders.
Proof.
  rewrite match_loop_leaders, map_map. apply map_ext. intros l.
  now destruct (find_closest_text _ _ _).
Qed.

Lemma map_fields_eq {A B C} (f : A -> B) (g : B -> C) (l1 l2 : list A) :
  map f l1 = map f l2 -> map (fun a => g (f a)) l1 = map (fun a => g (f a)) l2.
Proof. intros H. rewrite <- !(map_map f g). now rewrite H. Qed.

Lemma create_arrow_leaders_fresh arrows :
  Forall (fun l => matched_text l = None /\ matched_boundaries l = [])
         (create_arrow_leaders arrows).
Proof.
  apply Forall_lookup. intros n l. rewrite create_arrow_leaders_lookup.
  destruct (arrows !! n); [|done]. now intros [= <-].
Qed.

Lemma create_arrow_leaders_arrows arrows :
  map arrow (create_arrow_leaders arrows) = arrows.
Proof.
  apply list_eq. intros n. rewrite list_lookup_fmap, create_arrow_leaders_lookup.
  now destruct (arrows !! n).
Qed.

Lemma detected_leader_ids lines config :
  map leader_id (create_arrow_leaders (detect_arrows_in_drawing lines config))
  = map arrow_id (detect_arrows_in_drawing lines config).
Proof.
  apply list_eq. intros n.
  rewrite !list_lookup_fmap, create_arrow_leaders_lookup.
  destruct (detect_arrows_in_drawing lines config !! n) as [a|] eqn:E; [|done].
  cbn. now rewrite (detect_arrows_lookup _ _ _ _ E).
Qed.

(** What the four steps leave, on distinct lines and on texts without a
    leader. *)
Lemma analysis_steps_facts flag lines texts config :
  NoDup (map obj lines) ->
  Forall (fun text => matched_arrows text = []) texts ->
  let result := analysis_steps flag lines texts config in
  let arrows := fst (fst (fst result)) in
  let arrow_leaders := snd (fst (fst result)) in
  let boundary_lines := snd (fst result) in
  map arrow arrow_leaders = arrows
  /\ map leader_id arrow_leaders = map arrow_id arrows
  /\ (2 * length arrow_leaders <= length lines)%nat
  /\ NoDup (flat_map (fun a => [obj (left_barb a); obj (right_barb a)]) arrows)
  /\ boundary_lines = flat_map matched_boundaries arrow_leaders
  /\ (forall line a, line ∈ boundary_lines -> a ∈ arrows ->
        line ∈ lines
        /\ obj line <> obj (shaft a)
        /\ obj line <> obj (left_barb a)
        /\ obj line <> obj (right_barb a))
  /\ map position (snd result) = map position texts
  /\ forall n t leader text',
       arrow_leaders !! n = Some leader -> snd result !! t = Some text' ->
       (matched_text leader = Some t <-> n ∈ matched_arrows text').
Proof.
  intros Hobj Hfresh. destruct flag; cbn zeta; unfold analysis_steps.
  2: { cbn. split; [done|]. split; [done|]. split; [lia|]. split; [constructor|].
       split; [done|]. split; [intros line a H; now apply elem_of_nil in H|].
       split; [done|]. intros n t leader text' H. done. }
  set (arrows := detect_arrows_in_drawing lines config).
  set (l1 := create_arrow_leaders arrows).
  pose proof (boundary_leaders_fields l1 lines config) as Hb.
  pose proof (boundary_lines_concat (LEADER_BOUNDARY_MATCHING config)
                (arrow_lines_of l1) lines l1) as Hconcat.
  pose proof (fun line => boundary_lines_free l1 lines config line) as Hfree.
  unfold detect_boundary_lines in Hb, Hfree.
  destruct (detect_boundary_lines l1 lines config) as [l2 bl] eqn:Eb.
  unfold detect_boundary_lines in Eb. rewrite Eb in Hb, Hconcat, Hfree.
  cbn [fst snd] in Hb, Hconcat, Hfree.
  pose proof (match_loop_fields (max_distance (LEADER_ARROW_MATCHING config))
                l2 0 texts) as Hm.
  pose proof (match_loop_positions (max_distance (LEADER_ARROW_MATCHING config))
                l2 0 texts) as Hpos.
  pose proof (fun n t leader text' =>
                match_cross_references (max_distance (LEADER_ARROW_MATCHING config))
                  l2 texts n t leader text') as Hcross.
  destruct (match_texts_to_arrows l2 texts config) as [l3 texts'] eqn:Em.
  unfold match_texts_to_arrows in Em. rewrite Em in Hm, Hpos, Hcross.
  cbn [fst snd] in Hm, Hpos, Hcross |- *.
  pose proof (create_arrow_leaders_fresh arrows) as Hl1. fold l1 in Hl1.
  assert (Hm_arrow : map arrow l3 = map arrow l2)
    by exact (map_fields_eq _ (fun p => fst (fst (fst (fst p)))) _ _ Hm).
  assert (Hm_id : map leader_id l3 = map leader_id l2)
    by exact (map_fields_eq _ (fun p => snd p) _ _ Hm).
  assert (Hm_mb : map matched_boundaries l3 = map matched_boundaries l2)
    by exact (map_fields_eq _ (fun p => snd (fst p)) _ _ Hm).
  assert (Hb_arrow : map arrow l2 = map arrow l1)
    by exact (map_fields_eq _ (fun p => fst (fst (fst (fst p)))) _ _ Hb).
  assert (Hb_id : map leader_id l2 = map leader_id l1)
    by exact (map_fields_eq _ (fun p => snd p) _ _ Hb).
  assert (Hb_text : map matched_text l2 = map matched_text l1)
    by exact (map_fields_eq _ (fun p => snd (fst p)) _ _ Hb).
  assert (Ha3 : map arrow l3 = arrows).
  { rewrite Hm_arrow, Hb_arrow. apply create_arrow_leaders_arrows. }
  assert (Hlen : length l3 = length arrows).
  { rewrite <- Ha3. now rewrite length_map. }
  assert (Hl2 : Forall (fun l => matched_text l = None) l2).
  { apply Forall_lookup. intros n l Hn.
    assert (Hn' : map matched_text l2 !! n = Some (matched_text l))
      by (now rewrite list_lookup_fmap, Hn).
    rewrite Hb_text, list_lookup_fmap in Hn'.
    destruct (l1 !! n) as [l'|] eqn:E; [|done].
    cbn in Hn'. injection Hn' as <-.
    rewrite Forall_lookup in Hl1. now destruct (Hl1 n l' E). }
  split; [done|]. split.
  { rewrite Hm_id, Hb_id. apply detected_leader_ids. }
  split.
  { rewrite Hlen. apply detection_room. }
  split; [now apply detected_barbs_NoDup|]. split.
  { rewrite Hconcat.
    - rewrite !flat_map_concat_map. now rewrite Hm_mb.
    - eapply Forall_impl; [exact Hl1|]. now intros l [_ ?]. }
  split.
  { intros line a Hline Ha. destruct (Hfree line Hline) as [Hin Hno].
    split; [done|].
    assert (a ∈ map arrow l1) as Hal
        by (unfold l1; now rewrite create_arrow_leaders_arrows).
    apply list_elem_of_fmap in Hal as (l & -> & Hl). now apply Hno. }
  split; [done|].
  intros n t leader text' Hn Ht. now apply Hcross.
Qed.

Section AnalysisProperties.
Context {Entity : Type}.
Variables (dxftype dxf_handle dxf_layer : Entity -> string)
          (dxf_start dxf_end dxf_insert : Entity -> Point)
          (dxf_color dxf_lineweight : Entity -> option Z)
          (dxf_linetype : Entity -> option string)
          (dxf_text mtext_text : Entity -> string).

(** X30. The steps of [main] from the model space on.  With the switch
    as it is set, no arrow, leader or boundary line is looked for and the
    texts stay as extracted.  With the switch on or off: there is one
    leader per arrow, with the same number; the leaders are at most half
    as many as the LINE entities; no line is a barb twice; the boundary
    lines are the lines listed by the leaders, and none of them is a
    segment of an arrow; the texts keep their positions; and a leader
    names a text exactly when the text lists the leader. *)
Theorem analysis_of_model_space (flag : bool) (msp : list Entity) (config : Config) :
  let entities := classify_entities dxftype msp in
  let lines := extract_lines dxf_handle dxf_layer dxf_start dxf_end dxf_color
                             dxf_lineweight dxf_linetype entities in
  let texts := extract_texts dxf_handle dxf_layer dxf_insert dxf_text mtext_text
                             entities in
  let result := analysis_steps flag lines texts config in
  let arrows := fst (fst (fst result)) in
  let arrow_leaders := snd (fst (fst result)) in
  let boundary_lines := snd (fst result) in
  analysis_steps ON_DETECT_EX_LEADERS lines texts config = ([], [], [], texts)
  /\ map arrow arrow_leaders = arrows
  /\ map leader_id arrow_leaders = map arrow_id arrows
  /\ (2 * length arrow_leaders
      <= length (filter (fun e => dxftype e = "LINE") msp))%nat
  /\ NoDup (flat_map (fun a => [obj (left_barb a); obj (right_barb a)]) arrows)
  /\ boundary_lines = flat_map matched_boundaries arrow_leaders
  /\ (forall line a, line ∈ boundary_lines -> a ∈ arrows ->
        line ∈ lines
        /\ obj line <> obj (shaft a)
        /\ obj line <> obj (left_barb a)
        /\ obj line <> obj (right_barb a))
  /\ map position (snd result) = map position texts
  /\ forall n t leader text',
       arrow_leaders !! n = Some leader -> snd result !! t = Some text' ->
       (matched_text leader = Some t <-> n ∈ matched_arrows text').
Proof.
  cbn zeta. split; [reflexivity|].
  pose proof (analysis_steps_facts flag _ _ config
                (extract_lines_NoDup dxf_handle dxf_layer dxf_start dxf_end dxf_color
                   dxf_lineweight dxf_linetype (classify_entities dxftype msp))
                (extract_texts_fresh dxf_handle dxf_layer dxf_insert dxf_text
                   mtext_text (classify_entities dxftype msp))) as H.
  cbn zeta in H. destruct H as (H1 & H2 & H3 & H4 & H5 & H6 & H7 & H8).
  repeat (split; [assumption|]). split; [|repeat (split; [assumption|]); assumption].
  rewrite <- (entities_get_classify dxftype msp "LINE").
  unfold extract_lines, enumerate in H3.
  now rewrite length_map, length_imap in H3.
Qed.

End AnalysisProperties.
